(** * Pattern Engine of 4rensic: a shallow embedding of
      [src/storage/PatternDetector.js] and the properties of its
      operations.

    The file has three parts: the embedding (JavaScript numbers,
    JavaScript data, then the operations of [PatternDetector], each
    definition next to the source lines it stands for, followed by the
    defect extraction of [IntelligenceManager] and the outcome record of
    [AnalysisDatabase]); the vocabulary in which the properties are
    stated, with sample data; and the lemmas and theorems.

    The engine is JavaScript.  Four conventions hold throughout.

    - Values.  An analysis record is whatever the record store hands back,
      so records are modelled as untyped JavaScript data ([JsVal]): the
      engine reads them with property accesses, [||], [?.] and array
      methods, and these are modelled with the TypeError they raise.
      Numbers inside records are integers that binary64 holds.  Objects
      are plain data objects (no methods, no symbols) and every object or
      array occurrence is a distinct object.
    - Arrays.  A JavaScript array is a [list]; its length is below 2^32,
      so lengths, counters and their sums are exact and live in [nat].
    - Numbers the engine computes with (averages, percentages) are IEEE
      binary64 values; they are modelled by [JsNum], with the rounding of
      every operation written out ([Num.fl]).  The sign of zero is not
      modelled: it is not observable in any value the engine returns.
    - Sorting.  [Array.prototype.sort] is stable and sorts when its
      comparator is consistent; then it is the insertion sort [Js.sort].
      With a comparator that is not consistent the order of the result is
      the engine's choice, and the model says so ([Js.arrange],
      [EngineChoice]) instead of choosing one. *)

From Stdlib Require Import ZArith QArith Qround Qpower List String Ascii Bool.
From Stdlib Require Import Lia Lqa.
From Stdlib Require Import Permutation Sorted.
From Stdlib Require Import Decimal DecimalString.
Import ListNotations.

Set Warnings "-register-all".
Open Scope string_scope.

(* ================================================================== *)
(** * Results of computations that may throw *)
(* ================================================================== *)

Inductive JsError : Type := TypeError.

Inductive Res (A : Type) : Type :=
| Ok (a : A)
| Throw (e : JsError).

Arguments Ok {A} a.
Arguments Throw {A} e.

Definition bind {A B : Type} (m : Res A) (k : A -> Res B) : Res B :=
  match m with
  | Ok a => k a
  | Throw e => Throw e
  end.

Declare Scope res_scope.
Delimit Scope res_scope with res.
Notation "x <- m ;; k" := (bind m (fun x => k))
  (at level 61, m at next level, right associativity) : res_scope.
Open Scope res_scope.

Definition returns {A : Type} (m : Res A) : Prop := exists a, m = Ok a.

(** [arr.forEach(f)] where [f] updates an accumulator and may throw. *)
Fixpoint forEach {A S : Type} (f : S -> A -> Res S) (l : list A) (s : S) : Res S :=
  match l with
  | [] => Ok s
  | x :: t => s' <- f s x ;; forEach f t s'
  end.

(** [arr.map(f)] where [f] may throw. *)
Fixpoint mapM {A B : Type} (f : A -> Res B) (l : list A) : Res (list B) :=
  match l with
  | [] => Ok []
  | x :: t => y <- f x ;; ys <- mapM f t ;; Ok (y :: ys)
  end.

(** Decimal text of an integer, as [String(n)] prints it. *)
Definition decimal (z : Z) : string := NilZero.string_of_int (Z.to_int z).

Definition dquote : string := String (ascii_of_nat 34) EmptyString.

(* ================================================================== *)
(** * JavaScript numbers *)
(* ================================================================== *)

Module Num.

Local Open Scope Q_scope.

(** A binary64 value: not-a-number, an infinity, or a finite value given
    by the rational it denotes. *)
Inductive JsNum : Type :=
| NaN
| Inf (neg : bool)
| Fin (q : Q).

(** floor(log2 x) for a positive rational. *)
Definition ilog2 (x : Q) : Z :=
  let k := (Z.log2 (Qnum x) - Z.log2 (Zpos (Qden x)))%Z in
  if Qle_bool (2 ^ k) x then k else (k - 1)%Z.

(** Nearest integer, a tie going to the even one. *)
Definition rne (x : Q) : Z :=
  let f := Qfloor x in
  match Qcompare (x - inject_Z f) (1 # 2) with
  | Lt => f
  | Gt => (f + 1)%Z
  | Eq => if Z.even f then f else (f + 1)%Z
  end.

(** The exponent of the last place of a positive value: 53 significant
    bits, no finer than 2^-1074. *)
Definition ulp_exp (x : Q) : Z := Z.max (ilog2 x - 52) (-1074).

(** Round-to-nearest-even of a positive rational, exponent unbounded
    above. *)
Definition rnd (x : Q) : Q :=
  let e := ulp_exp x in inject_Z (rne (x / 2 ^ e)) * 2 ^ e.

Definition fl_pos (x : Q) (neg : bool) : JsNum :=
  let r := rnd x in
  if Qle_bool (2 ^ 1024) r then Inf neg
  else Fin (Qred (if neg then - r else r)).

(** The binary64 value of a real result. *)
Definition fl (x : Q) : JsNum :=
  match Qcompare x 0 with
  | Eq => Fin 0
  | Gt => fl_pos x false
  | Lt => fl_pos (- x) true
  end.

(** A length or a counter as a number: it is below 2^53, where every
    integer is a binary64 value. *)
Definition ofNat (n : nat) : JsNum := Fin (inject_Z (Z.of_nat n)).

Definition Qsign_neg (x : Q) : bool := negb (Qle_bool 0 x).

Definition add (a b : JsNum) : JsNum :=
  match a, b with
  | NaN, _ | _, NaN => NaN
  | Inf n1, Inf n2 => if Bool.eqb n1 n2 then Inf n1 else NaN
  | Inf n, Fin _ | Fin _, Inf n => Inf n
  | Fin x, Fin y => fl (x + y)
  end.

Definition opp (a : JsNum) : JsNum :=
  match a with
  | NaN => NaN
  | Inf n => Inf (negb n)
  | Fin x => Fin (Qred (- x))
  end.

Definition sub (a b : JsNum) : JsNum := add a (opp b).

Definition mul (a b : JsNum) : JsNum :=
  match a, b with
  | NaN, _ | _, NaN => NaN
  | Inf n1, Inf n2 => Inf (xorb n1 n2)
  | Inf n, Fin x | Fin x, Inf n =>
      if Qeq_bool x 0 then NaN else Inf (xorb n (Qsign_neg x))
  | Fin x, Fin y => fl (x * y)
  end.

Definition div (a b : JsNum) : JsNum :=
  match a, b with
  | NaN, _ | _, NaN => NaN
  | Inf _, Inf _ => NaN
  | Inf n, Fin y => Inf (xorb n (Qsign_neg y))
  | Fin _, Inf _ => Fin 0
  | Fin x, Fin y =>
      if Qeq_bool y 0
      then (if Qeq_bool x 0 then NaN else Inf (Qsign_neg x))
      else fl (x / y)
  end.

(** [a < b]; false as soon as one side is NaN. *)
Definition ltb (a b : JsNum) : bool :=
  match a, b with
  | NaN, _ | _, NaN => false
  | Inf n1, Inf n2 => n1 && negb n2
  | Inf n, Fin _ => n
  | Fin _, Inf n => negb n
  | Fin x, Fin y => negb (Qle_bool y x)
  end.

Definition gtb (a b : JsNum) : bool := ltb b a.

(** [a <= b] and [a >= b]. *)
Definition leb (a b : JsNum) : bool :=
  match a, b with
  | NaN, _ | _, NaN => false
  | Inf n1, Inf n2 => n1 || negb n2
  | Inf n, Fin _ => n
  | Fin _, Inf n => negb n
  | Fin x, Fin y => Qle_bool x y
  end.

Definition geb (a b : JsNum) : bool := leb b a.

(** [Math.max(a, b)]. *)
Definition max (a b : JsNum) : JsNum :=
  match a, b with
  | NaN, _ | _, NaN => NaN
  | _, _ => if ltb a b then b else a
  end.

(** [Math.round(a)]: floor(a + 1/2), an integer that binary64 holds
    exactly. *)
Definition round (a : JsNum) : JsNum :=
  match a with
  | Fin x => Fin (inject_Z (Qfloor (x + (1 # 2))))
  | other => other
  end.

(** The text of a number.  [toFixed(1)] writes a sign and a count of
    tenths; the text is kept with that structure, [render] gives its
    characters and [toNumber] the number that [parseFloat] or an
    arithmetic operator reads back from it. *)
Inductive NumText : Type :=
| TNaN
| TInfinity (neg : bool)
| TDec (neg : bool) (tenths : Z).

Definition render (t : NumText) : string :=
  match t with
  | TNaN => "NaN"
  | TInfinity neg => (if neg then "-" else "") ++ "Infinity"
  | TDec neg d =>
      (if neg then "-" else "") ++ decimal (d / 10)%Z ++ "." ++ decimal (d mod 10)%Z
  end.

(** [a.toFixed(1)]: the count of tenths nearest to the exact value of
    [a], the larger one on a tie; a negative value is written as a sign
    and the text of its opposite.  (From 10^21 on JavaScript switches to
    exponent notation; no average or rate of the engine is that large.) *)
Definition toFixed1 (a : JsNum) : NumText :=
  match a with
  | NaN => TNaN
  | Inf neg => TInfinity neg
  | Fin x =>
      if Qsign_neg x
      then TDec true (Qfloor (- x * 10 + (1 # 2)))
      else TDec false (Qfloor (x * 10 + (1 # 2)))
  end.

Definition toNumber (t : NumText) : JsNum :=
  match t with
  | TNaN => NaN
  | TInfinity neg => Inf neg
  | TDec neg d => fl (if neg then - (d # 10) else d # 10)
  end.

(** The text of an integer [z], as [String(z)] and a template literal
    print the number.  Up to 2^53 these are its decimal digits.  Beyond,
    the digits are the fewest that still denote the same binary64 value
    (the nearer candidate of two, the even one on a tie), followed by
    zeros as long as the number has at most 21 digits, and written with
    an exponent after that. *)
Definition roundTrips (x v : Z) : bool :=
  match fl (inject_Z v) with
  | Fin q => Qeq_bool q (inject_Z x)
  | _ => false
  end.

(** The value with [k] significant digits that denotes [x], a number of
    [N] digits, if there is one. *)
Definition candidate (x : Z) (N k : nat) : option Z :=
  let p := (10 ^ Z.of_nat (N - k))%Z in
  let lo := (x / p * p)%Z in
  let hi := (lo + p)%Z in
  match roundTrips x lo, roundTrips x hi with
  | true, true =>
      match (x - lo ?= hi - x)%Z with
      | Lt => Some lo
      | Gt => Some hi
      | Eq => if Z.even (x / p) then Some lo else Some hi
      end
  | true, false => Some lo
  | false, true => Some hi
  | false, false => None
  end.

Fixpoint shortest (x : Z) (N k fuel : nat) : Z :=
  match fuel with
  | O => x
  | S fuel' =>
      match candidate x N k with
      | Some v => v
      | None => shortest x N (S k) fuel'
      end
  end.

Fixpoint dropZeros (rev_digits : list ascii) : list ascii :=
  match rev_digits with
  | c :: rest => if (c =? "0")%char then dropZeros rest else rev_digits
  | [] => []
  end.

(** The digits of [v] without its final zeros. *)
Definition significand (v : Z) : string :=
  string_of_list_ascii
    (List.rev (dropZeros (List.rev (list_ascii_of_string (decimal v))))).

Definition exponentForm (v : Z) : string :=
  match significand v with
  | String d EmptyString =>
      String d "e+" ++ decimal (Z.of_nat (String.length (decimal v)) - 1)
  | String d more =>
      String d ("." ++ more) ++ "e+" ++
      decimal (Z.of_nat (String.length (decimal v)) - 1)
  | EmptyString => decimal v
  end.

Definition largeText (z : Z) : string :=
  match fl (inject_Z z) with
  | Fin q =>
      let x := Qfloor q in
      let N := String.length (decimal x) in
      let v := shortest x N 1 N in
      if (String.length (decimal v) <=? 21)%nat then decimal v else exponentForm v
  | _ => "Infinity"
  end.

Definition numberText (z : Z) : string :=
  if (Z.abs z <=? 2 ^ 53)%Z then decimal z
  else if (z <? 0)%Z then "-" ++ largeText (- z)
  else largeText z.

(** [String(a)] for the value of [Math.round], an integer. *)
Definition toStr (a : JsNum) : string :=
  match a with
  | NaN => "NaN"
  | Inf neg => (if neg then "-" else "") ++ "Infinity"
  | Fin x => numberText (Qfloor x)
  end.

End Num.

Import Num.

(* ================================================================== *)
(** * JavaScript data *)
(* ================================================================== *)

Module Js.

Inductive JsVal : Type :=
| JUndefined
| JNull
| JBool (b : bool)
| JNum (n : Z)
| JStr (s : string)
| JArr (items : list JsVal)
| JObj (props : list (string * JsVal)).

(** ToBoolean. *)
Definition truthy (v : JsVal) : bool :=
  match v with
  | JUndefined | JNull => false
  | JBool b => b
  | JNum n => negb (n =? 0)%Z
  | JStr s => negb (s =? "")
  | JArr _ | JObj _ => true
  end.

Definition nullish (v : JsVal) : bool :=
  match v with
  | JUndefined | JNull => true
  | _ => false
  end.

(** [a || b] once both operands are evaluated ([b] is pure wherever the
    engine uses [||] on values already at hand). *)
Definition or_else (a b : JsVal) : JsVal := if truthy a then a else b.

Fixpoint own (name : string) (props : list (string * JsVal)) : option JsVal :=
  match props with
  | [] => None
  | (k, v) :: rest => if k =? name then Some v else own name rest
  end.

(** [v.name] for the property names the engine reads (of a record:
    findings, phases, presetAnalysis, timestamp, id; of a defect: type,
    statute, severity, description; of an outcome: analysisId,
    defectsRaised, outcome, date, courtResponse, effectiveArguments).
    None of them is defined on a built-in prototype, so the access yields
    the own property of an object, [undefined] on any other value, and
    throws on [undefined] and [null]. *)
Definition get (v : JsVal) (name : string) : Res JsVal :=
  match v with
  | JUndefined | JNull => Throw TypeError
  | JObj props =>
      match own name props with
      | Some x => Ok x
      | None => Ok JUndefined
      end
  | _ => Ok JUndefined
  end.

(** [v?.name]. *)
Definition get_opt (v : JsVal) (name : string) : Res JsVal :=
  if nullish v then Ok JUndefined else get v name.

(** Calling an array method ([forEach], [filter], [flatMap]) on a value:
    only an array has the method; on any other value the call throws
    (the method is [undefined], or the receiver is). *)
Definition asArray (v : JsVal) : Res (list JsVal) :=
  match v with
  | JArr items => Ok items
  | _ => Throw TypeError
  end.

(** Strict equality [===] and SameValueZero (they differ on NaN only,
    which no record holds): primitives by value, objects and arrays by
    identity, and two occurrences are never the same object. *)
Definition strictEq (a b : JsVal) : bool :=
  match a, b with
  | JUndefined, JUndefined => true
  | JNull, JNull => true
  | JBool x, JBool y => Bool.eqb x y
  | JNum x, JNum y => (x =? y)%Z
  | JStr x, JStr y => (x =? y)
  | _, _ => false
  end.

(** ToString, as a template literal applies it.  A number prints as
    [Num.numberText] says.  An array prints its
    items joined by commas, [null] and [undefined] items as nothing.  A
    plain object prints as [[object Object]]; if it shadows [toString]
    with a data property, neither that nor [valueOf] yields a primitive
    and the conversion throws. *)
Fixpoint toString (v : JsVal) : Res string :=
  match v with
  | JUndefined => Ok "undefined"
  | JNull => Ok "null"
  | JBool true => Ok "true"
  | JBool false => Ok "false"
  | JNum n => Ok (Num.numberText n)
  | JStr s => Ok s
  | JArr items =>
      (fix join (l : list JsVal) : Res string :=
         match l with
         | [] => Ok ""
         | x :: rest =>
             sx <- (if nullish x then Ok "" else toString x) ;;
             match rest with
             | [] => Ok sx
             | _ => sr <- join rest ;; Ok (sx ++ "," ++ sr)
             end
         end) items
  | JObj props =>
      match own "toString" props with
      | Some _ => Throw TypeError
      | None => Ok "[object Object]"
      end
  end.

(** [arr.flatMap(f)]: the results are concatenated, a result that is not
    an array counting as one item. *)
Fixpoint flatMap (f : JsVal -> Res JsVal) (l : list JsVal) : Res (list JsVal) :=
  match l with
  | [] => Ok []
  | p :: rest =>
      r <- f p ;;
      rs <- flatMap f rest ;;
      Ok (match r with
          | JArr items => (items ++ rs)%list
          | other => other :: rs
          end)
  end.

(** [arr.sort(cmp)] for a comparator that yields an integer: the sort is
    stable, and for a consistent comparator its result is the only
    stably sorted arrangement, computed here by insertion. *)
Section Sort.
Context {A : Type} (cmp : A -> A -> Z).

Fixpoint insert (x : A) (l : list A) : list A :=
  match l with
  | [] => [x]
  | y :: t => if (cmp x y <=? 0)%Z then x :: l else y :: insert x t
  end.

Fixpoint sort (l : list A) : list A :=
  match l with
  | [] => []
  | x :: t => insert x (sort t)
  end.

End Sort.

(** [arr.sort(cmp)] for any comparator.  A comparator is consistent on
    the items when it orders them: opposite arguments give opposite
    signs, and "not after" is transitive.  The result then is the stably
    sorted arrangement.  Otherwise the order of the result is the
    engine's choice: all that is known of it is that it holds the same
    items. *)
Inductive Arranged (A : Type) : Type :=
| InOrder (l : list A)
| InSomeOrder (l : list A).

Arguments InOrder {A} l.
Arguments InSomeOrder {A} l.

Section Arrange.
Context {A : Type} (cmp : A -> A -> Z).

Definition opposite (a b : A) : bool :=
  (Z.sgn (cmp a b) =? - Z.sgn (cmp b a))%Z.

Definition chained (a b c : A) : bool :=
  implb ((cmp a b <=? 0)%Z && (cmp b c <=? 0)%Z) (cmp a c <=? 0)%Z.

Definition consistentOn (l : list A) : bool :=
  forallb (fun a => forallb (fun b => opposite a b && forallb (chained a b) l) l) l.

Definition arrange (l : list A) : Arranged A :=
  if consistentOn l then InOrder (sort cmp l) else InSomeOrder l.

End Arrange.

(** The items of an arrangement, in the order in which it is known or,
    failing that, in the order they had before the sort. *)
Definition members {A : Type} (r : Arranged A) : list A :=
  match r with
  | InOrder l => l
  | InSomeOrder l => l
  end.

(** ASCII lower-casing.  [String.prototype.toLowerCase] also maps
    non-ASCII letters, but never onto text that completes one of the
    ASCII patterns the engine searches for. *)
Definition lower_ascii (c : ascii) : ascii :=
  let n := nat_of_ascii c in
  if (65 <=? n)%nat && (n <=? 90)%nat then ascii_of_nat (n + 32) else c.

Fixpoint toLowerCase (s : string) : string :=
  match s with
  | EmptyString => EmptyString
  | String c rest => String (lower_ascii c) (toLowerCase rest)
  end.

(** [s.includes(pat)]. *)
Fixpoint includes (pat s : string) : bool :=
  prefix pat s ||
  match s with
  | EmptyString => false
  | String _ rest => includes pat rest
  end.

End Js.

Import Js.

(* ================================================================== *)
(** * The Pattern Engine ([class PatternDetector]) *)
(* ================================================================== *)

(** ** Finding extraction

    Every operation reads the findings of a record with the same
    expression,
    [analysis.findings ||
       analysis.phases?.presetAnalysis?.flatMap(p => p.findings || []) || []],
    and then calls an array method on its value. *)

(** [p => p.findings || []] *)
Definition presetFindings (p : JsVal) : Res JsVal :=
  f <- get p "findings" ;;
  Ok (or_else f (JArr [])).

Definition findingsOf (analysis : JsVal) : Res JsVal :=
  direct <- get analysis "findings" ;;
  if truthy direct then Ok direct
  else
    phases <- get analysis "phases" ;;
    presets <- get_opt phases "presetAnalysis" ;;
    if nullish presets then Ok (JArr [])
    else
      items <- asArray presets ;;
      nested <- flatMap presetFindings items ;;
      Ok (JArr nested).

(** The findings as the array the operations iterate over. *)
Definition extractFindings (analysis : JsVal) : Res (list JsVal) :=
  v <- findingsOf analysis ;;
  asArray v.

(** ** findRecurringDefects *)

Record DefectCount : Type := {
  dc_type : JsVal;
  dc_statute : JsVal;
  dc_severity : JsVal;
  dc_count : nat;
  dc_firstSeen : JsVal;
  dc_lastSeen : JsVal;
  dc_descriptions : list JsVal;
  dc_analysisIds : list JsVal
}.

(** [defectCounts]: an object used as a map.  Every key holds a [|], so
    none is an array index or a name of [Object.prototype], and the
    properties are kept and listed in the order of their creation. *)
Definition DefectCounts : Type := list (string * DefectCount).

Fixpoint lookup {V : Type} (k : string) (m : list (string * V)) : option V :=
  match m with
  | [] => None
  | (k', v) :: rest => if k' =? k then Some v else lookup k rest
  end.

Fixpoint update {V : Type} (k : string) (f : V -> V) (m : list (string * V))
  : list (string * V) :=
  match m with
  | [] => []
  | (k', v) :: rest =>
      if k' =? k then (k', f v) :: rest else (k', v) :: update k f rest
  end.

(** [`${type}|${statute || 'unknown'}`] *)
Definition groupKey (type statute : JsVal) : Res string :=
  t <- toString type ;;
  s <- toString (or_else statute (JStr "unknown")) ;;
  Ok (t ++ "|" ++ s).

Definition defectKey (defect : JsVal) : Res string :=
  type <- get defect "type" ;;
  statute <- get defect "statute" ;;
  groupKey type statute.

(** The body of [findings.forEach(defect => ...)]. *)
Definition countDefect (analysis : JsVal) (defectCounts : DefectCounts)
    (defect : JsVal) : Res DefectCounts :=
  key <- defectKey defect ;;
  type <- get defect "type" ;;
  statute <- get defect "statute" ;;
  severity <- get defect "severity" ;;
  description <- get defect "description" ;;
  timestamp <- get analysis "timestamp" ;;
  id <- get analysis "id" ;;
  let created :=
    match lookup key defectCounts with
    | Some _ => defectCounts
    | None =>
        (defectCounts ++
         [(key, {| dc_type := type; dc_statute := statute;
                   dc_severity := severity; dc_count := 0;
                   dc_firstSeen := timestamp; dc_lastSeen := timestamp;
                   dc_descriptions := []; dc_analysisIds := [] |})])%list
    end in
  Ok (update key
        (fun d => {| dc_type := dc_type d; dc_statute := dc_statute d;
                     dc_severity := dc_severity d;
                     dc_count := S (dc_count d);
                     dc_firstSeen := dc_firstSeen d;
                     dc_lastSeen := timestamp;
                     dc_descriptions := (dc_descriptions d ++ [description])%list;
                     dc_analysisIds := (dc_analysisIds d ++ [id])%list |})
        created).

(** The body of [analyses.forEach(analysis => ...)]. *)
Definition countAnalysis (defectCounts : DefectCounts) (analysis : JsVal)
  : Res DefectCounts :=
  findings <- extractFindings analysis ;;
  forEach (countDefect analysis) findings defectCounts.

(** [(a, b) => b.count - a.count] *)
Definition byCountDesc (a b : DefectCount) : Z :=
  (Z.of_nat (dc_count b) - Z.of_nat (dc_count a))%Z.

Definition findRecurringDefects (analyses : list JsVal) : Res (list DefectCount) :=
  defectCounts <- forEach countAnalysis analyses [] ;;
  Ok (sort byCountDesc
        (filter (fun d => (3 <=? dc_count d)%nat) (map snd defectCounts))).

(** ** analyzeTrends *)

Record Trend : Type := {
  tr_direction : string;
  tr_message : string;
  tr_recommendation : string;
  tr_severity : string;
  tr_firstAvg : string;
  tr_secondAvg : string
}.

Inductive TrendResult : Type :=
| InsufficientData (message : string) (analysisCount : nat)
| TrendReport (t : Trend).

(** [d => d.severity === 'HIGH' || d.severity === 'CRITICAL'] *)
Definition isHighOrCritical (d : JsVal) : Res bool :=
  severity <- get d "severity" ;;
  Ok (strictEq severity (JStr "HIGH") || strictEq severity (JStr "CRITICAL")).

(** [arr.filter(f).length] for a predicate that may throw. *)
Fixpoint countWhere (f : JsVal -> Res bool) (l : list JsVal) : Res nat :=
  match l with
  | [] => Ok 0%nat
  | x :: t =>
      b <- f x ;;
      n <- countWhere f t ;;
      Ok (if b then S n else n)
  end.

Definition severityCount (a : JsVal) : Res nat :=
  findings <- extractFindings a ;;
  countWhere isHighOrCritical findings.

(** [arr.slice(-5)] *)
Definition lastFive {A : Type} (l : list A) : list A :=
  skipn (List.length l - 5) l.

(** [arr.reduce((a, b) => a + b, 0) / arr.length] *)
Definition average (l : list nat) : JsNum :=
  div (ofNat (fold_left Nat.add l 0%nat)) (ofNat (List.length l)).

(** The number literals [1.2] and [0.8]. *)
Definition lit_1_2 : JsNum := fl (12 # 10).
Definition lit_0_8 : JsNum := fl (8 # 10).

Definition classifyTrend (firstAvg secondAvg : JsNum) : Trend :=
  if gtb secondAvg (mul firstAvg lit_1_2) then
    {| tr_direction := "WORSENING";
       tr_message :=
         "⚠️ High-severity issues increased " ++
         toStr (round (mul (sub (div secondAvg firstAvg) (Fin 1)) (Fin 100))) ++
         "% in recent analyses";
       tr_recommendation := "Systematic review of documentation processes recommended";
       tr_severity := "HIGH";
       tr_firstAvg := render (toFixed1 firstAvg);
       tr_secondAvg := render (toFixed1 secondAvg) |}
  else if ltb secondAvg (mul firstAvg lit_0_8) && gtb firstAvg (Fin 0) then
    {| tr_direction := "IMPROVING";
       tr_message :=
         "✅ High-severity issues decreased " ++
         toStr (round (mul (sub (Fin 1) (div secondAvg firstAvg)) (Fin 100))) ++
         "%";
       tr_recommendation := "Current processes appear effective - maintain practices";
       tr_severity := "LOW";
       tr_firstAvg := render (toFixed1 firstAvg);
       tr_secondAvg := render (toFixed1 secondAvg) |}
  else
    {| tr_direction := "STABLE";
       tr_message := "Issue frequency stable";
       tr_recommendation := "Continue monitoring";
       tr_severity := "MEDIUM";
       tr_firstAvg := render (toFixed1 firstAvg);
       tr_secondAvg := render (toFixed1 secondAvg) |}.

Definition analyzeTrends (analyses : list JsVal) : Res TrendResult :=
  if (List.length analyses <? 3)%nat then
    Ok (InsufficientData "Need at least 3 analyses to detect trends"
          (List.length analyses))
  else
    let recent := lastFive analyses in
    severityCounts <- mapM severityCount recent ;;
    let half := (List.length severityCounts / 2)%nat in
    let firstHalf := firstn half severityCounts in
    let secondHalf := skipn half severityCounts in
    Ok (TrendReport (classifyTrend (average firstHalf) (average secondHalf))).

(** ** generateRecommendations *)

Record Recommendation : Type := {
  rec_issue : JsVal;
  rec_frequency : nat;
  rec_severity : JsVal;
  rec_priority : Z;
  rec_recommendation : string;
  rec_statute : JsVal
}.

(** [type && type.toLowerCase().includes(a) && type.toLowerCase().includes(b)]:
    a falsy type ends the test, a string is searched, and any other
    value has no [toLowerCase] to call. *)
Definition typeMentions (type : JsVal) (a b : string) : Res bool :=
  if truthy type then
    match type with
    | JStr s => Ok (includes a (toLowerCase s) && includes b (toLowerCase s))
    | _ => Throw TypeError
    end
  else Ok false.

Definition nl : string := String (ascii_of_nat 10) EmptyString.

Definition directionsAdvice (defect : DefectCount) : Recommendation :=
  {| rec_issue := dc_type defect;
     rec_frequency := dc_count defect;
     rec_severity := JStr "HIGH";
     rec_priority := 1;
     rec_recommendation :=
       "CREATE MANDATORY CHECKLIST: After " ++ decimal (Z.of_nat (dc_count defect)) ++
       " occurrences, implement checklist requiring explicit documentation of:" ++ nl ++
       "1. Oral directions provided to subject (s.55D(2))" ++ nl ++
       "2. Written directions provided if subject illiterate" ++ nl ++
       "3. Officer confirms subject understood directions" ++ nl ++
       "4. Time directions given recorded" ++ nl ++
       "5. Subject's response to directions noted";
     rec_statute := JStr "Road Safety Act 1986 s.55D" |}.

Definition beliefAdvice (defect : DefectCount) : Recommendation :=
  {| rec_issue := dc_type defect;
     rec_frequency := dc_count defect;
     rec_severity := JStr "HIGH";
     rec_priority := 1;
     rec_recommendation :=
       "TRAINING REQUIRED: Recurring failure to document subjective belief formation. " ++
       "Train officers to document:" ++ nl ++
       "- Specific observations leading to belief" ++ nl ++
       "- Which s.49(1)(a)-(h) indicator(s) observed" ++ nl ++
       "- Time belief formed" ++ nl ++
       "- Officer's exact words forming belief";
     rec_statute := JStr "Road Safety Act 1986 s.49" |}.

Definition cautionAdvice (defect : DefectCount) : Recommendation :=
  {| rec_issue := dc_type defect;
     rec_frequency := dc_count defect;
     rec_severity := JStr "CRITICAL";
     rec_priority := 1;
     rec_recommendation :=
       "CRITICAL PROCESS FAILURE: s.464 caution defects appearing " ++
       decimal (Z.of_nat (dc_count defect)) ++ " times. " ++
       "Implement:" ++ nl ++
       "- Pre-printed caution cards for officers" ++ nl ++
       "- Mandatory verbatim recording of caution" ++ nl ++
       "- Supervisor review before interview commencement" ++ nl ++
       "- Body-worn camera verification of caution delivery";
     rec_statute := JStr "Crimes Act 1958 s.464" |}.

Definition genericAdvice (defect : DefectCount) : Res Recommendation :=
  type <- toString (dc_type defect) ;;
  about <- toString (or_else (dc_statute defect) (JStr "this requirement")) ;;
  Ok {| rec_issue := dc_type defect;
        rec_frequency := dc_count defect;
        rec_severity := dc_severity defect;
        rec_priority := 2;
        rec_recommendation :=
          "Pattern detected: " ++ dquote ++ type ++ dquote ++ " has occurred " ++
          decimal (Z.of_nat (dc_count defect)) ++ " times. " ++
          "Review procedures related to " ++ about ++
          " to identify systemic causes.";
        rec_statute := or_else (dc_statute defect) (JStr "Unknown") |}.

(** [if (cond) recommendations.push(r)] *)
Definition pushIf {A : Type} (cond : bool) (r : A) (l : list A) : list A :=
  if cond then (l ++ [r])%list else l.

(** The body of [recurring.forEach(defect => ...)]. *)
Definition recommend (recommendations : list Recommendation)
    (defect : DefectCount) : Res (list Recommendation) :=
  m1 <- typeMentions (dc_type defect) "55d" "directions" ;;
  let r1 := pushIf m1 (directionsAdvice defect) recommendations in
  m2 <- typeMentions (dc_type defect) "49" "reason to believe" ;;
  let r2 := pushIf m2 (beliefAdvice defect) r1 in
  m3 <- typeMentions (dc_type defect) "464" "caution" ;;
  let r3 := pushIf m3 (cautionAdvice defect) r2 in
  if negb (existsb (fun r => strictEq (rec_issue r) (dc_type defect)) r3)
     && (5 <=? dc_count defect)%nat
  then g <- genericAdvice defect ;; Ok (r3 ++ [g])%list
  else Ok r3.

(** [(a, b) => a.priority - b.priority || b.frequency - a.frequency] *)
Definition byPriority (a b : Recommendation) : Z :=
  let d := (rec_priority a - rec_priority b)%Z in
  if (d =? 0)%Z
  then (Z.of_nat (rec_frequency b) - Z.of_nat (rec_frequency a))%Z
  else d.

Definition generateRecommendations (analyses : list JsVal)
  : Res (list Recommendation) :=
  recurring <- findRecurringDefects analyses ;;
  recommendations <- forEach recommend recurring [] ;;
  Ok (sort byPriority recommendations).

(** ** identifyNovelIssues *)

Record NovelIssue : Type := {
  ni_type : JsVal;
  ni_severity : JsVal;
  ni_description : JsVal;
  ni_statute : JsVal;
  ni_isNew : bool;
  ni_message : string
}.

(** A [Set] of values: its members in insertion order, compared by
    SameValueZero. *)
Definition setHas (s : list JsVal) (v : JsVal) : bool := existsb (strictEq v) s.

Definition setAdd (s : list JsVal) (v : JsVal) : list JsVal :=
  if setHas s v then s else (s ++ [v])%list.

(** [findings.forEach(f => previousIssueTypes.add(f.type))] *)
Definition addType (previousIssueTypes : list JsVal) (f : JsVal)
  : Res (list JsVal) :=
  type <- get f "type" ;;
  Ok (setAdd previousIssueTypes type).

Definition addTypesOf (previousIssueTypes : list JsVal) (analysis : JsVal)
  : Res (list JsVal) :=
  findings <- extractFindings analysis ;;
  forEach addType findings previousIssueTypes.

(** [arr.filter(f)] for a predicate that may throw. *)
Fixpoint filterM {A : Type} (f : A -> Res bool) (l : list A) : Res (list A) :=
  match l with
  | [] => Ok []
  | x :: t =>
      b <- f x ;;
      r <- filterM f t ;;
      Ok (if b then x :: r else r)
  end.

(** [finding => !previousIssueTypes.has(finding.type)] *)
Definition isNovel (previousIssueTypes : list JsVal) (finding : JsVal)
  : Res bool :=
  type <- get finding "type" ;;
  Ok (negb (setHas previousIssueTypes type)).

Definition novelEntry (issue : JsVal) : Res NovelIssue :=
  type <- get issue "type" ;;
  severity <- get issue "severity" ;;
  description <- get issue "description" ;;
  statute <- get issue "statute" ;;
  text <- toString type ;;
  Ok {| ni_type := type;
        ni_severity := severity;
        ni_description := description;
        ni_statute := statute;
        ni_isNew := true;
        ni_message :=
          "⚠️ NEW ISSUE TYPE: " ++ dquote ++ text ++ dquote ++
          " - First time detected in your analyses" |}.

(** [analyses[analyses.length - 1]] and [analyses.slice(0, -1)] of a
    non-empty array. *)
Definition lastOf (analyses : list JsVal) : JsVal := last analyses JUndefined.
Definition allButLast (analyses : list JsVal) : list JsVal := removelast analyses.

Definition identifyNovelIssues (analyses : list JsVal) : Res (list NovelIssue) :=
  match analyses with
  | [] => Ok []
  | _ :: _ =>
      let latestAnalysis := lastOf analyses in
      latestFindings <- findingsOf latestAnalysis ;;
      previousIssueTypes <- forEach addTypesOf (allButLast analyses) [] ;;
      latest <- asArray latestFindings ;;
      novelIssues <- filterM (isNovel previousIssueTypes) latest ;;
      mapM novelEntry novelIssues
  end.

(** ** calculateCompliance *)

(** A value of [issueTypeCounts]: a count or, under a name that a plain
    object inherits (see [inheritedNames]), a text: the text of the
    inherited function followed by one 1 for each occurrence counted. *)
Inductive IssueCount : Type :=
| CountNum (n : nat)
| CountText (ones : nat).

(** A value that is known, or that the engine chooses. *)
Inductive Chosen (A : Type) : Type :=
| Known (a : A)
| EngineChoice.

Arguments Known {A} a.
Arguments EngineChoice {A}.

Record ComplianceMetrics : Type := {
  cm_totalAnalyses : nat;
  cm_totalIssues : option nat;
  cm_averageIssuesPerDoc : JsNum;
  cm_complianceRate : JsNum;
  cm_criticalIssues : option nat;
  cm_highIssues : option nat;
  cm_mostCommonIssue : Chosen string;
  cm_mostCommonIssueCount : option (Chosen IssueCount)
}.

(** The object literal returned for an empty history: it has no
    [totalIssues], [criticalIssues], [highIssues] or
    [mostCommonIssueCount]. *)
Definition noAnalyses : ComplianceMetrics :=
  {| cm_totalAnalyses := 0;
     cm_totalIssues := None;
     cm_averageIssuesPerDoc := Fin 0;
     cm_complianceRate := Fin 100;
     cm_criticalIssues := None;
     cm_highIssues := None;
     cm_mostCommonIssue := Known "None";
     cm_mostCommonIssueCount := None |}.

(** [issueTypeCounts]: an object used as a map, its properties in the
    order of their creation. *)
Definition IssueTypeCounts : Type := list (string * IssueCount).

(** The names whose value a plain object inherits from
    [Object.prototype]: each is a function, which is truthy and turns
    [(issueTypeCounts[key] || 0) + 1] into a concatenation of texts. *)
Definition inheritedNames : list string :=
  ["constructor"; "hasOwnProperty"; "isPrototypeOf"; "propertyIsEnumerable";
   "toLocaleString"; "toString"; "valueOf"; "__defineGetter__";
   "__defineSetter__"; "__lookupGetter__"; "__lookupSetter__"].

Definition inherited (key : string) : bool :=
  existsb (String.eqb key) inheritedNames.

Definition bumpCount (c : IssueCount) : IssueCount :=
  match c with
  | CountNum n => CountNum (S n)
  | CountText ones => CountText (S ones)
  end.

(** [issueTypeCounts[key] = (issueTypeCounts[key] || 0) + 1].  Under
    [__proto__] the read yields [Object.prototype] and the write goes to
    the inherited setter, which ignores a text: nothing is stored. *)
Definition countType (key : string) (counts : IssueTypeCounts) : IssueTypeCounts :=
  if key =? "__proto__" then counts
  else
    match lookup key counts with
    | Some _ => update key bumpCount counts
    | None =>
        (counts ++ [(key, if inherited key then CountText 1 else CountNum 1)])%list
    end.

Record Tally : Type := {
  totalIssues : nat;
  criticalCount : nat;
  highCount : nat;
  issueTypeCounts : IssueTypeCounts
}.

(** The body of [findings.forEach(f => ...)]; [f.type] becomes a
    property key by its conversion to text. *)
Definition tallyFinding (t : Tally) (f : JsVal) : Res Tally :=
  severity <- get f "severity" ;;
  type <- get f "type" ;;
  key <- toString type ;;
  Ok {| totalIssues := totalIssues t;
        criticalCount :=
          if strictEq severity (JStr "CRITICAL") then S (criticalCount t)
          else criticalCount t;
        highCount :=
          if strictEq severity (JStr "HIGH") then S (highCount t)
          else highCount t;
        issueTypeCounts := countType key (issueTypeCounts t) |}.

(** The body of [analyses.forEach(analysis => ...)]. *)
Definition tallyAnalysis (t : Tally) (analysis : JsVal) : Res Tally :=
  findings <- extractFindings analysis ;;
  forEach tallyFinding findings
    {| totalIssues := (totalIssues t + List.length findings)%nat;
       criticalCount := criticalCount t;
       highCount := highCount t;
       issueTypeCounts := issueTypeCounts t |}.

(** The number of a key that is an array index: the text of an integer
    from 0 to 2^32 - 2, written without a sign or a leading zero. *)
Fixpoint digitsValue (s : string) (acc : Z) : option Z :=
  match s with
  | EmptyString => Some acc
  | String c rest =>
      let n := nat_of_ascii c in
      if (48 <=? n)%nat && (n <=? 57)%nat
      then digitsValue rest (acc * 10 + Z.of_nat (n - 48))%Z
      else None
  end.

Definition arrayIndex (key : string) : option Z :=
  match digitsValue key 0 with
  | Some v => if (decimal v =? key) && (v <? 4294967295)%Z then Some v else None
  | None => None
  end.

Definition indexed (kv : string * IssueCount) : list (Z * (string * IssueCount)) :=
  match arrayIndex (fst kv) with
  | Some i => [(i, kv)]
  | None => []
  end.

Definition named (kv : string * IssueCount) : bool :=
  match arrayIndex (fst kv) with
  | Some _ => false
  | None => true
  end.

(** [Object.entries(issueTypeCounts)]: the properties whose key is an
    array index come first, in ascending order of the index; the others
    follow in the order of their creation. *)
Definition objectEntries (counts : IssueTypeCounts) : list (string * IssueCount) :=
  (map snd (sort (fun a b => (fst a - fst b)%Z) (flat_map indexed counts)) ++
   filter named counts)%list.

(** [(a, b) => b[1] - a[1]]: a text is not the text of a number, so a
    difference with one is NaN, which a sort reads as 0. *)
Definition byIssueCount (a b : string * IssueCount) : Z :=
  match snd a, snd b with
  | CountNum x, CountNum y => (Z.of_nat y - Z.of_nat x)%Z
  | _, _ => 0%Z
  end.

(** [Object.entries(issueTypeCounts).sort(...)[0]] *)
Definition mostCommonEntry (counts : IssueTypeCounts)
  : Chosen (option (string * IssueCount)) :=
  match arrange byIssueCount (objectEntries counts) with
  | InOrder l => Known (hd_error l)
  | InSomeOrder _ => EngineChoice
  end.

(** [mostCommonIssue ? mostCommonIssue[0] : 'None'] and
    [mostCommonIssue ? mostCommonIssue[1] : 0] *)
Definition issueName (e : Chosen (option (string * IssueCount))) : Chosen string :=
  match e with
  | Known (Some (key, _)) => Known key
  | Known None => Known "None"
  | EngineChoice => EngineChoice
  end.

Definition issueCount (e : Chosen (option (string * IssueCount)))
  : Chosen IssueCount :=
  match e with
  | Known (Some (_, count)) => Known count
  | Known None => Known (CountNum 0)
  | EngineChoice => EngineChoice
  end.

(** [Math.max(0, 100 - (avgIssues * 5))] for the text [avgIssues], which
    the multiplication reads back as a number. *)
Definition complianceScore (avgIssues : NumText) : JsNum :=
  max (Fin 0) (sub (Fin 100) (mul (toNumber avgIssues) (Fin 5))).

Definition calculateCompliance (analyses : list JsVal) : Res ComplianceMetrics :=
  match analyses with
  | [] => Ok noAnalyses
  | _ :: _ =>
      t <- forEach tallyAnalysis analyses
             {| totalIssues := 0; criticalCount := 0; highCount := 0;
                issueTypeCounts := [] |} ;;
      let mostCommonIssue := mostCommonEntry (issueTypeCounts t) in
      let avgIssues :=
        toFixed1 (div (ofNat (totalIssues t)) (ofNat (List.length analyses))) in
      Ok {| cm_totalAnalyses := List.length analyses;
            cm_totalIssues := Some (totalIssues t);
            cm_averageIssuesPerDoc := toNumber avgIssues;
            cm_complianceRate := toNumber (toFixed1 (complianceScore avgIssues));
            cm_criticalIssues := Some (criticalCount t);
            cm_highIssues := Some (highCount t);
            cm_mostCommonIssue := issueName mostCommonIssue;
            cm_mostCommonIssueCount := Some (issueCount mostCommonIssue) |}
  end.

(** ** learnFromOutcome, getSuccessRates, prioritizeDefects, reset *)

Record OutcomeEntry : Type := {
  oe_date : JsVal;
  oe_outcome : JsVal;
  oe_courtResponse : JsVal;
  oe_effectiveArguments : JsVal
}.

Record DefectSuccessStats : Type := {
  st_type : JsVal;
  st_totalRaised : nat;
  st_successful : nat;
  st_unsuccessful : nat;
  st_outcomes : list OutcomeEntry
}.

(** [this.successRates]: a [Map], its entries in insertion order, its
    keys compared by SameValueZero. *)
Definition SuccessRates : Type := list (JsVal * DefectSuccessStats).

(** The state of a detector that the outcome operations use.
    ([this.patterns] belongs to [learn]; it is kept apart, as [Patterns].) *)
Record Detector : Type := { successRates : SuccessRates }.

Definition reset (_ : Detector) : Detector := {| successRates := [] |}.

Fixpoint mapGet (k : JsVal) (m : SuccessRates) : option DefectSuccessStats :=
  match m with
  | [] => None
  | (k', v) :: rest => if strictEq k' k then Some v else mapGet k rest
  end.

(** In-place change of the stats object stored under [k]. *)
Fixpoint mapUpdate (k : JsVal) (f : DefectSuccessStats -> DefectSuccessStats)
    (m : SuccessRates) : SuccessRates :=
  match m with
  | [] => []
  | (k', v) :: rest =>
      if strictEq k' k then (k', f v) :: rest else (k', v) :: mapUpdate k f rest
  end.

Definition isSuccessful (outcome : JsVal) : bool :=
  strictEq outcome (JStr "evidence excluded") ||
  strictEq outcome (JStr "application successful") ||
  strictEq outcome (JStr "case dismissed").

(** What the body of [defectsRaised.forEach] does to the stats object it
    got from the map. *)
Definition recordOutcome (entry : OutcomeEntry) (stats : DefectSuccessStats)
  : DefectSuccessStats :=
  {| st_type := st_type stats;
     st_totalRaised := S (st_totalRaised stats);
     st_successful :=
       if isSuccessful (oe_outcome entry) then S (st_successful stats)
       else st_successful stats;
     st_unsuccessful :=
       if isSuccessful (oe_outcome entry) then st_unsuccessful stats
       else S (st_unsuccessful stats);
     st_outcomes := (st_outcomes stats ++ [entry])%list |}.

Definition freshStats (defectType : JsVal) : DefectSuccessStats :=
  {| st_type := defectType; st_totalRaised := 0; st_successful := 0;
     st_unsuccessful := 0; st_outcomes := [] |}.

(** The body of [outcome.defectsRaised.forEach(defectType => ...)]: the
    stats object is the one already stored under the key or, failing
    that, the fresh one the body has just stored. *)
Definition raiseDefect (entry : OutcomeEntry) (m : SuccessRates)
    (defectType : JsVal) : SuccessRates :=
  match mapGet defectType m with
  | Some _ => mapUpdate defectType (recordOutcome entry) m
  | None => (m ++ [(defectType, recordOutcome entry (freshStats defectType))])%list
  end.

(** [learnFromOutcome(analysisId, outcome)]; [analysisId] is not used. *)
Definition learnFromOutcome (d : Detector) (analysisId outcome : JsVal)
  : Res Detector :=
  defectsRaised <- get outcome "defectsRaised" ;;
  match defectsRaised with
  | JArr items =>
      o <- get outcome "outcome" ;;
      date <- get outcome "date" ;;
      courtResponse <- get outcome "courtResponse" ;;
      effectiveArguments <- get outcome "effectiveArguments" ;;
      let entry := {| oe_date := date; oe_outcome := o;
                      oe_courtResponse := courtResponse;
                      oe_effectiveArguments := effectiveArguments |} in
      Ok {| successRates := fold_left (raiseDefect entry) items (successRates d) |}
  | _ => Ok d
  end.

(** The value of [successRate] in an entry of [getSuccessRates]: the text
    that [toFixed(1)] wrote, or the number 0. *)
Inductive Rate : Type :=
| RateText (t : NumText)
| RateZero.

Definition rateNumber (r : Rate) : JsNum :=
  match r with
  | RateText t => toNumber t
  | RateZero => Fin 0
  end.

Definition rateString (r : Rate) : string :=
  match r with
  | RateText t => render t
  | RateZero => "0"
  end.

Record SuccessRateEntry : Type := {
  sr_stats : DefectSuccessStats;
  sr_successRate : Rate
}.

(** [((successful / totalRaised) * 100).toFixed(1)] *)
Definition percentage (successful totalRaised : nat) : NumText :=
  toFixed1 (mul (div (ofNat successful) (ofNat totalRaised)) (Fin 100)).

(** The sign a sort takes from a comparator's number; NaN counts as 0. *)
Definition sign (a : JsNum) : Z :=
  match a with
  | NaN => 0
  | Inf neg => if neg then (-1) else 1
  | Fin x => match Qcompare x 0 with Lt => (-1) | Eq => 0 | Gt => 1 end
  end%Z.

(** [(a, b) => b.successRate - a.successRate] *)
Definition byRateDesc (a b : SuccessRateEntry) : Z :=
  sign (sub (rateNumber (sr_successRate b)) (rateNumber (sr_successRate a))).

Definition getSuccessRates (d : Detector) : list SuccessRateEntry :=
  sort byRateDesc
    (map (fun stats =>
            {| sr_stats := stats;
               sr_successRate :=
                 if (0 <? st_totalRaised stats)%nat
                 then RateText (percentage (st_successful stats) (st_totalRaised stats))
                 else RateZero |})
         (map snd (successRates d))).

(** An entry of [prioritizeDefects]: the properties spread from the
    defect, and those written after them. *)
Record Prioritized : Type := {
  pr_defect : JsVal;
  pr_hasHistoricalData : bool;
  pr_successRate : option NumText;
  pr_timesRaised : option nat;
  pr_recommendation : string
}.

(** The number read from a property of a stored stats object.  Such an
    object has the properties type, totalRaised, successful, unsuccessful
    and outcomes, as [learnFromOutcome] creates it; reading any other
    name yields [undefined], whose number is NaN. *)
Definition statsNumber (stats : DefectSuccessStats) (name : string) : JsNum :=
  if name =? "totalRaised" then ofNat (st_totalRaised stats)
  else if name =? "successful" then ofNat (st_successful stats)
  else if name =? "unsuccessful" then ofNat (st_unsuccessful stats)
  else NaN.

Definition strongAdvice : string :=
  "✅ High success rate in court - strong defect to raise".
Definition weakAdvice : string :=
  "⚠️ Lower success rate - ensure strong evidence before raising".
Definition noDataAdvice : string :=
  "ℹ️ No historical outcome data for this defect type".

(** The callback of [currentDefects.map(defect => ...)]. *)
Definition prioritize (d : Detector) (defect : JsVal) : Res Prioritized :=
  type <- get defect "type" ;;
  match mapGet type (successRates d) with
  | Some successInfo =>
      if (3 <=? st_totalRaised successInfo)%nat then
        Ok {| pr_defect := defect;
              pr_hasHistoricalData := true;
              pr_successRate :=
                Some (percentage (st_successful successInfo)
                        (st_totalRaised successInfo));
              pr_timesRaised := Some (st_totalRaised successInfo);
              pr_recommendation :=
                if gtb (statsNumber successInfo "successRate") (Fin 60)
                then strongAdvice else weakAdvice |}
      else
        Ok {| pr_defect := defect; pr_hasHistoricalData := false;
              pr_successRate := None; pr_timesRaised := None;
              pr_recommendation := noDataAdvice |}
  | None =>
      Ok {| pr_defect := defect; pr_hasHistoricalData := false;
            pr_successRate := None; pr_timesRaised := None;
            pr_recommendation := noDataAdvice |}
  end.

(** The comparator of [prioritizeDefects]: the difference of the parsed
    rates when both entries have historical data, 0 otherwise. *)
Definition byHistoricalRate (a b : Prioritized) : Z :=
  match pr_hasHistoricalData a && pr_hasHistoricalData b,
        pr_successRate a, pr_successRate b with
  | true, Some ra, Some rb => sign (sub (toNumber rb) (toNumber ra))
  | _, _, _ => 0%Z
  end.

(** [prioritizeDefects(currentDefects)].  The comparator calls an entry
    without data equal to everything, so it is consistent only when all
    entries have data, or when those that have data have equal rates;
    otherwise the order of the result is the engine's choice. *)
Definition prioritizeDefects (d : Detector) (currentDefects : list JsVal)
  : Res (Arranged Prioritized) :=
  entries <- mapM (prioritize d) currentDefects ;;
  Ok (arrange byHistoricalRate entries).

(** ** analyzePatterns *)

Record Insights : Type := {
  ins_recurring : list DefectCount;
  ins_trends : TrendResult;
  ins_recommendations : list Recommendation;
  ins_novelIssues : list NovelIssue;
  ins_complianceMetrics : ComplianceMetrics
}.

(** The five operations run one after the other, each on the whole
    history; the first one that throws ends the call. *)
Definition analyzePatterns (allAnalyses : list JsVal) : Res Insights :=
  recurring <- findRecurringDefects allAnalyses ;;
  trends <- analyzeTrends allAnalyses ;;
  recommendations <- generateRecommendations allAnalyses ;;
  novelIssues <- identifyNovelIssues allAnalyses ;;
  complianceMetrics <- calculateCompliance allAnalyses ;;
  Ok {| ins_recurring := recurring;
        ins_trends := trends;
        ins_recommendations := recommendations;
        ins_novelIssues := novelIssues;
        ins_complianceMetrics := complianceMetrics |}.

(** ** The document-level detection: detectPatterns and its parts

    These operations take the findings of one document.  They call an
    array method on [findings] first thing, so a value that is not an
    array makes them throw. *)

(** [this.threshold]: the constructor sets it to 3 and nothing writes it
    afterwards. *)
Definition threshold : nat := 3.

Definition assessSignificance (frequency : nat) : string :=
  if (10 <=? frequency)%nat then "CRITICAL"
  else if (7 <=? frequency)%nat then "HIGH"
  else if (5 <=? frequency)%nat then "MEDIUM"
  else "LOW".

(** A detected pattern.  Only a recurring issue has [examples]. *)
Record Pattern : Type := {
  pt_type : string;
  pt_category : JsVal;
  pt_frequency : nat;
  pt_description : string;
  pt_significance : string;
  pt_examples : option (list JsVal)
}.

(** [f => f.type && f.type.toLowerCase().includes('temporal')], as
    [filter] reads its value: a falsy type ends the test, a string is
    searched, and any other value has no [toLowerCase] to call. *)
Definition isTemporal (f : JsVal) : Res bool :=
  type <- get f "type" ;;
  if truthy type then
    match type with
    | JStr s => Ok (includes "temporal" (toLowerCase s))
    | _ => Throw TypeError
    end
  else Ok false.

Definition temporalPattern (frequency : nat) : Pattern :=
  {| pt_type := "Temporal Pattern";
     pt_category := JStr "High Temporal Reference Density";
     pt_frequency := frequency;
     pt_description :=
       "Document contains many temporal references - timeline analysis recommended";
     pt_significance := "MEDIUM";
     pt_examples := None |}.

Definition detectTemporalPatterns (findings : JsVal) : Res (list Pattern) :=
  items <- asArray findings ;;
  temporalFindings <- filterM isTemporal items ;;
  Ok (if (5 <? List.length temporalFindings)%nat
      then [temporalPattern (List.length temporalFindings)]
      else []).

(** Upper-casing.  ASCII letters are mapped; so is the dotless i (the
    bytes C4 B1 of its UTF-8 form), the one letter outside ASCII that
    [String.prototype.toUpperCase] maps onto a letter of a severity name.
    The other non-ASCII letters are left as they are: their upper-case
    forms lie outside ASCII or hold an F or an S, so a text with one of
    them never becomes CRITICAL, HIGH, MEDIUM or LOW. *)
Definition upper_ascii (c : ascii) : ascii :=
  let n := nat_of_ascii c in
  if (97 <=? n)%nat && (n <=? 122)%nat then ascii_of_nat (n - 32) else c.

Fixpoint toUpperCase (s : string) : string :=
  match s with
  | EmptyString => EmptyString
  | String c rest =>
      match rest with
      | String c2 rest2 =>
          if (nat_of_ascii c =? 196)%nat && (nat_of_ascii c2 =? 177)%nat
          then String "I"%char (toUpperCase rest2)
          else String (upper_ascii c) (toUpperCase rest)
      | EmptyString => String (upper_ascii c) EmptyString
      end
  end.

(** [severityCounts]: an object with exactly these four own properties. *)
Record SeverityCounts : Type := {
  sc_CRITICAL : nat;
  sc_HIGH : nat;
  sc_MEDIUM : nat;
  sc_LOW : nat
}.

(** [finding.severity ? finding.severity.toUpperCase() : 'LOW'] *)
Definition severityName (finding : JsVal) : Res string :=
  severity <- get finding "severity" ;;
  if truthy severity then
    match severity with
    | JStr s => Ok (toUpperCase s)
    | _ => Throw TypeError
    end
  else Ok "LOW".

(** The body of [findings.forEach(finding => ...)]: a name that is not an
    own property of [severityCounts] changes nothing. *)
Definition countSeverity (c : SeverityCounts) (finding : JsVal)
  : Res SeverityCounts :=
  severity <- severityName finding ;;
  Ok (if severity =? "CRITICAL" then
        {| sc_CRITICAL := S (sc_CRITICAL c); sc_HIGH := sc_HIGH c;
           sc_MEDIUM := sc_MEDIUM c; sc_LOW := sc_LOW c |}
      else if severity =? "HIGH" then
        {| sc_CRITICAL := sc_CRITICAL c; sc_HIGH := S (sc_HIGH c);
           sc_MEDIUM := sc_MEDIUM c; sc_LOW := sc_LOW c |}
      else if severity =? "MEDIUM" then
        {| sc_CRITICAL := sc_CRITICAL c; sc_HIGH := sc_HIGH c;
           sc_MEDIUM := S (sc_MEDIUM c); sc_LOW := sc_LOW c |}
      else if severity =? "LOW" then
        {| sc_CRITICAL := sc_CRITICAL c; sc_HIGH := sc_HIGH c;
           sc_MEDIUM := sc_MEDIUM c; sc_LOW := S (sc_LOW c) |}
      else c).

Definition severityPattern (frequency : nat) : Pattern :=
  {| pt_type := "Severity Pattern";
     pt_category := JStr "Multiple Critical Issues";
     pt_frequency := frequency;
     pt_description :=
       "Document has " ++ decimal (Z.of_nat frequency) ++
       " CRITICAL issues - urgent review required";
     pt_significance := "CRITICAL";
     pt_examples := None |}.

Definition detectSeverityPatterns (findings : JsVal) : Res (list Pattern) :=
  items <- asArray findings ;;
  severityCounts <- forEach countSeverity items
                      {| sc_CRITICAL := 0; sc_HIGH := 0;
                         sc_MEDIUM := 0; sc_LOW := 0 |} ;;
  Ok (if (3 <? sc_CRITICAL severityCounts)%nat
      then [severityPattern (sc_CRITICAL severityCounts)]
      else []).

(** [findingsByType]: a [Map] from a type to the array of its findings,
    its entries in insertion order, its keys compared by SameValueZero. *)
Definition FindingsByType : Type := list (JsVal * list JsVal).

(** [if (!m.has(type)) m.set(type, []); m.get(type).push(finding)]: the
    array pushed to is the one stored under the key or, failing that, the
    one just stored. *)
Fixpoint addToGroup (type finding : JsVal) (m : FindingsByType)
  : FindingsByType :=
  match m with
  | [] => [(type, [finding])]
  | (k, g) :: rest =>
      if strictEq k type then (k, (g ++ [finding])%list) :: rest
      else (k, g) :: addToGroup type finding rest
  end.

(** The body of the first [findings.forEach]. *)
Definition groupFinding (findingsByType : FindingsByType) (finding : JsVal)
  : Res FindingsByType :=
  t <- get finding "type" ;;
  Ok (addToGroup (or_else t (JStr "Unknown")) finding findingsByType).

Definition recurringIssue (type : JsVal) (groupFindings : list JsVal)
  : Res Pattern :=
  text <- toString type ;;
  Ok {| pt_type := "Recurring Issue";
        pt_category := type;
        pt_frequency := List.length groupFindings;
        pt_description :=
          dquote ++ text ++ dquote ++ " appears " ++
          decimal (Z.of_nat (List.length groupFindings)) ++ " times in document";
        pt_significance := assessSignificance (List.length groupFindings);
        pt_examples := Some (firstn 3 groupFindings) |}.

(** The body of [findingsByType.forEach((groupFindings, type) => ...)]. *)
Definition reportGroup (detectedPatterns : list Pattern)
    (entry : JsVal * list JsVal) : Res (list Pattern) :=
  if (threshold <=? List.length (snd entry))%nat then
    p <- recurringIssue (fst entry) (snd entry) ;;
    Ok (detectedPatterns ++ [p])%list
  else Ok detectedPatterns.

Definition detectPatterns (findings : JsVal) : Res (list Pattern) :=
  items <- asArray findings ;;
  findingsByType <- forEach groupFinding items [] ;;
  detectedPatterns <- forEach reportGroup findingsByType [] ;;
  temporal <- detectTemporalPatterns findings ;;
  severity <- detectSeverityPatterns findings ;;
  Ok (detectedPatterns ++ temporal ++ severity)%list.

(** ** learn, getLearnedPatterns *)

(** A stored pattern: the properties spread from the detected pattern,
    and those written after them. *)
Record LearnedPattern : Type := {
  lp_pattern : Pattern;
  lp_count : nat;
  lp_totalFrequency : nat;
  lp_firstSeen : string
}.

(** [this.patterns]: a [Map] with text keys, its entries in insertion
    order.  The constructor and [reset] leave it empty. *)
Definition Patterns : Type := list (string * LearnedPattern).

(** The body of [patterns.forEach(pattern => ...)]; [now] is what
    [new Date().toISOString()] yields when a pattern is first stored. *)
Definition storePattern (now : string) (patterns : Patterns) (pattern : Pattern)
  : Res Patterns :=
  category <- toString (pt_category pattern) ;;
  let key := pt_type pattern ++ ":" ++ category in
  match lookup key patterns with
  | Some _ =>
      Ok (update key
            (fun existing =>
               {| lp_pattern := lp_pattern existing;
                  lp_count := S (lp_count existing);
                  lp_totalFrequency :=
                    (lp_totalFrequency existing + pt_frequency pattern)%nat;
                  lp_firstSeen := lp_firstSeen existing |})
            patterns)
  | None =>
      Ok (patterns ++
          [(key, {| lp_pattern := pattern;
                    lp_count := 1;
                    lp_totalFrequency := pt_frequency pattern;
                    lp_firstSeen := now |})])%list
  end.

(** [learn(analysisResults)], as a change of [this.patterns].  The clock
    is read once for each pattern stored for the first time: [clock i] is
    the reading taken while the pattern at index [i] is handled. *)
Definition learn (clock : nat -> string) (patterns : Patterns)
    (analysisResults : JsVal) : Res Patterns :=
  findings <- get analysisResults "findings" ;;
  if truthy findings then
    detected <- detectPatterns findings ;;
    forEach (fun ps ip => storePattern (clock (fst ip)) ps (snd ip))
      (combine (seq 0 (List.length detected)) detected) patterns
  else Ok patterns.

(** [(a, b) => b.count - a.count] *)
Definition byLearnedCount (a b : LearnedPattern) : Z :=
  (Z.of_nat (lp_count b) - Z.of_nat (lp_count a))%Z.

Definition getLearnedPatterns (patterns : Patterns) : list LearnedPattern :=
  sort byLearnedCount (map snd patterns).

(** ** The defects offered for outcome recording
       ([IntelligenceManager.extractDefects]) *)

Record Defect : Type := {
  df_type : JsVal;
  df_severity : JsVal;
  df_description : JsVal;
  df_statute : JsVal
}.

(** The object literal pushed for a finding. *)
Definition defectOf (finding : JsVal) : Res Defect :=
  type <- get finding "type" ;;
  severity <- get finding "severity" ;;
  description <- get finding "description" ;;
  statute <- get finding "statute" ;;
  Ok {| df_type := type;
        df_severity := or_else severity (JStr "LOW");
        df_description := description;
        df_statute := or_else statute (JStr "Unknown") |}.

(** The body of [preset.findings.forEach(finding => ...)]. *)
Definition pushDefect (defects : list Defect) (finding : JsVal)
  : Res (list Defect) :=
  d <- defectOf finding ;;
  Ok (defects ++ [d])%list.

(** The body of [presetAnalysis.forEach(preset => ...)]. *)
Definition pushPreset (defects : list Defect) (preset : JsVal)
  : Res (list Defect) :=
  findings <- get preset "findings" ;;
  if truthy findings then
    items <- asArray findings ;;
    forEach pushDefect items defects
  else Ok defects.

(** The body of [analysisResults.findings.forEach(finding => ...)]:
    [defects.find(d => d.type === finding.type)] yields an object, which
    is truthy, or [undefined]. *)
Definition pushUnlessKnown (defects : list Defect) (finding : JsVal)
  : Res (list Defect) :=
  type <- get finding "type" ;;
  if existsb (fun d => strictEq (df_type d) type) defects
  then Ok defects
  else pushDefect defects finding.

Definition extractDefects (analysisResults : JsVal) : Res (list Defect) :=
  phases <- get analysisResults "phases" ;;
  presetAnalysis <- get_opt phases "presetAnalysis" ;;
  nested <- (if truthy presetAnalysis then
               presets <- asArray presetAnalysis ;;
               forEach pushPreset presets []
             else Ok []) ;;
  findings <- get analysisResults "findings" ;;
  if truthy findings then
    items <- asArray findings ;;
    forEach pushUnlessKnown items nested
  else Ok nested.

(** ** The record stored for an outcome ([AnalysisDatabase.saveOutcome])

    The object literal that [saveOutcome] hands to the store; [now1] and
    [now2] are the two readings of the clock. *)
Definition outcomeRecord (now1 now2 : string) (analysisId outcome : JsVal)
  : Res JsVal :=
  o <- get outcome "outcome" ;;
  defectsRaised <- get outcome "defectsRaised" ;;
  courtResponse <- get outcome "courtResponse" ;;
  effectiveArguments <- get outcome "effectiveArguments" ;;
  date <- get outcome "date" ;;
  Ok (JObj [("analysisId", analysisId);
            ("outcome", o);
            ("defectsRaised", or_else defectsRaised (JArr []));
            ("courtResponse", or_else courtResponse (JStr ""));
            ("effectiveArguments", or_else effectiveArguments (JArr []));
            ("date", or_else date (JStr now1));
            ("timestamp", JStr now2)]).

(* ================================================================== *)
(** * Vocabulary of the properties, and sample data *)
(* ================================================================== *)

Definition mkDefect (type severity statute description : string) : JsVal :=
  JObj [("type", JStr type); ("severity", JStr severity);
        ("description", JStr description); ("statute", JStr statute)].

(** A defect without a statute. *)
Definition mkBareDefect (type severity : string) : JsVal :=
  JObj [("type", JStr type); ("severity", JStr severity)].

(** A record with its findings directly on [findings]. *)
Definition mkAnalysis (id : Z) (timestamp : string) (findings : list JsVal) : JsVal :=
  JObj [("id", JNum id); ("timestamp", JStr timestamp); ("findings", JArr findings)].

(** A record with its findings under [phases.presetAnalysis[*].findings]. *)
Definition mkPhased (id : Z) (timestamp : string) (presets : list (list JsVal)) : JsVal :=
  JObj [("id", JNum id); ("timestamp", JStr timestamp);
        ("phases",
         JObj [("presetAnalysis",
                JArr (map (fun fs => JObj [("findings", JArr fs)]) presets))])].

Definition mkOutcome (outcome : string) (defectsRaised : list string) : JsVal :=
  JObj [("outcome", JStr outcome);
        ("defectsRaised", JArr (map JStr defectsRaised));
        ("courtResponse", JStr "");
        ("effectiveArguments", JArr []);
        ("date", JStr "2024-05-01T00:00:00.000Z")].

(** The total reading of a property, for a value that is neither
    [undefined] nor [null]. *)
Definition prop (v : JsVal) (name : string) : JsVal :=
  match v with
  | JObj props =>
      match own name props with
      | Some x => x
      | None => JUndefined
      end
  | _ => JUndefined
  end.

(** The findings nested under the presets of a record, preset after
    preset, as the spec describes the second group of a merge. *)
Definition nestedFindings (analysis : JsVal) : Res (list JsVal) :=
  phases <- get analysis "phases" ;;
  presets <- get_opt phases "presetAnalysis" ;;
  items <- asArray presets ;;
  flatMap presetFindings items.

Definition bothShapes : JsVal :=
  JObj [("id", JNum 1); ("timestamp", JStr "2024-01-01T00:00:00.000Z");
        ("findings", JArr [mkBareDefect "Missing caution" "HIGH"]);
        ("phases",
         JObj [("presetAnalysis",
                JArr [JObj [("findings",
                             JArr [mkBareDefect "Late disclosure" "LOW"])]])])].

(** The start of a replay: a detector whose maps were just cleared. *)
Definition cleared : Detector := {| successRates := [] |}.

(** Replaying a ledger, as [updateSuccessRates] does:
    [for (const outcome of outcomes)
       await patternDetector.learnFromOutcome(outcome.analysisId, outcome)]. *)
Definition replayOutcomes (d : Detector) (outcomes : list JsVal) : Res Detector :=
  forEach (fun d outcome =>
             analysisId <- get outcome "analysisId" ;;
             learnFromOutcome d analysisId outcome)
          outcomes d.

(** The states a detector goes through: cleared by [reset], then changed
    by calls of [learnFromOutcome] that return. *)
Inductive Reachable : Detector -> Prop :=
| reach_reset (d : Detector) : Reachable (reset d)
| reach_learn (d d' : Detector) (analysisId outcome : JsVal) :
    Reachable d ->
    learnFromOutcome d analysisId outcome = Ok d' ->
    Reachable d'.

Definition consistent (s : DefectSuccessStats) : Prop :=
  (st_successful s + st_unsuccessful s = st_totalRaised s)%nat /\
  List.length (st_outcomes s) = st_totalRaised s /\
  (1 <= st_totalRaised s)%nat.

Definition twoOutcomesLearned : Detector :=
  {| successRates :=
       fold_left
         (raiseDefect {| oe_date := JStr "2024-05-01T00:00:00.000Z";
                         oe_outcome := JStr "case proceeded";
                         oe_courtResponse := JStr "";
                         oe_effectiveArguments := JArr [] |})
         [JStr "X"]
         (fold_left
            (raiseDefect {| oe_date := JStr "2024-05-01T00:00:00.000Z";
                            oe_outcome := JStr "evidence excluded";
                            oe_courtResponse := JStr "";
                            oe_effectiveArguments := JArr [] |})
            [JStr "X"; JStr "Y"] []) |}.

(** The audit entry that [learnFromOutcome] stores for an outcome. *)
Definition entryOf (outcome : JsVal) : OutcomeEntry :=
  {| oe_date := prop outcome "date";
     oe_outcome := prop outcome "outcome";
     oe_courtResponse := prop outcome "courtResponse";
     oe_effectiveArguments := prop outcome "effectiveArguments" |}.

Definition raises (defectType : string) (outcome : JsVal) : Prop :=
  get outcome "defectsRaised" = Ok (JArr [JStr defectType]).

Definition hasOutcome (name : string) (outcome : JsVal) : bool :=
  strictEq (prop outcome "outcome") (JStr name).

(** The stats of the one type raised, after a replay that started with
    the stats [s]. *)
Definition tallied (s : DefectSuccessStats) (outcomes : list JsVal)
  : DefectSuccessStats :=
  fold_left (fun s o => recordOutcome (entryOf o) s) outcomes s.

Definition eightOutcomes : list JsVal :=
  [mkOutcome "evidence excluded" ["X"]; mkOutcome "evidence excluded" ["X"];
   mkOutcome "evidence excluded" ["X"]; mkOutcome "case proceeded" ["X"];
   mkOutcome "evidence excluded" ["X"]; mkOutcome "evidence excluded" ["X"];
   mkOutcome "evidence excluded" ["X"]; mkOutcome "evidence excluded" ["X"]].

(** The defect types of a record, one per defect occurrence. *)
Definition typesOf (analysis : JsVal) : Res (list JsVal) :=
  findings <- extractFindings analysis ;;
  mapM (fun f => get f "type") findings.

(** The defect occurrences of the latest record whose type is not among
    the types [earlier]. *)
Definition novelOccurrences (earlier : list JsVal) (latest : list JsVal)
  : list JsVal :=
  filter (fun f => negb (existsb (strictEq (prop f "type")) earlier)) latest.

(** An entry reports an occurrence. *)
Definition reports (f : JsVal) (e : NovelIssue) : Prop :=
  ni_type e = prop f "type" /\
  ni_severity e = prop f "severity" /\
  ni_description e = prop f "description" /\
  ni_statute e = prop f "statute" /\
  ni_isNew e = true.

Definition novelHistory : list JsVal :=
  [mkAnalysis 1 "2024-01-01T00:00:00.000Z" [mkBareDefect "A" "LOW"];
   mkPhased 2 "2024-01-02T00:00:00.000Z" [[mkBareDefect "B" "HIGH"]]].

Definition novelLatest : JsVal :=
  mkPhased 3 "2024-01-03T00:00:00.000Z"
    [[mkBareDefect "C" "HIGH"; mkBareDefect "A" "LOW"]; [mkBareDefect "C" "HIGH"]].

(** The grouping keys of a record, one per defect occurrence, and those
    of a history. *)
Definition keysOf (analysis : JsVal) : Res (list string) :=
  findings <- extractFindings analysis ;;
  mapM defectKey findings.

Definition historyKeys (analyses : list JsVal) : Res (list string) :=
  kss <- mapM keysOf analyses ;;
  Ok (List.concat kss).

(** The key under which a group was created. *)
Definition keyOfGroup (g : DefectCount) : Res string :=
  groupKey (dc_type g) (dc_statute g).

Definition countOf (k : string) (dc : DefectCounts) : nat :=
  match lookup k dc with
  | Some g => dc_count g
  | None => 0
  end.

(** What [countDefect] does to the group stored under the key. *)
Definition bump (timestamp description id : JsVal) (d : DefectCount) : DefectCount :=
  {| dc_type := dc_type d; dc_statute := dc_statute d;
     dc_severity := dc_severity d;
     dc_count := S (dc_count d);
     dc_firstSeen := dc_firstSeen d;
     dc_lastSeen := timestamp;
     dc_descriptions := (dc_descriptions d ++ [description])%list;
     dc_analysisIds := (dc_analysisIds d ++ [id])%list |}.

Definition created (analysis defect : JsVal) : DefectCount :=
  {| dc_type := prop defect "type"; dc_statute := prop defect "statute";
     dc_severity := prop defect "severity"; dc_count := 0;
     dc_firstSeen := prop analysis "timestamp";
     dc_lastSeen := prop analysis "timestamp";
     dc_descriptions := []; dc_analysisIds := [] |}.

(** The groups are stored under their own keys, once each. *)
Definition keyed (dc : DefectCounts) : Prop :=
  NoDup (map fst dc) /\
  Forall (fun kg => keyOfGroup (snd kg) = Ok (fst kg)) dc.

(** All defect occurrences of a history, record after record. *)
Definition occurrences (analyses : list JsVal) : Res (list JsVal) :=
  fss <- mapM extractFindings analyses ;;
  Ok (List.concat fss).

(** The (type, statute-or-"unknown") pair of an occurrence or of a
    group is the pair of texts [(t, s)]. *)
Definition hasPair (t s : string) (type statute : JsVal) : bool :=
  strictEq type (JStr t) && strictEq (or_else statute (JStr "unknown")) (JStr s).

Definition occursAs (t s : string) (f : JsVal) : bool :=
  hasPair t s (prop f "type") (prop f "statute").

Definition groupOf (t s : string) (g : DefectCount) : bool :=
  hasPair t s (dc_type g) (dc_statute g).

Definition collidingHistory : list JsVal :=
  [mkAnalysis 1 "2024-01-01T00:00:00.000Z"
     [mkBareDefect "Missing signature|witness" "HIGH"];
   mkAnalysis 2 "2024-01-02T00:00:00.000Z"
     [mkBareDefect "Missing signature|witness" "HIGH"];
   mkAnalysis 3 "2024-01-03T00:00:00.000Z"
     [mkDefect "Missing signature" "HIGH" "witness|unknown" ""]].

Definition thresholdHistory : list JsVal :=
  [mkAnalysis 1 "2024-01-01T00:00:00.000Z"
     [mkDefect "A" "HIGH" "s.1" "first"; mkBareDefect "B" "LOW"];
   mkPhased 2 "2024-01-02T00:00:00.000Z"
     [[mkDefect "A" "HIGH" "s.1" "second"]; [mkBareDefect "B" "LOW"]];
   mkAnalysis 3 "2024-01-03T00:00:00.000Z"
     [mkDefect "A" "HIGH" "s.1" "third"]].

(** Whether a text holds the separator of the grouping key. *)
Fixpoint hasBar (s : string) : bool :=
  match s with
  | EmptyString => false
  | String c rest => (c =? "|")%char || hasBar rest
  end.

(** A defect whose type is a text without the separator and whose
    statute is a text or absent. *)
Definition plainFields (type statute : JsVal) : Prop :=
  exists t s,
    type = JStr t /\ hasBar t = false /\
    or_else statute (JStr "unknown") = JStr s.

Definition plainDefect (f : JsVal) : Prop :=
  nullish f = false /\ plainFields (prop f "type") (prop f "statute").

Definition thresholdOccurrences : list JsVal :=
  [mkDefect "A" "HIGH" "s.1" "first"; mkBareDefect "B" "LOW";
   mkDefect "A" "HIGH" "s.1" "second"; mkBareDefect "B" "LOW";
   mkDefect "A" "HIGH" "s.1" "third"].

(** A value whose conversion to text cannot throw. *)
Definition primitive (v : JsVal) : bool :=
  match v with
  | JArr _ | JObj _ => false
  | _ => true
  end.

(** A defect type: a text, or absent (any falsy value). *)
Definition textOrAbsent (v : JsVal) : bool :=
  match v with
  | JStr _ => true
  | _ => negb (truthy v)
  end.

Definition shapedDefect (f : JsVal) : Prop :=
  nullish f = false /\
  textOrAbsent (prop f "type") = true /\
  primitive (prop f "statute") = true.

(** A [findings] field: absent (any falsy value) or an array of defects. *)
Definition shapedFindings (v : JsVal) : Prop :=
  match v with
  | JArr fs => Forall shapedDefect fs
  | _ => truthy v = false
  end.

Definition shapedPreset (p : JsVal) : Prop :=
  nullish p = false /\ shapedFindings (prop p "findings").

(** [analysis.phases?.presetAnalysis] *)
Definition presetsOf (analysis : JsVal) : JsVal :=
  if nullish (prop analysis "phases") then JUndefined
  else prop (prop analysis "phases") "presetAnalysis".

(** The preset grouping: absent ([undefined] or [null]) or an array of
    presets. *)
Definition shapedPresets (v : JsVal) : Prop :=
  match v with
  | JArr ps => Forall shapedPreset ps
  | _ => nullish v = true
  end.

(** A record: not [undefined] or [null]; its [findings] absent or an
    array; and, when they are absent, its preset grouping absent or an
    array. *)
Definition shapedRecord (analysis : JsVal) : Prop :=
  nullish analysis = false /\
  shapedFindings (prop analysis "findings") /\
  (truthy (prop analysis "findings") = false -> shapedPresets (presetsOf analysis)).

(** A record with neither findings nor a preset grouping. *)
Definition withoutFindings (analysis : JsVal) : Prop :=
  nullish analysis = false /\
  truthy (prop analysis "findings") = false /\
  nullish (presetsOf analysis) = true.

Definition goodGroup (g : DefectCount) : Prop :=
  textOrAbsent (dc_type g) = true /\ primitive (dc_statute g) = true.

Definition objectForFindings : JsVal :=
  JObj [("id", JNum 1); ("timestamp", JStr "2024-01-01T00:00:00.000Z");
        ("findings", JObj [("0", mkBareDefect "A" "HIGH")])].

Definition nullFinding : JsVal :=
  JObj [("id", JNum 2); ("timestamp", JStr "2024-01-02T00:00:00.000Z");
        ("findings", JArr [JNull])].

Definition textForPresets : JsVal :=
  JObj [("id", JNum 3); ("timestamp", JStr "2024-01-03T00:00:00.000Z");
        ("phases", JObj [("presetAnalysis", JStr "none")])].

Definition bareRecord : JsVal :=
  JObj [("id", JNum 4); ("timestamp", JStr "2024-01-04T00:00:00.000Z")].

Definition emptyPhases : JsVal :=
  JObj [("id", JNum 5); ("timestamp", JStr "2024-01-05T00:00:00.000Z");
        ("findings", JNull); ("phases", JObj [])].

Definition presetWithoutFindings : JsVal :=
  JObj [("id", JNum 6); ("timestamp", JStr "2024-01-06T00:00:00.000Z");
        ("phases",
         JObj [("presetAnalysis",
                JArr [JObj [("presetId", JNum 1)];
                      JObj [("findings", JArr [mkBareDefect "A" "HIGH"])]])])].

Definition looseHistory : list JsVal :=
  [bareRecord; emptyPhases; presetWithoutFindings;
   mkAnalysis 7 "2024-01-07T00:00:00.000Z" [mkBareDefect "A" "HIGH"]].

(** The final ordering: ascending priority, and descending frequency
    within a priority. *)
Definition ranked (a b : Recommendation) : Prop :=
  (rec_priority a < rec_priority b)%Z \/
  (rec_priority a = rec_priority b /\ (rec_frequency b <= rec_frequency a)%nat).

(** The entries the ordering does not tell apart. *)
Definition sameRank (p : Z) (f : nat) (a : Recommendation) : bool :=
  (rec_priority a =? p)%Z && (rec_frequency a =? f)%nat.

Definition recurringHistory : list JsVal :=
  map (fun n =>
         mkAnalysis (Z.of_nat n) "2024-02-01T00:00:00.000Z"
           ([mkDefect "Late disclosure" "MEDIUM" "Criminal Procedure Act 2009 s.41" ""] ++
            (if (n <? 3)%nat
             then [mkDefect "Missing s.55D directions language" "HIGH"
                     "Road Safety Act 1986 s.55D" "";
                   mkBareDefect "Unsigned statement" "LOW"]
             else []))%list)
      [0; 1; 2; 3; 4]%nat.

Definition highDefect : JsVal := mkBareDefect "Missing caution" "HIGH".

(** High/critical counts 0, 0, 10, 10. *)
Definition zeroThenTen : list JsVal :=
  [mkAnalysis 1 "2024-03-01T00:00:00.000Z" [];
   mkAnalysis 2 "2024-03-02T00:00:00.000Z" [mkBareDefect "Typo" "LOW"];
   mkAnalysis 3 "2024-03-03T00:00:00.000Z" (repeat highDefect 10);
   mkAnalysis 4 "2024-03-04T00:00:00.000Z" (repeat highDefect 10)].

Definition total (l : list nat) : nat := fold_left Nat.add l 0%nat.

Definition quietHistory : list JsVal :=
  [mkAnalysis 1 "2024-03-01T00:00:00.000Z" [mkBareDefect "Typo" "LOW"];
   mkAnalysis 2 "2024-03-02T00:00:00.000Z" [];
   mkAnalysis 3 "2024-03-03T00:00:00.000Z" [mkBareDefect "Typo" "LOW"]].

Definition isNaN (a : JsNum) : bool :=
  match a with
  | NaN => true
  | _ => false
  end.

(** The metrics of a non-empty history, from its tally. *)
Definition metricsOf (count : nat) (t : Tally) : ComplianceMetrics :=
  let avgIssues := toFixed1 (div (ofNat (totalIssues t)) (ofNat count)) in
  {| cm_totalAnalyses := count;
     cm_totalIssues := Some (totalIssues t);
     cm_averageIssuesPerDoc := toNumber avgIssues;
     cm_complianceRate := toNumber (toFixed1 (complianceScore avgIssues));
     cm_criticalIssues := Some (criticalCount t);
     cm_highIssues := Some (highCount t);
     cm_mostCommonIssue := issueName (mostCommonEntry (issueTypeCounts t));
     cm_mostCommonIssueCount :=
       Some (issueCount (mostCommonEntry (issueTypeCounts t))) |}.

Definition crowdedHistory : list JsVal :=
  [mkAnalysis 1 "2024-04-01T00:00:00.000Z" (repeat highDefect 25);
   mkPhased 2 "2024-04-02T00:00:00.000Z" [repeat highDefect 10; repeat highDefect 8]].

(** ** Outcome counters *)

(** A counter of the stats stored under a defect type, 0 when the type
    has no entry. *)
Definition counter (sel : DefectSuccessStats -> nat) (k : JsVal) (d : Detector)
  : nat :=
  match mapGet k (successRates d) with
  | Some s => sel s
  | None => 0
  end.

(** The defect types an outcome raises, one per item of its
    [defectsRaised] array. *)
Definition raisedBy (outcome : JsVal) : list JsVal :=
  match prop outcome "defectsRaised" with
  | JArr items => items
  | _ => []
  end.

(** How many times the outcomes of a ledger raise the type [k]. *)
Definition timesRaised (k : JsVal) (outcomes : list JsVal) : nat :=
  List.length (filter (fun t => strictEq t k) (flat_map raisedBy outcomes)).

Definition succeeded (outcome : JsVal) : bool :=
  isSuccessful (prop outcome "outcome").

Definition failed (outcome : JsVal) : bool := negb (succeeded outcome).

Definition smallLedger : list JsVal :=
  [mkOutcome "evidence excluded" ["X"; "Y"];
   mkOutcome "case proceeded" ["X"];
   mkOutcome "case dismissed" ["Y"; "Y"]].

(** ** Numbers *)

(** The grid of the finite binary64 values: the multiples of 2^-1074. *)
Definition onGrid (q : Q) : Prop :=
  exists N : Z, (q == inject_Z N * 2 ^ (-1074))%Q.

(** A number that is not negative: plus infinity, or a finite binary64
    value from 0 on. *)
Definition nonnegNum (v : JsNum) : Prop :=
  v = Inf false \/ exists q, v = Fin q /\ (0 <= q)%Q /\ onGrid q.

(** The order of the success rates, as numbers. *)
Definition rateOf (e : SuccessRateEntry) : JsNum := rateNumber (sr_successRate e).

(** ** Severity of an occurrence, as calculateCompliance tests it *)

Definition isCritical (f : JsVal) : bool :=
  strictEq (prop f "severity") (JStr "CRITICAL").

Definition isHigh (f : JsVal) : bool :=
  strictEq (prop f "severity") (JStr "HIGH").

(** ** Recurring groups and what is recommended for them *)

(** A group holds one description and one record id for each occurrence
    it counts. *)
Definition wellCounted (g : DefectCount) : Prop :=
  List.length (dc_descriptions g) = dc_count g /\
  List.length (dc_analysisIds g) = dc_count g.

(** A recommendation made for a group: it names the group's type and
    count; it has priority 1, or priority 2 with the group's severity,
    and then the group counts 5 occurrences or more. *)
Definition madeFor (g : DefectCount) (r : Recommendation) : Prop :=
  rec_issue r = dc_type g /\
  rec_frequency r = dc_count g /\
  (rec_priority r = 1%Z \/
   (rec_priority r = 2%Z /\ rec_severity r = dc_severity g /\
    (5 <= dc_count g)%nat)).

(** ** Prioritized defects *)

(** The entry of a defect without historical data. *)
Definition noDataEntry (defect : JsVal) : Prioritized :=
  {| pr_defect := defect; pr_hasHistoricalData := false;
     pr_successRate := None; pr_timesRaised := None;
     pr_recommendation := noDataAdvice |}.

(** How many outcomes the detector has recorded for the type of a
    defect. *)
Definition timesRecorded (d : Detector) (defect : JsVal) : nat :=
  counter st_totalRaised (prop defect "type") d.

(** The detector after the replay of a ledger from the cleared state. *)
Definition learned (outcomes : list JsVal) : Detector :=
  match replayOutcomes cleared outcomes with
  | Ok d => d
  | Throw _ => cleared
  end.

(** ** Document-level patterns *)

(** The levels of significance, in ascending order. *)
Definition significanceRank (s : string) : nat :=
  if s =? "CRITICAL" then 3
  else if s =? "HIGH" then 2
  else if s =? "MEDIUM" then 1
  else 0.

(** The type under which detectPatterns groups a finding. *)
Definition groupType (f : JsVal) : JsVal :=
  or_else (prop f "type") (JStr "Unknown").

(** The findings grouped under the type [k], in the order of the
    document. *)
Definition findingsOfType (k : JsVal) (fs : list JsVal) : list JsVal :=
  filter (fun f => strictEq (groupType f) k) fs.

(** The recurring-issue patterns among the detected ones whose category
    is the text [t]. *)
Definition recurringFor (t : string) (p : Pattern) : bool :=
  (pt_type p =? "Recurring Issue") && strictEq (pt_category p) (JStr t).

(** The pattern reported for the findings grouped under the text [t]. *)
Definition recurringPattern (t : string) (group : list JsVal) : Pattern :=
  {| pt_type := "Recurring Issue";
     pt_category := JStr t;
     pt_frequency := List.length group;
     pt_description :=
       dquote ++ t ++ dquote ++ " appears " ++
       decimal (Z.of_nat (List.length group)) ++ " times in document";
     pt_significance := assessSignificance (List.length group);
     pt_examples := Some (firstn 3 group) |}.

(** The grouping, key by key: a key has no entry or one, with the
    findings of its type. *)
Definition grouped (m : FindingsByType) (fs : list JsVal) : Prop :=
  forall k,
    filter (fun kg => strictEq (fst kg) k) m =
    match findingsOfType k fs with
    | [] => []
    | g => [(k, g)]
    end.

(** The least frequency with which a pattern of each kind is reported. *)
Definition frequencyFloor (p : Pattern) : nat :=
  if pt_type p =? "Temporal Pattern" then 6
  else if pt_type p =? "Severity Pattern" then 4
  else 3.

Definition mixedFindings : list JsVal :=
  [mkBareDefect "Timeline gap" "critical"; mkBareDefect "Unknown" "LOW";
   JObj [("severity", JStr "Critical")]; mkBareDefect "Timeline gap" "CRITICAL";
   JObj [("type", JStr ""); ("severity", JStr "CRITICAL")];
   mkBareDefect "Timeline gap" "HIGH"; mkBareDefect "Timeline gap" "LOW";
   mkBareDefect "Late disclosure" "LOW"; mkBareDefect "Late disclosure" "LOW"].

(** The average number of issues per record as calculateCompliance
    reports it: the quotient written with one decimal and read back; 0
    when there is no record. *)
Definition averagePerDoc (issues records : nat) : JsNum :=
  match records with
  | O => Fin 0
  | S _ => toNumber (toFixed1 (div (ofNat issues) (ofNat records)))
  end.

(** ** Learned patterns *)

(** The states of [this.patterns]: empty, then changed by calls of
    [learn] that return. *)
Inductive Learned : Patterns -> Prop :=
| learned_none : Learned []
| learned_more (clock : nat -> string) (patterns patterns' : Patterns)
    (analysisResults : JsVal) :
    Learned patterns ->
    learn clock patterns analysisResults = Ok patterns' ->
    Learned patterns'.

(** A stored pattern was seen at least once, and each time with a
    frequency of 3 or more. *)
Definition wellLearned (p : LearnedPattern) : Prop :=
  (1 <= lp_count p)%nat /\ (3 * lp_count p <= lp_totalFrequency p)%nat.

Definition sameCount (c : nat) (p : LearnedPattern) : bool :=
  (lp_count p =? c)%nat.

Definition noClock (_ : nat) : string := "2024-06-01T00:00:00.000Z".

Definition mixedDocument : JsVal :=
  JObj [("fileName", JStr "brief.pdf"); ("findings", JArr mixedFindings)].

(** ** Defects offered for outcome recording *)

(** The defect that stands for a finding. *)
Definition defectFor (f : JsVal) : Defect :=
  {| df_type := prop f "type";
     df_severity := or_else (prop f "severity") (JStr "LOW");
     df_description := prop f "description";
     df_statute := or_else (prop f "statute") (JStr "Unknown") |}.

Definition differentTypes (d1 d2 : Defect) : Prop :=
  strictEq (df_type d1) (df_type d2) = false.

(** The type of a finding is the type of one of the defects. *)
Definition offered (ds : list Defect) (f : JsVal) : bool :=
  existsb (fun d => strictEq (df_type d) (prop f "type")) ds.

Definition repeatedFindings : JsVal :=
  JObj [("findings",
         JArr [mkBareDefect "A" "HIGH"; mkDefect "B" "" "s.1" "first";
               mkBareDefect "A" "LOW"; mkBareDefect "B" "LOW"])].

(** ** Stored outcomes *)

Definition counters (k : JsVal) (d : Detector) : nat * nat * nat :=
  (counter st_totalRaised k d, counter st_successful k d,
   counter st_unsuccessful k d).

Definition recorderData : JsVal :=
  JObj [("outcome", JStr "evidence excluded");
        ("defectsRaised", JArr [JStr "X"; JStr "Y"])].

(** ** The most common issue *)




Definition timesNamed (name : string) (names : list string) : nat :=
  List.length (filter (String.eqb name) names).







(** Four findings whose severity is written in small letters. *)
Definition smallLetters : list JsVal :=
  repeat (mkBareDefect "Missing caution" "critical") 4.

(* ================================================================== *)
(** * Finding extraction: which findings a record contributes *)
(* ================================================================== *)

Lemma get_prop (v : JsVal) (name : string) :
  nullish v = false -> get v name = Ok (prop v name).
Proof.
  destruct v; simpl; try discriminate; intros _; try reflexivity.
  destruct (own name props); reflexivity.
Qed.

Lemma get_returns_inv (v : JsVal) (name : string) (x : JsVal) :
  get v name = Ok x -> nullish v = false /\ x = prop v name.
Proof.
  destruct v; simpl; try discriminate; intros H; split; try reflexivity;
    try (injection H; intros <-; reflexivity).
  destruct (own name props); injection H; intros <-; reflexivity.
Qed.

(** C1, as stated, fails: on a record holding one finding directly and
    another one under a preset, the extraction yields the direct finding
    alone, not the merge of the two groups. *)
Lemma direct_findings_hide_nested_ones :
  get bothShapes "findings" = Ok (JArr [mkBareDefect "Missing caution" "HIGH"]) /\
  nestedFindings bothShapes = Ok [mkBareDefect "Late disclosure" "LOW"] /\
  extractFindings bothShapes = Ok [mkBareDefect "Missing caution" "HIGH"] /\
  extractFindings bothShapes <>
    Ok [mkBareDefect "Missing caution" "HIGH"; mkBareDefect "Late disclosure" "LOW"].
Proof.
  repeat split; try reflexivity.
  intros H; vm_compute in H; discriminate H.
Qed.

Lemma truthy_not_nullish (v : JsVal) : truthy v = true -> nullish v = false.
Proof. destruct v; simpl; intros H; try reflexivity; discriminate H. Qed.

(** C1, amended: a record whose [findings] field is an array contributes
    exactly that array, whatever is nested under its presets; the nested
    findings are what a record contributes when its [findings] field is
    absent (or otherwise falsy), and then they come preset after preset,
    in encounter order and without deduplication. *)
Theorem extractFindings_direct_or_nested (analysis : JsVal) :
  (forall direct,
      get analysis "findings" = Ok (JArr direct) ->
      extractFindings analysis = Ok direct) /\
  (forall v nested,
      get analysis "findings" = Ok v -> truthy v = false ->
      nestedFindings analysis = Ok nested ->
      extractFindings analysis = Ok nested).
Proof.
  split.
  - intros direct H. unfold extractFindings, findingsOf. rewrite H. reflexivity.
  - intros v nested H Hv Hn. unfold extractFindings, findingsOf.
    rewrite H. simpl. rewrite Hv.
    unfold nestedFindings in Hn.
    destruct (get analysis "phases") as [phases|e]; simpl in *; [|discriminate].
    destruct (get_opt phases "presetAnalysis") as [presets|e]; simpl in *;
      [|discriminate].
    destruct (nullish presets) eqn:Hp.
    + destruct presets; simpl in *; discriminate.
    + destruct (asArray presets) as [items|e]; simpl in *; [|discriminate].
      rewrite Hn. reflexivity.
Qed.

Lemma extractFindings_direct_or_nested_witness :
  extractFindings bothShapes = Ok [mkBareDefect "Missing caution" "HIGH"] /\
  extractFindings
    (mkPhased 2 "2024-01-02T00:00:00.000Z"
       [[mkBareDefect "A" "LOW"; mkBareDefect "B" "HIGH"]; [mkBareDefect "A" "LOW"]])
  = Ok [mkBareDefect "A" "LOW"; mkBareDefect "B" "HIGH"; mkBareDefect "A" "LOW"].
Proof.
  split.
  - apply (proj1 (extractFindings_direct_or_nested bothShapes)). reflexivity.
  - apply (proj2 (extractFindings_direct_or_nested _)) with (v := JUndefined);
      reflexivity.
Defined.

(* ================================================================== *)
(** * Outcome learning *)
(* ================================================================== *)

Lemma recordOutcome_consistent (entry : OutcomeEntry) (s : DefectSuccessStats) :
  (st_successful s + st_unsuccessful s = st_totalRaised s)%nat ->
  List.length (st_outcomes s) = st_totalRaised s ->
  consistent (recordOutcome entry s).
Proof.
  intros Hsum Hlen. unfold consistent, recordOutcome; simpl.
  rewrite length_app; simpl.
  destruct (isSuccessful (oe_outcome entry)); lia.
Qed.

Lemma mapUpdate_consistent (k : JsVal) (entry : OutcomeEntry) (m : SuccessRates) :
  Forall (fun kv => consistent (snd kv)) m ->
  Forall (fun kv => consistent (snd kv)) (mapUpdate k (recordOutcome entry) m).
Proof.
  induction 1 as [|[k' v] rest Hv Hrest IH]; simpl; [constructor|].
  destruct (strictEq k' k).
  - constructor; [|assumption]. simpl in *.
    destruct Hv as (Hs & Hl & _). now apply recordOutcome_consistent.
  - constructor; assumption.
Qed.

Lemma raiseDefect_consistent (entry : OutcomeEntry) (m : SuccessRates) (k : JsVal) :
  Forall (fun kv => consistent (snd kv)) m ->
  Forall (fun kv => consistent (snd kv)) (raiseDefect entry m k).
Proof.
  intros Hm. unfold raiseDefect. destruct (mapGet k m).
  - now apply mapUpdate_consistent.
  - apply Forall_app; split; [assumption|].
    constructor; [|constructor]. simpl.
    now apply recordOutcome_consistent.
Qed.

Lemma learnFromOutcome_consistent (d d' : Detector) (analysisId outcome : JsVal) :
  Forall (fun kv => consistent (snd kv)) (successRates d) ->
  learnFromOutcome d analysisId outcome = Ok d' ->
  Forall (fun kv => consistent (snd kv)) (successRates d').
Proof.
  intros Hd. unfold learnFromOutcome.
  destruct (get outcome "defectsRaised") as [raised|e]; simpl; [|discriminate].
  destruct raised; try (intros H; injection H; intros <-; exact Hd).
  destruct (get outcome "outcome") as [o|e]; simpl; [|discriminate].
  destruct (get outcome "date") as [date|e]; simpl; [|discriminate].
  destruct (get outcome "courtResponse") as [cr|e]; simpl; [|discriminate].
  destruct (get outcome "effectiveArguments") as [ea|e]; simpl; [|discriminate].
  intros H; injection H; intros <-; simpl. clear H.
  set (entry := {| oe_date := date; oe_outcome := o; oe_courtResponse := cr;
                   oe_effectiveArguments := ea |}).
  generalize dependent (successRates d). clear d.
  induction items as [|k items IH]; intros m Hm; simpl; [assumption|].
  apply IH. now apply raiseDefect_consistent.
Qed.

(** C10: after any sequence of [learnFromOutcome] calls that starts from
    a reset state, every entry of the success-rate map has
    successful + unsuccessful = totalRaised, as many recorded outcomes as
    totalRaised, and totalRaised at least 1. *)
Theorem success_stats_consistent (d : Detector) :
  Reachable d ->
  Forall (fun kv => consistent (snd kv)) (successRates d).
Proof.
  induction 1 as [d|d d' analysisId outcome _ IH Hlearn].
  - constructor.
  - exact (learnFromOutcome_consistent d d' analysisId outcome IH Hlearn).
Qed.

Lemma success_stats_consistent_witness :
  Forall (fun kv => consistent (snd kv)) (successRates twoOutcomesLearned).
Proof.
  apply success_stats_consistent.
  apply (reach_learn
           {| successRates :=
                fold_left
                  (raiseDefect {| oe_date := JStr "2024-05-01T00:00:00.000Z";
                                  oe_outcome := JStr "evidence excluded";
                                  oe_courtResponse := JStr "";
                                  oe_effectiveArguments := JArr [] |})
                  [JStr "X"; JStr "Y"] [] |}
           twoOutcomesLearned JUndefined (mkOutcome "case proceeded" ["X"])).
  - apply (reach_learn (reset cleared) _ JUndefined
             (mkOutcome "evidence excluded" ["X"; "Y"])).
    + apply reach_reset.
    + reflexivity.
  - reflexivity.
Defined.

Lemma raises_not_nullish (x : string) (outcome : JsVal) :
  raises x outcome -> nullish outcome = false.
Proof. intros H. now destruct (get_returns_inv _ _ _ H). Qed.

Lemma learnFromOutcome_single (m : SuccessRates) (x : string)
    (analysisId outcome : JsVal) :
  raises x outcome ->
  learnFromOutcome {| successRates := m |} analysisId outcome =
  Ok {| successRates := raiseDefect (entryOf outcome) m (JStr x) |}.
Proof.
  intros H. pose proof (raises_not_nullish _ _ H) as Hn.
  unfold learnFromOutcome. rewrite H. simpl.
  rewrite !(get_prop outcome) by assumption. reflexivity.
Qed.

Lemma replay_single_from (x : string) (outcomes : list JsVal) :
  Forall (raises x) outcomes ->
  forall s,
    replayOutcomes {| successRates := [(JStr x, s)] |} outcomes =
    Ok {| successRates := [(JStr x, tallied s outcomes)] |}.
Proof.
  induction 1 as [|o os Ho _ IH]; intros s; [reflexivity|].
  unfold replayOutcomes; simpl.
  rewrite (get_prop o) by (eapply raises_not_nullish; eassumption). simpl.
  rewrite (learnFromOutcome_single _ x) by assumption. simpl.
  unfold raiseDefect; simpl. rewrite String.eqb_refl. simpl.
  apply IH.
Qed.

Lemma replay_single (x : string) (o : JsVal) (outcomes : list JsVal) :
  Forall (raises x) (o :: outcomes) ->
  replayOutcomes cleared (o :: outcomes) =
  Ok {| successRates := [(JStr x, tallied (freshStats (JStr x)) (o :: outcomes))] |}.
Proof.
  intros H. inversion H as [|? ? Ho Hos]; subst.
  unfold replayOutcomes, cleared; simpl.
  rewrite (get_prop o) by (eapply raises_not_nullish; eassumption). simpl.
  rewrite (learnFromOutcome_single _ x) by assumption. simpl.
  apply (replay_single_from x outcomes Hos).
Qed.

Lemma tallied_counts (outcomes : list JsVal) : forall s,
  st_type (tallied s outcomes) = st_type s /\
  st_totalRaised (tallied s outcomes) =
    (st_totalRaised s + List.length outcomes)%nat /\
  st_successful (tallied s outcomes) =
    (st_successful s +
     List.length (filter (fun o => isSuccessful (prop o "outcome")) outcomes))%nat /\
  st_unsuccessful (tallied s outcomes) =
    (st_unsuccessful s +
     List.length (filter (fun o => negb (isSuccessful (prop o "outcome"))) outcomes))%nat.
Proof.
  induction outcomes as [|o os IH]; intros s; simpl.
  - repeat split; lia.
  - destruct (IH (recordOutcome (entryOf o) s)) as (Ht & Hr & Hs & Hu).
    unfold tallied in *. rewrite Ht, Hr, Hs, Hu. simpl.
    destruct (isSuccessful (prop o "outcome")); simpl; repeat split; lia.
Qed.

(** Among outcomes that are "evidence excluded" or "case proceeded", the
    successful ones are the former. *)
Lemma successful_are_excluded (outcomes : list JsVal) :
  Forall (fun o => hasOutcome "evidence excluded" o = true \/
                   hasOutcome "case proceeded" o = true) outcomes ->
  filter (fun o => isSuccessful (prop o "outcome")) outcomes =
  filter (hasOutcome "evidence excluded") outcomes.
Proof.
  induction 1 as [|o os Ho _ IH]; simpl; [reflexivity|].
  rewrite IH.
  replace (isSuccessful (prop o "outcome")) with (hasOutcome "evidence excluded" o);
    [reflexivity|].
  unfold hasOutcome, isSuccessful in *.
  destruct (prop o "outcome"); simpl in *; try (destruct Ho; discriminate).
  destruct Ho as [Ho|Ho].
  - rewrite Ho. reflexivity.
  - apply String.eqb_eq in Ho. subst s. reflexivity.
Qed.

Lemma filter_negb_length {A : Type} (p : A -> bool) (l : list A) :
  (List.length (filter p l) + List.length (filter (fun x => negb (p x)) l)
   = List.length l)%nat.
Proof.
  induction l as [|x l IH]; simpl; [reflexivity|].
  destruct (p x); simpl; lia.
Qed.

(** C5: from a reset state, replaying 8 outcome records that raise the
    defect type "X", 7 of them "evidence excluded" and 1 "case
    proceeded", makes [getSuccessRates] return one entry, for "X", with
    totalRaised = 8, successful = 7, unsuccessful = 1 and successRate
    "87.5". *)
Theorem success_rate_round_trip (d0 : Detector) (outcomes : list JsVal) :
  List.length outcomes = 8%nat ->
  Forall (raises "X") outcomes ->
  Forall (fun o => hasOutcome "evidence excluded" o = true \/
                   hasOutcome "case proceeded" o = true) outcomes ->
  List.length (filter (hasOutcome "evidence excluded") outcomes) = 7%nat ->
  exists d e,
    replayOutcomes (reset d0) outcomes = Ok d /\
    getSuccessRates d = [e] /\
    st_type (sr_stats e) = JStr "X" /\
    st_totalRaised (sr_stats e) = 8%nat /\
    st_successful (sr_stats e) = 7%nat /\
    st_unsuccessful (sr_stats e) = 1%nat /\
    rateString (sr_successRate e) = "87.5".
Proof.
  intros Hlen Hx Hkind Hsucc.
  destruct (tallied_counts outcomes (freshStats (JStr "X")))
    as (Ht & Hr & Hs & Hu).
  pose proof (filter_negb_length (fun o => isSuccessful (prop o "outcome")) outcomes)
    as Hsplit.
  rewrite (successful_are_excluded _ Hkind) in Hs, Hsplit.
  rewrite Hsucc in Hs, Hsplit. rewrite Hlen in Hr, Hsplit.
  set (s := tallied (freshStats (JStr "X")) outcomes) in *.
  change (st_totalRaised s = 8%nat) in Hr.
  change (st_successful s = 7%nat) in Hs.
  change (st_type s = JStr "X") in Ht.
  assert (Hu' : st_unsuccessful s = 1%nat) by (rewrite Hu; cbn [freshStats st_unsuccessful]; lia).
  exists {| successRates := [(JStr "X", s)] |}.
  exists {| sr_stats := s; sr_successRate := RateText (percentage 7 8) |}.
  split.
  - destruct outcomes as [|o os]; [discriminate|].
    exact (replay_single "X" o os Hx).
  - unfold getSuccessRates. cbn [successRates map snd sort insert].
    rewrite Hr, Hs. cbn [Nat.ltb Nat.leb].
    repeat split; try assumption.
Qed.

Lemma success_rate_round_trip_witness :
  exists d e,
    replayOutcomes (reset cleared) eightOutcomes = Ok d /\
    getSuccessRates d = [e] /\
    st_type (sr_stats e) = JStr "X" /\
    st_totalRaised (sr_stats e) = 8%nat /\
    st_successful (sr_stats e) = 7%nat /\
    st_unsuccessful (sr_stats e) = 1%nat /\
    rateString (sr_successRate e) = "87.5".
Proof.
  apply (success_rate_round_trip cleared eightOutcomes).
  - reflexivity.
  - repeat constructor.
  - repeat (constructor; [(left; reflexivity) || (right; reflexivity)|]).
    constructor.
  - reflexivity.
Defined.

(* ================================================================== *)
(** * Prioritization by success rate *)
(* ================================================================== *)

(** The advisory of an entry never depends on the success rate: the
    property that the test reads is not one a stored stats object has. *)
Lemma prioritize_never_strong (d : Detector) (defect : JsVal) (e : Prioritized) :
  prioritize d defect = Ok e ->
  pr_recommendation e = weakAdvice \/ pr_recommendation e = noDataAdvice.
Proof.
  unfold prioritize.
  destruct (get defect "type") as [type|err]; cbn [bind]; [|discriminate].
  destruct (mapGet type (successRates d)) as [info|].
  - destruct (3 <=? st_totalRaised info)%nat; intros H;
      inversion H; subst e; simpl; [left|right]; reflexivity.
  - intros H; inversion H; subst e; right; reflexivity.
Qed.

(** C2 fails on the code: after the 8 outcomes of the round trip (7 of 8
    successful, a rate of 87.5), the defect "X" has historical data and a
    rate above 60, and still gets the "ensure strong evidence" advisory,
    not the "strong defect to raise" one. *)
Theorem strong_rate_gets_weak_advice :
  exists d e,
    replayOutcomes (reset cleared) eightOutcomes = Ok d /\
    prioritizeDefects d [mkBareDefect "X" "HIGH"] = Ok (InOrder [e]) /\
    pr_hasHistoricalData e = true /\
    pr_timesRaised e = Some 8%nat /\
    option_map render (pr_successRate e) = Some "87.5" /\
    pr_recommendation e = weakAdvice /\
    pr_recommendation e <> strongAdvice.
Proof.
  eexists. eexists.
  split; [reflexivity|].
  split; [vm_compute; reflexivity|].
  repeat split.
  intros H; vm_compute in H; discriminate H.
Qed.

(* ================================================================== *)
(** * Novel issues *)
(* ================================================================== *)

Lemma strictEq_eq (a b : JsVal) : strictEq a b = true -> a = b.
Proof.
  destruct a, b; simpl; try discriminate; intros H; try reflexivity.
  - apply Bool.eqb_prop in H. now subst.
  - apply Z.eqb_eq in H. now subst.
  - apply String.eqb_eq in H. now subst.
Qed.

Lemma existsb_snoc {A : Type} (p : A -> bool) (l : list A) (x : A) :
  existsb p (l ++ [x]) = existsb p l || p x.
Proof. rewrite existsb_app. simpl. now rewrite orb_false_r. Qed.

Lemma setHas_setAdd (s : list JsVal) (t v : JsVal) :
  setHas (setAdd s t) v = setHas s v || strictEq v t.
Proof.
  unfold setAdd. destruct (setHas s t) eqn:Hst.
  - destruct (strictEq v t) eqn:Hvt; [|now rewrite orb_false_r].
    apply strictEq_eq in Hvt. subst v. rewrite Hst. reflexivity.
  - unfold setHas. apply existsb_snoc.
Qed.

Lemma forEach_addType (fs : list JsVal) : forall s ts,
  mapM (fun f => get f "type") fs = Ok ts ->
  exists s', forEach addType fs s = Ok s' /\
             forall v, setHas s' v = setHas s v || existsb (strictEq v) ts.
Proof.
  induction fs as [|f fs IH]; intros s ts; simpl.
  - intros H; injection H; intros <-. exists s. split; [reflexivity|].
    intros v; simpl. now rewrite orb_false_r.
  - unfold addType at 1.
    destruct (get f "type") as [t|e]; simpl; [|discriminate].
    destruct (mapM (fun f => get f "type") fs) as [ts'|e] eqn:Hts; simpl;
      [|discriminate].
    intros H; injection H; intros <-.
    destruct (IH (setAdd s t) ts' eq_refl) as (s' & Hs' & Hhas).
    exists s'. split; [assumption|].
    intros v. rewrite Hhas, setHas_setAdd. simpl. now rewrite orb_assoc.
Qed.

Lemma forEach_addTypesOf (earlier : list JsVal) : forall s tss,
  mapM typesOf earlier = Ok tss ->
  exists s', forEach addTypesOf earlier s = Ok s' /\
             forall v, setHas s' v = setHas s v || existsb (strictEq v) (List.concat tss).
Proof.
  induction earlier as [|a earlier IH]; intros s tss; simpl.
  - intros H; injection H; intros <-. exists s. split; [reflexivity|].
    intros v; simpl. now rewrite orb_false_r.
  - unfold typesOf at 1, addTypesOf at 1.
    destruct (extractFindings a) as [fs|e]; simpl; [|discriminate].
    destruct (mapM (fun f => get f "type") fs) as [ts|e] eqn:Hts; simpl;
      [|discriminate].
    destruct (mapM typesOf earlier) as [tss'|e] eqn:Htss; simpl; [|discriminate].
    intros H; injection H; intros <-.
    destruct (forEach_addType fs s ts Hts) as (s1 & Hs1 & Hhas1).
    destruct (IH s1 tss' eq_refl) as (s' & Hs' & Hhas).
    exists s'. rewrite Hs1. split; [assumption|].
    intros v. rewrite Hhas, Hhas1. simpl.
    now rewrite existsb_app, orb_assoc.
Qed.

Lemma filterM_isNovel (s earlier : list JsVal) (fs : list JsVal) :
  (forall v, setHas s v = existsb (strictEq v) earlier) ->
  Forall (fun f => nullish f = false) fs ->
  filterM (isNovel s) fs = Ok (novelOccurrences earlier fs).
Proof.
  intros Hs. induction 1 as [|f fs Hf _ IH]; simpl; [reflexivity|].
  unfold isNovel at 1. rewrite (get_prop f) by assumption. simpl.
  rewrite IH. simpl. rewrite Hs. reflexivity.
Qed.

Lemma mapM_novelEntry (fs : list JsVal) :
  Forall (fun f => exists s, get f "type" = Ok (JStr s)) fs ->
  exists r, mapM novelEntry fs = Ok r /\ Forall2 reports fs r.
Proof.
  induction 1 as [|f fs [s Hf] _ (r & Hr & Hrep)]; simpl.
  - exists []. split; [reflexivity|constructor].
  - destruct (get_returns_inv _ _ _ Hf) as (Hn & Hty).
    unfold novelEntry at 1. rewrite !(get_prop f) by assumption.
    rewrite <- Hty. simpl. rewrite Hr. simpl.
    eexists. split; [reflexivity|].
    constructor; [|assumption].
    unfold reports; simpl. rewrite Hty. repeat split; reflexivity.
Qed.

(** The operation, once the set of earlier types is replaced by the list
    of all earlier types. *)
Lemma identifyNovelIssues_eq (earlier : list JsVal) (latest : JsVal)
    (tss : list (list JsVal)) (fs : list JsVal) :
  mapM typesOf earlier = Ok tss ->
  extractFindings latest = Ok fs ->
  Forall (fun f => nullish f = false) fs ->
  identifyNovelIssues (earlier ++ [latest]) =
  mapM novelEntry (novelOccurrences (List.concat tss) fs).
Proof.
  intros Htss Hfs Hnn.
  destruct (forEach_addTypesOf earlier [] tss Htss) as (s & Hs & Hhas).
  unfold identifyNovelIssues.
  destruct (earlier ++ [latest])%list as [|a rest] eqn:Hlist.
  { destruct earlier; discriminate. }
  rewrite <- Hlist.
  unfold lastOf, allButLast. rewrite last_last, removelast_last.
  unfold extractFindings in Hfs.
  destruct (findingsOf latest) as [v|e]; simpl in *; [|discriminate].
  rewrite Hs. simpl. rewrite Hfs. simpl.
  rewrite (filterM_isNovel s (List.concat tss) fs) by (assumption || exact Hhas).
  reflexivity.
Qed.

(** C7: on an empty history [identifyNovelIssues] returns an empty
    result; on a history with a last record it returns, in order, exactly
    one entry per defect occurrence of that record whose type does not
    appear among the defect types of the earlier records, a repeated
    novel type being reported at each of its occurrences. *)
Theorem identifyNovelIssues_reports_novel_occurrences :
  identifyNovelIssues [] = Ok [] /\
  forall (earlier : list JsVal) (latest : JsVal)
         (tss : list (list JsVal)) (fs : list JsVal),
    mapM typesOf earlier = Ok tss ->
    extractFindings latest = Ok fs ->
    Forall (fun f => exists s, get f "type" = Ok (JStr s)) fs ->
    exists r,
      identifyNovelIssues (earlier ++ [latest]) = Ok r /\
      Forall2 reports (novelOccurrences (List.concat tss) fs) r.
Proof.
  split; [reflexivity|].
  intros earlier latest tss fs Htss Hfs Hstr.
  assert (Hnn : Forall (fun f => nullish f = false) fs).
  { eapply Forall_impl; [|exact Hstr].
    intros f [s Hf]. now destruct (get_returns_inv _ _ _ Hf). }
  assert (Hnovel : Forall (fun f => exists s, get f "type" = Ok (JStr s))
                     (novelOccurrences (List.concat tss) fs)).
  { apply Forall_forall. intros f Hin.
    apply filter_In in Hin. destruct Hin as [Hin _].
    revert f Hin. now apply Forall_forall. }
  destruct (mapM_novelEntry _ Hnovel) as (r & Hr & Hrep).
  exists r. split; [|assumption].
  rewrite (identifyNovelIssues_eq earlier latest tss fs Htss Hfs Hnn).
  exact Hr.
Qed.

Lemma identifyNovelIssues_reports_novel_occurrences_witness :
  exists r,
    identifyNovelIssues (novelHistory ++ [novelLatest]) = Ok r /\
    Forall2 reports [mkBareDefect "C" "HIGH"; mkBareDefect "C" "HIGH"] r.
Proof.
  apply (proj2 identifyNovelIssues_reports_novel_occurrences
           novelHistory novelLatest [[JStr "A"]; [JStr "B"]]
           [mkBareDefect "C" "HIGH"; mkBareDefect "A" "LOW"; mkBareDefect "C" "HIGH"]).
  - reflexivity.
  - reflexivity.
  - repeat constructor; eexists; reflexivity.
Defined.

(* ================================================================== *)
(** * Recurring defects *)
(* ================================================================== *)

Lemma defectKey_not_nullish (f : JsVal) (key : string) :
  defectKey f = Ok key -> nullish f = false.
Proof.
  unfold defectKey. destruct (get f "type") as [t|e] eqn:Ht; [|discriminate].
  intros _. now destruct (get_returns_inv _ _ _ Ht).
Qed.

Lemma defectKey_groupKey (f : JsVal) (key : string) :
  defectKey f = Ok key -> groupKey (prop f "type") (prop f "statute") = Ok key.
Proof.
  intros H. pose proof (defectKey_not_nullish f key H) as Hn.
  unfold defectKey in H. now rewrite !(get_prop f) in H by assumption.
Qed.

Lemma countDefect_eq (analysis : JsVal) (dc : DefectCounts) (f : JsVal) (key : string) :
  nullish analysis = false ->
  defectKey f = Ok key ->
  countDefect analysis dc f =
  Ok (update key
        (bump (prop analysis "timestamp") (prop f "description") (prop analysis "id"))
        (match lookup key dc with
         | Some _ => dc
         | None => (dc ++ [(key, created analysis f)])%list
         end)).
Proof.
  intros Ha Hk. pose proof (defectKey_not_nullish f key Hk) as Hf.
  unfold countDefect. rewrite Hk. cbn [bind].
  rewrite !(get_prop f) by assumption.
  rewrite !(get_prop analysis) by assumption. reflexivity.
Qed.

Lemma lookup_app_None {V : Type} (k : string) (m m' : list (string * V)) :
  lookup k m = None -> lookup k (m ++ m') = lookup k m'.
Proof.
  induction m as [|[k' v] m IH]; simpl; [reflexivity|].
  destruct (k' =? k); [discriminate|assumption].
Qed.

Lemma lookup_app_Some {V : Type} (k : string) (m m' : list (string * V)) (v : V) :
  lookup k m = Some v -> lookup k (m ++ m') = Some v.
Proof.
  induction m as [|[k' x] m IH]; simpl; [discriminate|].
  destruct (k' =? k); [trivial|assumption].
Qed.

Lemma lookup_update {V : Type} (k key : string) (f : V -> V) (m : list (string * V)) :
  lookup k (update key f m) =
  if key =? k then option_map f (lookup k m) else lookup k m.
Proof.
  induction m as [|[k' v] m IH]; simpl.
  - now destruct (key =? k).
  - destruct (k' =? key) eqn:Hkey; simpl.
    + apply String.eqb_eq in Hkey. subst k'.
      destruct (key =? k) eqn:Hk; reflexivity.
    + destruct (k' =? k) eqn:Hk; simpl.
      * destruct (key =? k) eqn:Hkk; [|reflexivity].
        apply String.eqb_eq in Hk, Hkk. subst. now rewrite String.eqb_refl in Hkey.
      * exact IH.
Qed.

Lemma update_fst {V : Type} (key : string) (f : V -> V) (m : list (string * V)) :
  map fst (update key f m) = map fst m.
Proof.
  induction m as [|[k' v] m IH]; simpl; [reflexivity|].
  destruct (k' =? key); simpl; [reflexivity|now rewrite IH].
Qed.

Lemma lookup_None_notin {V : Type} (k : string) (m : list (string * V)) :
  lookup k m = None -> ~ In k (map fst m).
Proof.
  induction m as [|[k' v] m IH]; simpl; [tauto|].
  destruct (k' =? k) eqn:Hk; [discriminate|].
  intros H [Heq|Hin]; [|now apply IH].
  subst. now rewrite String.eqb_refl in Hk.
Qed.

Lemma lookup_In {V : Type} (k : string) (v : V) (m : list (string * V)) :
  lookup k m = Some v -> In (k, v) m.
Proof.
  induction m as [|[k' x] m IH]; simpl; [discriminate|].
  destruct (k' =? k) eqn:Hk.
  - intros H; injection H; intros <-. apply String.eqb_eq in Hk. subst. now left.
  - intros H. right. now apply IH.
Qed.

Lemma In_lookup {V : Type} (k : string) (v : V) (m : list (string * V)) :
  NoDup (map fst m) -> In (k, v) m -> lookup k m = Some v.
Proof.
  induction m as [|[k' x] m IH]; simpl; [tauto|].
  intros Hnd [Heq|Hin].
  - injection Heq; intros -> ->. now rewrite String.eqb_refl.
  - inversion Hnd as [|? ? Hnotin Hnd']; subst.
    destruct (k' =? k) eqn:Hk.
    + apply String.eqb_eq in Hk. subst k'. exfalso. apply Hnotin.
      change k with (fst (k, v)). now apply in_map.
    + now apply IH.
Qed.

Lemma update_Forall {V : Type} (P : string * V -> Prop) (key : string)
    (f : V -> V) (m : list (string * V)) :
  (forall v, P (key, v) -> P (key, f v)) ->
  Forall P m -> Forall P (update key f m).
Proof.
  intros Hf. induction 1 as [|[k' v] m Hv Hm IH]; simpl; [constructor|].
  destruct (k' =? key) eqn:Hk.
  - apply String.eqb_eq in Hk. subst k'. constructor; [now apply Hf|assumption].
  - constructor; assumption.
Qed.

(** One defect occurrence: its key gains one count, the groups stay keyed. *)
Lemma countDefect_step (analysis : JsVal) (dc : DefectCounts) (f : JsVal) (key : string) :
  nullish analysis = false ->
  defectKey f = Ok key ->
  keyed dc ->
  exists dc',
    countDefect analysis dc f = Ok dc' /\
    keyed dc' /\
    forall k, countOf k dc' = (countOf k dc + if (key =? k)%string then 1 else 0)%nat.
Proof.
  intros Ha Hk [Hnd Hkeys].
  eexists. split; [exact (countDefect_eq analysis dc f key Ha Hk)|].
  set (b := bump _ _ _).
  destruct (lookup key dc) as [g|] eqn:Hlook.
  - split.
    + split; [now rewrite update_fst|].
      apply (update_Forall (fun kg => keyOfGroup (snd kg) = Ok (fst kg)));
        [|assumption].
      intros v Hv. exact Hv.
    + intros k. unfold countOf. rewrite lookup_update.
      destruct (key =? k) eqn:Hkk; [|lia].
      apply String.eqb_eq in Hkk. subst k. rewrite Hlook. simpl. lia.
  - split.
    + split.
      * rewrite update_fst, map_app. simpl.
        apply NoDup_app; [assumption|repeat constructor; simpl; tauto|].
        intros x Hx [<-|[]]. now apply (lookup_None_notin _ _ Hlook).
      * apply (update_Forall (fun kg => keyOfGroup (snd kg) = Ok (fst kg)));
          [intros v Hv; exact Hv|].
        apply Forall_app. split; [assumption|].
        constructor; [|constructor]. simpl.
        unfold keyOfGroup, created; simpl. now apply defectKey_groupKey.
    + intros k. unfold countOf. rewrite lookup_update.
      destruct (key =? k) eqn:Hkk.
      * apply String.eqb_eq in Hkk. subst k.
        rewrite (lookup_app_None _ _ _ Hlook), Hlook. simpl.
        rewrite String.eqb_refl. simpl. lia.
      * destruct (lookup k dc) as [g|] eqn:Hg.
        -- rewrite (lookup_app_Some _ _ _ _ Hg). lia.
        -- rewrite (lookup_app_None _ _ _ Hg). simpl. rewrite Hkk. lia.
Qed.

Lemma count_occ_cons_eqb (ks : list string) (key k : string) :
  count_occ string_dec (key :: ks) k =
  ((if (key =? k)%string then 1 else 0) + count_occ string_dec ks k)%nat.
Proof.
  simpl. destruct (string_dec key k) as [->|Hne].
  - now rewrite String.eqb_refl.
  - apply String.eqb_neq in Hne. now rewrite Hne.
Qed.

Lemma forEach_countDefect (analysis : JsVal) (fs : list JsVal) :
  nullish analysis = false ->
  forall dc ks,
    mapM defectKey fs = Ok ks ->
    keyed dc ->
    exists dc',
      forEach (countDefect analysis) fs dc = Ok dc' /\
      keyed dc' /\
      forall k, countOf k dc' = (countOf k dc + count_occ string_dec ks k)%nat.
Proof.
  intros Ha. induction fs as [|f fs IH]; intros dc ks; simpl.
  - intros H Hdc; injection H; intros <-. exists dc. repeat split; try apply Hdc.
    intros k; simpl; lia.
  - destruct (defectKey f) as [key|e] eqn:Hkey; cbn [bind]; [|discriminate].
    destruct (mapM defectKey fs) as [ks'|e] eqn:Hks; cbn [bind]; [|discriminate].
    intros H Hdc; injection H; intros <-.
    destruct (countDefect_step analysis dc f key Ha Hkey Hdc) as (dc1 & H1 & Hk1 & Hc1).
    destruct (IH dc1 ks' eq_refl Hk1) as (dc' & H' & Hk' & Hc').
    exists dc'. rewrite H1. cbn [bind]. repeat split; try assumption; try apply Hk'.
    intros k. rewrite Hc', Hc1, count_occ_cons_eqb. lia.
Qed.

Lemma extractFindings_not_nullish (analysis : JsVal) (fs : list JsVal) :
  extractFindings analysis = Ok fs -> nullish analysis = false.
Proof.
  unfold extractFindings, findingsOf.
  destruct (get analysis "findings") as [v|e] eqn:Hv; [|discriminate].
  intros _. now destruct (get_returns_inv _ _ _ Hv).
Qed.

Lemma forEach_countAnalysis (analyses : list JsVal) :
  forall dc kss,
    mapM keysOf analyses = Ok kss ->
    keyed dc ->
    exists dc',
      forEach countAnalysis analyses dc = Ok dc' /\
      keyed dc' /\
      forall k, countOf k dc' =
                (countOf k dc + count_occ string_dec (List.concat kss) k)%nat.
Proof.
  induction analyses as [|a analyses IH]; intros dc kss; simpl.
  - intros H Hdc; injection H; intros <-. exists dc. repeat split; try apply Hdc.
    intros k; simpl; lia.
  - unfold keysOf at 1, countAnalysis at 1.
    destruct (extractFindings a) as [fs|e] eqn:Hfs; cbn [bind]; [|discriminate].
    destruct (mapM defectKey fs) as [ks|e] eqn:Hks; cbn [bind]; [|discriminate].
    destruct (mapM keysOf analyses) as [kss'|e] eqn:Hkss; cbn [bind]; [|discriminate].
    intros H Hdc; injection H; intros <-.
    pose proof (extractFindings_not_nullish a fs Hfs) as Ha.
    destruct (forEach_countDefect a fs Ha dc ks Hks Hdc) as (dc1 & H1 & Hk1 & Hc1).
    destruct (IH dc1 kss' eq_refl Hk1) as (dc' & H' & Hk' & Hc').
    exists dc'. rewrite H1. repeat split; try assumption; try apply Hk'.
    intros k. rewrite Hc', Hc1. simpl. rewrite count_occ_app. lia.
Qed.

(* ================================================================== *)
(** * The sort *)
(* ================================================================== *)

Section SortFacts.

Context {A : Type} (cmp : A -> A -> Z).

Lemma insert_perm (x : A) (l : list A) : Permutation (x :: l) (insert cmp x l).
Proof.
  induction l as [|y t IH]; simpl; [apply Permutation_refl|].
  destruct (cmp x y <=? 0)%Z; [apply Permutation_refl|].
  apply perm_trans with (y :: x :: t); [apply perm_swap|].
  now apply perm_skip.
Qed.

Lemma sort_perm (l : list A) : Permutation l (sort cmp l).
Proof.
  induction l as [|x t IH]; simpl; [apply perm_nil|].
  apply perm_trans with (x :: sort cmp t); [now apply perm_skip|].
  apply insert_perm.
Qed.

Lemma sort_In (l : list A) (x : A) : In x (sort cmp l) <-> In x l.
Proof.
  split; apply Permutation_in; [apply Permutation_sym|]; apply sort_perm.
Qed.

(** The order a comparator stands for. *)
Definition before (a b : A) : Prop := (cmp a b <= 0)%Z.

Hypothesis cmp_total : forall a b, (0 < cmp a b)%Z -> (cmp b a <= 0)%Z.
Hypothesis cmp_trans :
  forall a b c, (cmp a b <= 0)%Z -> (cmp b c <= 0)%Z -> (cmp a c <= 0)%Z.

Lemma insert_sorted (x : A) (l : list A) :
  StronglySorted before l -> StronglySorted before (insert cmp x l).
Proof.
  induction 1 as [|y t Ht IH Hy]; simpl.
  - constructor; constructor.
  - destruct (cmp x y <=? 0)%Z eqn:Hxy.
    + apply Z.leb_le in Hxy. constructor; [now constructor|].
      constructor; [exact Hxy|].
      eapply Forall_impl; [|exact Hy]. intros z Hz. now apply (cmp_trans x y z).
    + apply Z.leb_gt in Hxy. constructor; [exact IH|].
      apply (Permutation_Forall (insert_perm x t)).
      constructor; [now apply cmp_total|exact Hy].
Qed.

Lemma sort_sorted (l : list A) : StronglySorted before (sort cmp l).
Proof.
  induction l as [|x t IH]; simpl; [constructor|now apply insert_sorted].
Qed.

End SortFacts.

(** Stability: the members of a class that the comparator does not tell
    apart keep the order they had. *)
Section SortStable.

Context {A : Type} (cmp : A -> A -> Z) (same : A -> bool).

Hypothesis same_tied :
  forall a b, same a = true -> same b = true -> (cmp a b <= 0)%Z.

Lemma insert_stable (x : A) (l : list A) :
  filter same (insert cmp x l) = filter same (x :: l).
Proof.
  induction l as [|y t IH]; [reflexivity|].
  cbn [insert]. destruct (cmp x y <=? 0)%Z eqn:Hxy; [reflexivity|].
  apply Z.leb_gt in Hxy. cbn [filter] in *. rewrite IH.
  destruct (same x) eqn:Hx, (same y) eqn:Hy; try reflexivity.
  pose proof (same_tied x y Hx Hy). lia.
Qed.

Lemma sort_stable (l : list A) : filter same (sort cmp l) = filter same l.
Proof.
  induction l as [|x t IH]; [reflexivity|].
  cbn [sort]. rewrite insert_stable. cbn [filter]. now rewrite IH.
Qed.

End SortStable.

Lemma StronglySorted_weaken {A : Type} (R S : A -> A -> Prop) (l : list A) :
  (forall a b, R a b -> S a b) -> StronglySorted R l -> StronglySorted S l.
Proof.
  intros HRS. induction 1 as [|x t _ IH Hx]; constructor; [exact IH|].
  eapply Forall_impl; [|exact Hx]. intros b. apply HRS.
Qed.

Lemma byCountDesc_sorted (l : list DefectCount) :
  StronglySorted (fun a b => (dc_count b <= dc_count a)%nat) (sort byCountDesc l).
Proof.
  apply (StronglySorted_weaken (before byCountDesc)).
  - unfold before, byCountDesc. intros a b H. lia.
  - apply sort_sorted; unfold byCountDesc; intros; lia.
Qed.

(** C4, as stated, fails: the pair ("Missing signature|witness",
    "unknown") occurs exactly 2 times in the history, and the result
    still holds a group for it, with count 3, because a third occurrence
    of another pair has the same grouping key. *)
Lemma pair_occurring_twice_is_reported :
  exists fs g,
    occurrences collidingHistory = Ok fs /\
    List.length (filter (occursAs "Missing signature|witness" "unknown") fs) = 2%nat /\
    findRecurringDefects collidingHistory = Ok [g] /\
    groupOf "Missing signature|witness" "unknown" g = true /\
    dc_count g = 3%nat.
Proof.
  eexists. eexists.
  split; [reflexivity|].
  split; [reflexivity|].
  split; [reflexivity|].
  split; reflexivity.
Qed.

Lemma findRecurringDefects_groups (analyses : list JsVal) (ks : list string) :
  historyKeys analyses = Ok ks ->
  exists dc,
    forEach countAnalysis analyses [] = Ok dc /\
    keyed dc /\
    (forall k, countOf k dc = count_occ string_dec ks k) /\
    findRecurringDefects analyses =
      Ok (sort byCountDesc
            (filter (fun d => (3 <=? dc_count d)%nat) (map snd dc))).
Proof.
  unfold historyKeys.
  destruct (mapM keysOf analyses) as [kss|e] eqn:Hkss; cbn [bind]; [|discriminate].
  intros H; injection H; intros <-.
  destruct (forEach_countAnalysis analyses [] kss Hkss) as (dc & Hdc & Hkeyed & Hcount).
  { split; constructor. }
  exists dc. repeat split; try assumption; try apply Hkeyed.
  unfold findRecurringDefects. rewrite Hdc. reflexivity.
Qed.

Lemma keyed_lookup (dc : DefectCounts) (g : DefectCount) (k : string) :
  keyed dc -> In g (map snd dc) -> keyOfGroup g = Ok k -> lookup k dc = Some g.
Proof.
  intros [Hnd Hkeys] Hin Hk.
  apply in_map_iff in Hin. destruct Hin as ([k' g'] & Heq & Hin).
  simpl in Heq. subst g'.
  rewrite Forall_forall in Hkeys. pose proof (Hkeys _ Hin) as Hk'. simpl in Hk'.
  rewrite Hk in Hk'. injection Hk'; intros ->.
  now apply In_lookup.
Qed.

(** On grouping keys: a key that occurs exactly 2 times in a history has
    no group in the result of [findRecurringDefects]; a key that occurs
    exactly 3 times has one, with count 3; and the result is in
    descending order of count. *)
Lemma recurrence_threshold_by_key (analyses : list JsVal) (ks : list string)
    (k : string) :
  historyKeys analyses = Ok ks ->
  exists r,
    findRecurringDefects analyses = Ok r /\
    (count_occ string_dec ks k = 2%nat ->
     forall g, In g r -> keyOfGroup g <> Ok k) /\
    (count_occ string_dec ks k = 3%nat ->
     exists g, In g r /\ keyOfGroup g = Ok k /\ dc_count g = 3%nat) /\
    StronglySorted (fun a b => (dc_count b <= dc_count a)%nat) r.
Proof.
  intros Hks.
  destruct (findRecurringDefects_groups analyses ks Hks)
    as (dc & _ & Hkeyed & Hcount & Hr).
  eexists. split; [exact Hr|]. split; [|split].
  - intros H2 g Hin Hk.
    apply sort_In, filter_In in Hin. destruct Hin as [Hin H3].
    apply Nat.leb_le in H3.
    pose proof (Hcount k) as Hc. unfold countOf in Hc.
    rewrite (keyed_lookup dc g k Hkeyed Hin Hk) in Hc. lia.
  - intros H3. pose proof (Hcount k) as Hc. unfold countOf in Hc.
    destruct (lookup k dc) as [g|] eqn:Hg; [|lia].
    exists g. apply lookup_In in Hg. repeat split.
    + apply sort_In, filter_In. split.
      * change g with (snd (k, g)). now apply in_map.
      * apply Nat.leb_le. lia.
    + destruct Hkeyed as [_ Hkeys]. rewrite Forall_forall in Hkeys.
      exact (Hkeys _ Hg).
    + lia.
  - apply byCountDesc_sorted.
Qed.

Lemma key_split (t1 t2 s1 s2 : string) :
  hasBar t1 = false -> hasBar t2 = false ->
  t1 ++ "|" ++ s1 = t2 ++ "|" ++ s2 -> t1 = t2 /\ s1 = s2.
Proof.
  revert t2. induction t1 as [|c t1 IH]; intros [|c' t2]; simpl.
  - intros _ _ H. injection H; intros ->. now split.
  - intros _ H2 H. injection H; intros _ <-.
    rewrite Ascii.eqb_refl in H2. discriminate.
  - intros H1 _ H. injection H; intros _ ->.
    rewrite Ascii.eqb_refl in H1. discriminate.
  - intros H1 H2 H. injection H; intros Hrest <-.
    apply orb_false_iff in H1, H2.
    destruct (IH t2 (proj2 H1) (proj2 H2) Hrest) as [-> ->]. now split.
Qed.

Lemma plainFields_key (type statute : JsVal) (t0 s0 : string) :
  plainFields type statute -> hasBar t0 = false ->
  exists key,
    groupKey type statute = Ok key /\
    (hasPair t0 s0 type statute = true <-> key = t0 ++ "|" ++ s0).
Proof.
  intros (t & s & -> & Ht & Hs) Ht0.
  exists (t ++ "|" ++ s). unfold groupKey, hasPair. rewrite Hs. simpl.
  split; [reflexivity|]. split.
  - intros H. apply andb_true_iff in H. destruct H as [H1 H2].
    apply String.eqb_eq in H1, H2. now subst.
  - intros H. destruct (key_split t t0 s s0 Ht Ht0 H) as [-> ->].
    now rewrite !String.eqb_refl.
Qed.

Lemma plainDefect_key (f : JsVal) (t0 s0 : string) :
  plainDefect f -> hasBar t0 = false ->
  exists key,
    defectKey f = Ok key /\
    (occursAs t0 s0 f = true <-> key = t0 ++ "|" ++ s0).
Proof.
  intros [Hn Hf] Ht0.
  destruct (plainFields_key _ _ t0 s0 Hf Ht0) as (key & Hkey & Hiff).
  exists key. split; [|exact Hiff].
  unfold defectKey. rewrite !(get_prop f) by assumption. exact Hkey.
Qed.

Lemma plain_keys_count (fs : list JsVal) (t0 s0 : string) :
  Forall plainDefect fs -> hasBar t0 = false ->
  exists ks,
    mapM defectKey fs = Ok ks /\
    count_occ string_dec ks (t0 ++ "|" ++ s0) =
    List.length (filter (occursAs t0 s0) fs).
Proof.
  intros Hfs Ht0. set (key0 := t0 ++ "|" ++ s0).
  induction Hfs as [|f fs Hf _ (ks & Hks & Hcount)].
  - exists []. now split.
  - destruct (plainDefect_key f t0 s0 Hf Ht0) as (key & Hkey & Hiff).
    fold key0 in Hiff. cbn [mapM]. rewrite Hkey, Hks. cbn [bind].
    exists (key :: ks). split; [reflexivity|].
    cbn [count_occ filter]. destruct (string_dec key key0) as [Heq|Hne].
    + rewrite (proj2 Hiff Heq). cbn [List.length]. now rewrite Hcount.
    + destruct (occursAs t0 s0 f) eqn:Hocc; [|exact Hcount].
      exfalso. apply Hne. now apply Hiff.
Qed.


Lemma mapM_app_inv {A B : Type} (f : A -> Res B) (l1 l2 : list A) (r : list B) :
  mapM f (l1 ++ l2) = Ok r ->
  exists r1 r2, mapM f l1 = Ok r1 /\ mapM f l2 = Ok r2 /\ r = (r1 ++ r2)%list.
Proof.
  revert r. induction l1 as [|x l1 IH]; intros r; simpl.
  - intros H. exists [], r. now repeat split.
  - destruct (f x) as [y|e]; cbn [bind]; [|discriminate].
    destruct (mapM f (l1 ++ l2)) as [ys|e] eqn:Hys; cbn [bind]; [|discriminate].
    intros H; injection H; intros <-.
    destruct (IH ys eq_refl) as (r1 & r2 & -> & H2 & ->).
    exists (y :: r1), r2. now repeat split.
Qed.

(** The keys of a history are the keys of its occurrences. *)
Lemma historyKeys_occurrences (analyses : list JsVal) : forall fs ks,
  occurrences analyses = Ok fs ->
  mapM defectKey fs = Ok ks ->
  historyKeys analyses = Ok ks.
Proof.
  unfold occurrences, historyKeys.
  induction analyses as [|a analyses IH]; intros fs ks; simpl.
  - intros H; injection H; intros <-. simpl. trivial.
  - unfold keysOf at 1.
    destruct (extractFindings a) as [fa|e]; cbn [bind]; [|discriminate].
    destruct (mapM extractFindings analyses) as [fss|e]; cbn [bind]; [|discriminate].
    intros H; injection H; intros <-. simpl. intros Hks.
    destruct (mapM_app_inv _ _ _ _ Hks) as (ka & krest & Hka & Hkrest & ->).
    rewrite Hka. cbn [bind].
    specialize (IH (List.concat fss) krest eq_refl Hkrest).
    destruct (mapM keysOf analyses) as [kss|e]; cbn [bind] in *; [|discriminate].
    injection IH; intros <-. reflexivity.
Qed.

Lemma forEach_invariant {A S : Type} (f : S -> A -> Res S) (P : A -> Prop)
    (I : S -> Prop) (l : list A) :
  (forall s x s', P x -> I s -> f s x = Ok s' -> I s') ->
  Forall P l ->
  forall s s', I s -> forEach f l s = Ok s' -> I s'.
Proof.
  intros Hstep. induction 1 as [|x l Hx _ IH]; intros s s' Hs; simpl.
  - intros H; injection H; intros <-. exact Hs.
  - destruct (f s x) as [s1|e] eqn:Hf; cbn [bind]; [|discriminate].
    apply IH. exact (Hstep s x s1 Hx Hs Hf).
Qed.

Lemma forEach_returns {A S : Type} (f : S -> A -> Res S) (P : A -> Prop)
    (I : S -> Prop) (l : list A) :
  (forall s x, P x -> I s -> exists s', f s x = Ok s' /\ I s') ->
  Forall P l ->
  forall s, I s -> exists s', forEach f l s = Ok s' /\ I s'.
Proof.
  intros Hstep. induction 1 as [|x l Hx _ IH]; intros s Hs; simpl.
  - exists s. now split.
  - destruct (Hstep s x Hx Hs) as (s1 & -> & Hs1). cbn [bind]. now apply IH.
Qed.

Lemma countDefect_inv (analysis : JsVal) (dc dc' : DefectCounts) (f : JsVal) :
  countDefect analysis dc f = Ok dc' ->
  exists key,
    defectKey f = Ok key /\
    dc' = update key
            (bump (prop analysis "timestamp") (prop f "description")
               (prop analysis "id"))
            (match lookup key dc with
             | Some _ => dc
             | None => (dc ++ [(key, created analysis f)])%list
             end).
Proof.
  intros H.
  destruct (defectKey f) as [key|e] eqn:Hkey;
    [|unfold countDefect in H; rewrite Hkey in H; discriminate].
  pose proof (defectKey_not_nullish f key Hkey) as Hf.
  assert (Ha : nullish analysis = false).
  { unfold countDefect in H. rewrite Hkey in H. cbn [bind] in H.
    rewrite !(get_prop f) in H by assumption. cbn [bind] in H.
    destruct (get analysis "timestamp") as [t|e] eqn:Ht; [|discriminate].
    now destruct (get_returns_inv _ _ _ Ht). }
  rewrite (countDefect_eq analysis dc f key Ha Hkey) in H.
  exists key. split; [reflexivity|]. now injection H.
Qed.

(** What holds of the type and statute of every counted defect holds of
    the type and statute of every group. *)
Lemma countDefect_fields (Q : JsVal -> JsVal -> Prop) (analysis : JsVal)
    (dc dc' : DefectCounts) (f : JsVal) :
  Q (prop f "type") (prop f "statute") ->
  Forall (fun g => Q (dc_type g) (dc_statute g)) (map snd dc) ->
  countDefect analysis dc f = Ok dc' ->
  Forall (fun g => Q (dc_type g) (dc_statute g)) (map snd dc').
Proof.
  intros Hf Hdc H.
  destruct (countDefect_inv analysis dc dc' f H) as (key & _ & ->).
  pose proof (proj1 (Forall_map snd (fun g => Q (dc_type g) (dc_statute g)) dc) Hdc)
    as Hall.
  apply (proj2 (Forall_map snd (fun g => Q (dc_type g) (dc_statute g)) _)).
  apply (update_Forall
           (fun kg : string * DefectCount => Q (dc_type (snd kg)) (dc_statute (snd kg)))).
  - intros v Hv. exact Hv.
  - destruct (lookup key dc); [assumption|].
    apply Forall_app. split; [assumption|].
    constructor; [exact Hf|constructor].
Qed.

Lemma countAnalysis_fields (Q : JsVal -> JsVal -> Prop) (analysis : JsVal)
    (dc dc' : DefectCounts) (fs : list JsVal) :
  extractFindings analysis = Ok fs ->
  Forall (fun f => Q (prop f "type") (prop f "statute")) fs ->
  Forall (fun g => Q (dc_type g) (dc_statute g)) (map snd dc) ->
  countAnalysis dc analysis = Ok dc' ->
  Forall (fun g => Q (dc_type g) (dc_statute g)) (map snd dc').
Proof.
  intros Hfs HQ Hdc. unfold countAnalysis. rewrite Hfs. cbn [bind].
  apply (forEach_invariant (countDefect analysis)
           (fun f => Q (prop f "type") (prop f "statute"))
           (fun dc => Forall (fun g => Q (dc_type g) (dc_statute g)) (map snd dc)) fs);
    try assumption.
  intros s x s' Hx Hs. now apply countDefect_fields.
Qed.

Lemma history_fields (Q : JsVal -> JsVal -> Prop) (analyses : list JsVal) :
  forall fs dc dc',
    occurrences analyses = Ok fs ->
    Forall (fun f => Q (prop f "type") (prop f "statute")) fs ->
    Forall (fun g => Q (dc_type g) (dc_statute g)) (map snd dc) ->
    forEach countAnalysis analyses dc = Ok dc' ->
    Forall (fun g => Q (dc_type g) (dc_statute g)) (map snd dc').
Proof.
  unfold occurrences.
  induction analyses as [|a analyses IH]; intros fs dc dc'; simpl.
  - intros _ _ Hdc H. injection H; intros <-. exact Hdc.
  - destruct (extractFindings a) as [fa|e] eqn:Hfa; cbn [bind]; [|discriminate].
    destruct (mapM extractFindings analyses) as [fss|e]; cbn [bind]; [|discriminate].
    intros H; injection H; intros <-. simpl. intros HQ Hdc.
    apply Forall_app in HQ. destruct HQ as [HQa HQrest].
    destruct (countAnalysis dc a) as [dc1|e] eqn:H1; cbn [bind]; [|discriminate].
    apply (IH (List.concat fss) dc1 dc' eq_refl HQrest).
    exact (countAnalysis_fields Q a dc dc1 fa Hfa HQa Hdc H1).
Qed.

Lemma barred_type_never_occurs (fs : list JsVal) (t s : string) :
  Forall plainDefect fs -> hasBar t = true -> filter (occursAs t s) fs = [].
Proof.
  intros Hfs Ht. induction Hfs as [|f fs [_ (t' & s' & Hty & Hbar & _)] _ IH];
    [reflexivity|].
  cbn [filter]. rewrite IH.
  replace (occursAs t s f) with false; [reflexivity|].
  unfold occursAs, hasPair. rewrite Hty. cbn [strictEq].
  destruct (String.eqb_spec t' t) as [->|_]; [congruence|reflexivity].
Qed.

(** C4, amended: in a history whose defect types are texts without the
    separator [|] of the grouping key, and whose statutes are texts or
    absent, a (type, statute-or-"unknown") pair that occurs exactly 2
    times has no group in the result of [findRecurringDefects], a pair
    that occurs exactly 3 times has a group with count 3, and the result
    is in descending order of count. *)
Theorem recurrence_threshold (analyses : list JsVal) (fs : list JsVal)
    (t s : string) :
  occurrences analyses = Ok fs ->
  Forall plainDefect fs ->
  exists r,
    findRecurringDefects analyses = Ok r /\
    (List.length (filter (occursAs t s) fs) = 2%nat ->
     forall g, In g r -> groupOf t s g = false) /\
    (List.length (filter (occursAs t s) fs) = 3%nat ->
     exists g, In g r /\ groupOf t s g = true /\ dc_count g = 3%nat) /\
    StronglySorted (fun a b => (dc_count b <= dc_count a)%nat) r.
Proof.
  intros Hfs Hplain.
  destruct (hasBar t) eqn:Ht.
  { destruct (plain_keys_count fs "" "" Hplain eq_refl) as (ks & Hks & _).
    pose proof (historyKeys_occurrences analyses fs ks Hfs Hks) as Hkeys.
    destruct (recurrence_threshold_by_key analyses ks "" Hkeys)
      as (r & Hr & _ & _ & Hsorted).
    exists r. rewrite (barred_type_never_occurs fs t s Hplain Ht).
    repeat split; try assumption; discriminate. }
  destruct (plain_keys_count fs t s Hplain Ht) as (ks & Hks & Hcount).
  pose proof (historyKeys_occurrences analyses fs ks Hfs Hks) as Hkeys.
  destruct (recurrence_threshold_by_key analyses ks (t ++ "|" ++ s) Hkeys)
    as (r & Hr & H2 & H3 & Hsorted).
  assert (Hgroups : Forall (fun g => plainFields (dc_type g) (dc_statute g)) r).
  { destruct (findRecurringDefects_groups analyses ks Hkeys) as (dc & Hdc & _ & _ & Hr').
    rewrite Hr in Hr'. injection Hr'; intros ->.
    apply (Permutation_Forall (sort_perm byCountDesc _)).
    apply Forall_forall. intros g Hg. apply filter_In in Hg. destruct Hg as [Hg _].
    revert g Hg. apply Forall_forall.
    apply (history_fields plainFields analyses fs [] dc Hfs).
    - eapply Forall_impl; [|exact Hplain]. now intros f [_ Hf].
    - constructor.
    - exact Hdc. }
  rewrite Forall_forall in Hgroups.
  exists r. split; [exact Hr|]. rewrite <- Hcount. split; [|split].
  - intros Hc g Hin.
    destruct (plainFields_key _ _ t s (Hgroups g Hin) Ht) as (key & Hkey & Hiff).
    destruct (groupOf t s g) eqn:Hg; [|reflexivity].
    exfalso. apply (H2 Hc g Hin). unfold keyOfGroup. rewrite Hkey.
    f_equal. now apply Hiff.
  - intros Hc. destruct (H3 Hc) as (g & Hin & Hkey & Hcnt).
    exists g. repeat split; try assumption.
    destruct (plainFields_key _ _ t s (Hgroups g Hin) Ht) as (key & Hkey' & Hiff).
    apply Hiff. unfold keyOfGroup in Hkey. rewrite Hkey' in Hkey. now injection Hkey.
  - exact Hsorted.
Qed.

Lemma recurrence_threshold_witness :
  (exists r,
     findRecurringDefects thresholdHistory = Ok r /\
     (forall g, In g r -> groupOf "B" "unknown" g = false) /\
     StronglySorted (fun a b => (dc_count b <= dc_count a)%nat) r) /\
  (exists r,
     findRecurringDefects thresholdHistory = Ok r /\
     exists g, In g r /\ groupOf "A" "s.1" g = true /\ dc_count g = 3%nat).
Proof.
  assert (Hplain : Forall plainDefect thresholdOccurrences).
  { repeat constructor;
      first [now (exists "A", "s.1") | now (exists "B", "unknown")]. }
  split.
  - destruct (recurrence_threshold thresholdHistory thresholdOccurrences
                "B" "unknown" eq_refl Hplain) as (r & Hr & H2 & _ & Hsorted).
    exists r. repeat split; [exact Hr| |exact Hsorted].
    apply H2. reflexivity.
  - destruct (recurrence_threshold thresholdHistory thresholdOccurrences
                "A" "s.1" eq_refl Hplain) as (r & Hr & _ & H3 & _).
    exists r. split; [exact Hr|]. apply H3. reflexivity.
Defined.

(* ================================================================== *)
(** * Shapes the engine is total on *)
(* ================================================================== *)

Lemma toString_primitive (v : JsVal) :
  primitive v = true -> exists s, toString v = Ok s.
Proof.
  destruct v; simpl; try discriminate; intros _; try (eexists; reflexivity).
  destruct b; eexists; reflexivity.
Qed.

Lemma textOrAbsent_primitive (v : JsVal) :
  textOrAbsent v = true -> primitive v = true.
Proof. destruct v; simpl; try reflexivity; discriminate. Qed.

Lemma or_else_primitive (v : JsVal) (s : string) :
  primitive v = true -> primitive (or_else v (JStr s)) = true.
Proof. unfold or_else. destruct (truthy v); trivial. Qed.

Lemma groupKey_returns (type statute : JsVal) :
  textOrAbsent type = true -> primitive statute = true ->
  exists key, groupKey type statute = Ok key.
Proof.
  intros Ht Hs. unfold groupKey.
  destruct (toString_primitive type (textOrAbsent_primitive _ Ht)) as [t ->].
  destruct (toString_primitive _ (or_else_primitive statute "unknown" Hs)) as [s ->].
  eexists; reflexivity.
Qed.

Lemma defectKey_returns (f : JsVal) :
  shapedDefect f -> exists key, defectKey f = Ok key.
Proof.
  intros (Hn & Ht & Hs). unfold defectKey.
  rewrite !(get_prop f) by assumption. cbn [bind].
  now apply groupKey_returns.
Qed.

Lemma mapM_returns {A B : Type} (f : A -> Res B) (l : list A) :
  Forall (fun x => exists y, f x = Ok y) l -> exists ys, mapM f l = Ok ys.
Proof.
  induction 1 as [|x l [y Hy] _ [ys Hys]]; simpl.
  - eexists; reflexivity.
  - rewrite Hy, Hys. eexists; reflexivity.
Qed.

Lemma flatMap_shaped (ps : list JsVal) :
  Forall shapedPreset ps ->
  exists fs, flatMap presetFindings ps = Ok fs /\ Forall shapedDefect fs.
Proof.
  induction 1 as [|p ps [Hn Hp] _ (fs & Hfs & Hshaped)]; simpl.
  - exists []. split; [reflexivity|constructor].
  - unfold presetFindings at 1. rewrite (get_prop p) by assumption. cbn [bind].
    rewrite Hfs. cbn [bind]. unfold shapedFindings in Hp.
    destruct (prop p "findings") as [| |b|n|s|items|props] eqn:Hv;
      simpl in Hp; unfold or_else; simpl; try rewrite Hp;
      try (eexists; split; [reflexivity|exact Hshaped]).
    + eexists; split; [reflexivity|]. apply Forall_app. now split.
    + discriminate.
Qed.

Lemma shaped_extract (analysis : JsVal) :
  shapedRecord analysis ->
  exists fs, extractFindings analysis = Ok fs /\ Forall shapedDefect fs.
Proof.
  intros (Hn & Hdirect & Hnested).
  unfold extractFindings, findingsOf.
  rewrite (get_prop analysis) by assumption. cbn [bind].
  destruct (truthy (prop analysis "findings")) eqn:Htruthy.
  - unfold shapedFindings in Hdirect.
    destruct (prop analysis "findings"); try congruence.
    eexists; split; [reflexivity|exact Hdirect].
  - specialize (Hnested eq_refl). unfold presetsOf in Hnested.
    rewrite (get_prop analysis) by assumption. cbn [bind].
    unfold get_opt. destruct (nullish (prop analysis "phases")) eqn:Hphases.
    + cbn [bind nullish]. exists []. split; [reflexivity|constructor].
    + rewrite (get_prop _ _ Hphases). cbn [bind].
      unfold shapedPresets in Hnested.
      destruct (prop (prop analysis "phases") "presetAnalysis")
        as [| |b|n|s|ps|props]; simpl in Hnested; try discriminate;
        try (exists []; split; [reflexivity|constructor]).
      cbn [nullish asArray bind].
      destruct (flatMap_shaped ps Hnested) as (fs & Hfs & Hshaped).
      rewrite Hfs. exists fs. split; [reflexivity|exact Hshaped].
Qed.

Lemma withoutFindings_extract (analysis : JsVal) :
  withoutFindings analysis -> extractFindings analysis = Ok [].
Proof.
  intros (Hn & Hdirect & Hpresets).
  unfold extractFindings, findingsOf.
  rewrite (get_prop analysis) by assumption. cbn [bind]. rewrite Hdirect.
  rewrite (get_prop analysis) by assumption. cbn [bind].
  unfold presetsOf in Hpresets. unfold get_opt.
  destruct (nullish (prop analysis "phases")) eqn:Hphases.
  - reflexivity.
  - rewrite (get_prop _ _ Hphases). cbn [bind]. rewrite Hpresets. reflexivity.
Qed.

Lemma shaped_keysOf (analysis : JsVal) :
  shapedRecord analysis -> exists ks, keysOf analysis = Ok ks.
Proof.
  intros H. destruct (shaped_extract analysis H) as (fs & Hfs & Hshaped).
  unfold keysOf. rewrite Hfs. cbn [bind].
  apply mapM_returns. eapply Forall_impl; [|exact Hshaped].
  apply defectKey_returns.
Qed.

Lemma shaped_historyKeys (analyses : list JsVal) :
  Forall shapedRecord analyses -> exists ks, historyKeys analyses = Ok ks.
Proof.
  intros H. unfold historyKeys.
  destruct (mapM_returns keysOf analyses) as [kss ->].
  - eapply Forall_impl; [|exact H]. apply shaped_keysOf.
  - eexists; reflexivity.
Qed.

Lemma countAnalysis_goodGroups (dc dc' : DefectCounts) (analysis : JsVal) :
  shapedRecord analysis ->
  Forall goodGroup (map snd dc) ->
  countAnalysis dc analysis = Ok dc' ->
  Forall goodGroup (map snd dc').
Proof.
  intros Ha Hdc.
  destruct (shaped_extract analysis Ha) as (fs & Hfs & Hshaped).
  apply (countAnalysis_fields
           (fun type statute => textOrAbsent type = true /\ primitive statute = true)
           analysis dc dc' fs Hfs); [|exact Hdc].
  eapply Forall_impl; [|exact Hshaped]. now intros f (_ & Ht & Hs).
Qed.

(** On a shaped history [findRecurringDefects] returns, and its groups
    carry a type that is a text or absent and a primitive statute. *)
Lemma findRecurringDefects_returns (analyses : list JsVal) :
  Forall shapedRecord analyses ->
  exists r, findRecurringDefects analyses = Ok r /\ Forall goodGroup r.
Proof.
  intros H. destruct (shaped_historyKeys analyses H) as [ks Hks].
  destruct (findRecurringDefects_groups analyses ks Hks)
    as (dc & Hdc & _ & _ & Hr).
  eexists. split; [exact Hr|].
  apply (Permutation_Forall (sort_perm byCountDesc _)).
  apply Forall_forall. intros g Hg. apply filter_In in Hg. destruct Hg as [Hg _].
  revert g Hg. apply Forall_forall.
  apply (forEach_invariant countAnalysis shapedRecord
           (fun dc => Forall goodGroup (map snd dc)) analyses) with (s := []);
    try assumption.
  - intros s x s' Hx Hs. now apply countAnalysis_goodGroups.
  - constructor.
Qed.

Lemma typeMentions_returns (type : JsVal) (a b : string) :
  textOrAbsent type = true -> exists m, typeMentions type a b = Ok m.
Proof.
  unfold typeMentions. destruct type; simpl; try discriminate;
    intros H; try (eexists; reflexivity).
  - rewrite negb_true_iff in H. rewrite H. eexists; reflexivity.
  - rewrite negb_true_iff in H. rewrite H. eexists; reflexivity.
  - destruct (negb (s =? "")); eexists; reflexivity.
Qed.

Lemma genericAdvice_returns (g : DefectCount) :
  goodGroup g -> exists r, genericAdvice g = Ok r.
Proof.
  intros [Ht Hs]. unfold genericAdvice.
  destruct (toString_primitive _ (textOrAbsent_primitive _ Ht)) as [t ->].
  destruct (toString_primitive _ (or_else_primitive (dc_statute g) "this requirement" Hs))
    as [s ->].
  eexists; reflexivity.
Qed.

Lemma recommend_returns (recs : list Recommendation) (g : DefectCount) :
  goodGroup g -> exists recs', recommend recs g = Ok recs'.
Proof.
  intros Hg. unfold recommend.
  destruct (typeMentions_returns (dc_type g) "55d" "directions" (proj1 Hg)) as [m1 ->].
  destruct (typeMentions_returns (dc_type g) "49" "reason to believe" (proj1 Hg))
    as [m2 ->].
  destruct (typeMentions_returns (dc_type g) "464" "caution" (proj1 Hg)) as [m3 ->].
  cbn [bind].
  destruct (_ && _).
  - destruct (genericAdvice_returns g Hg) as [r ->]. eexists; reflexivity.
  - eexists; reflexivity.
Qed.

Lemma generateRecommendations_returns (analyses : list JsVal) :
  Forall shapedRecord analyses ->
  exists recurring pushed,
    findRecurringDefects analyses = Ok recurring /\
    forEach recommend recurring [] = Ok pushed /\
    generateRecommendations analyses = Ok (sort byPriority pushed).
Proof.
  intros H. destruct (findRecurringDefects_returns analyses H) as (r & Hr & Hgood).
  destruct (forEach_returns recommend goodGroup (fun _ => True) r) with (s := @nil Recommendation)
    as (pushed & Hpushed & _); try assumption; try exact I.
  { intros s x Hx _. destruct (recommend_returns s x Hx) as [s' Hs'].
    exists s'. now split. }
  exists r, pushed. repeat split; try assumption.
  unfold generateRecommendations. rewrite Hr. cbn [bind]. rewrite Hpushed. reflexivity.
Qed.

Lemma countWhere_returns (fs : list JsVal) :
  Forall shapedDefect fs -> exists n, countWhere isHighOrCritical fs = Ok n.
Proof.
  induction 1 as [|f fs (Hn & _) _ [n Hcount]]; simpl.
  - eexists; reflexivity.
  - unfold isHighOrCritical at 1. rewrite (get_prop f) by assumption. cbn [bind].
    rewrite Hcount. eexists; reflexivity.
Qed.

Lemma severityCount_returns (analysis : JsVal) :
  shapedRecord analysis -> exists n, severityCount analysis = Ok n.
Proof.
  intros H. destruct (shaped_extract analysis H) as (fs & Hfs & Hshaped).
  unfold severityCount. rewrite Hfs. cbn [bind]. now apply countWhere_returns.
Qed.

Lemma Forall_skipn {A : Type} (P : A -> Prop) (n : nat) (l : list A) :
  Forall P l -> Forall P (skipn n l).
Proof.
  intros H. rewrite <- (firstn_skipn n l) in H. now apply Forall_app in H.
Qed.

Lemma severityCounts_return (analyses : list JsVal) :
  Forall shapedRecord analyses ->
  exists counts, mapM severityCount (lastFive analyses) = Ok counts.
Proof.
  intros H. apply mapM_returns. unfold lastFive.
  eapply Forall_impl; [|apply Forall_skipn; exact H].
  apply severityCount_returns.
Qed.

Lemma analyzeTrends_returns (analyses : list JsVal) :
  Forall shapedRecord analyses -> exists t, analyzeTrends analyses = Ok t.
Proof.
  intros H. unfold analyzeTrends.
  destruct (List.length analyses <? 3)%nat; [eexists; reflexivity|].
  destruct (severityCounts_return analyses H) as [counts ->].
  eexists; reflexivity.
Qed.

Lemma typesOf_returns (analysis : JsVal) :
  shapedRecord analysis -> exists ts, typesOf analysis = Ok ts.
Proof.
  intros H. destruct (shaped_extract analysis H) as (fs & Hfs & Hshaped).
  unfold typesOf. rewrite Hfs. cbn [bind].
  apply mapM_returns. eapply Forall_impl; [|exact Hshaped].
  intros f (Hn & _). rewrite (get_prop f) by assumption. eexists; reflexivity.
Qed.

Lemma novelEntry_returns (f : JsVal) :
  shapedDefect f -> exists e, novelEntry f = Ok e.
Proof.
  intros (Hn & Ht & _). unfold novelEntry.
  rewrite !(get_prop f) by assumption. cbn [bind].
  destruct (toString_primitive _ (textOrAbsent_primitive _ Ht)) as [t ->].
  eexists; reflexivity.
Qed.

Lemma identifyNovelIssues_returns (analyses : list JsVal) :
  Forall shapedRecord analyses -> exists r, identifyNovelIssues analyses = Ok r.
Proof.
  intros H. destruct analyses as [|a rest] eqn:Hlist; [eexists; reflexivity|].
  rewrite <- Hlist in *.
  destruct (exists_last (l := analyses)) as (earlier & latest & Heq);
    [rewrite Hlist; discriminate|].
  rewrite Heq in *. clear Hlist Heq.
  apply Forall_app in H. destruct H as [Hearlier Hlatest].
  inversion Hlatest as [|? ? Hl _]; subst.
  destruct (mapM_returns typesOf earlier) as [tss Htss].
  { eapply Forall_impl; [|exact Hearlier]. apply typesOf_returns. }
  destruct (shaped_extract latest Hl) as (fs & Hfs & Hshaped).
  rewrite (identifyNovelIssues_eq earlier latest tss fs Htss Hfs).
  - apply mapM_returns. apply Forall_forall. intros f Hin.
    apply filter_In in Hin. destruct Hin as [Hin _].
    apply novelEntry_returns. revert f Hin. now apply Forall_forall.
  - eapply Forall_impl; [|exact Hshaped]. now intros f (Hn & _).
Qed.

Lemma tallyFinding_returns (t : Tally) (f : JsVal) :
  shapedDefect f -> exists t', tallyFinding t f = Ok t'.
Proof.
  intros (Hn & Ht & _). unfold tallyFinding.
  rewrite !(get_prop f) by assumption. cbn [bind].
  destruct (toString_primitive _ (textOrAbsent_primitive _ Ht)) as [s ->].
  eexists; reflexivity.
Qed.

Lemma tallyAnalysis_returns (t : Tally) (analysis : JsVal) :
  shapedRecord analysis -> exists t', tallyAnalysis t analysis = Ok t'.
Proof.
  intros H. destruct (shaped_extract analysis H) as (fs & Hfs & Hshaped).
  unfold tallyAnalysis. rewrite Hfs. cbn [bind].
  destruct (forEach_returns tallyFinding shapedDefect (fun _ => True) fs)
    with (s := {| totalIssues := (totalIssues t + List.length fs)%nat;
                  criticalCount := criticalCount t; highCount := highCount t;
                  issueTypeCounts := issueTypeCounts t |})
    as (t' & Ht' & _); try assumption; try exact I.
  - intros s x Hx _. destruct (tallyFinding_returns s x Hx) as [s' ->].
    exists s'. now split.
  - exists t'. exact Ht'.
Qed.

Lemma tally_returns (analyses : list JsVal) (t : Tally) :
  Forall shapedRecord analyses -> exists t', forEach tallyAnalysis analyses t = Ok t'.
Proof.
  intros H.
  destruct (forEach_returns tallyAnalysis shapedRecord (fun _ => True) analyses)
    with (s := t) as (t' & Ht' & _); try assumption; try exact I.
  - intros s x Hx _. destruct (tallyAnalysis_returns s x Hx) as [s' ->].
    exists s'. now split.
  - exists t'. exact Ht'.
Qed.

Lemma calculateCompliance_returns (analyses : list JsVal) :
  Forall shapedRecord analyses -> exists m, calculateCompliance analyses = Ok m.
Proof.
  intros H. unfold calculateCompliance.
  destruct analyses as [|a rest] eqn:Hlist; [eexists; reflexivity|].
  rewrite <- Hlist in *.
  destruct (tally_returns analyses
              {| totalIssues := 0; criticalCount := 0; highCount := 0;
                 issueTypeCounts := [] |} H)
    as [t ->].
  eexists; reflexivity.
Qed.

(** C9, as stated, fails: a record whose [findings] is an object instead
    of an array, one whose findings hold [null], and one whose preset
    grouping is a text are not treated as empty; the operations throw a
    TypeError on them. *)
Lemma malformed_shapes_throw :
  findRecurringDefects [objectForFindings] = Throw TypeError /\
  analyzeTrends [objectForFindings; objectForFindings; objectForFindings]
    = Throw TypeError /\
  identifyNovelIssues [objectForFindings] = Throw TypeError /\
  calculateCompliance [objectForFindings] = Throw TypeError /\
  generateRecommendations [objectForFindings] = Throw TypeError /\
  findRecurringDefects [nullFinding] = Throw TypeError /\
  calculateCompliance [textForPresets] = Throw TypeError.
Proof. repeat split; reflexivity. Qed.

(** C9, amended: on every history whose records are shaped (a record
    that is not null, [findings] absent or an array, the preset grouping
    absent or an array of presets whose [findings] are absent or arrays,
    every finding a non-null value with a text or absent type and a
    primitive statute) each of the five operations returns normally; and
    a record with neither findings nor a preset grouping contributes the
    empty sequence of findings. *)
Theorem engine_total_on_shaped_histories (analyses : list JsVal) :
  Forall shapedRecord analyses ->
  returns (findRecurringDefects analyses) /\
  returns (analyzeTrends analyses) /\
  returns (identifyNovelIssues analyses) /\
  returns (calculateCompliance analyses) /\
  returns (generateRecommendations analyses) /\
  Forall (fun a => withoutFindings a -> extractFindings a = Ok []) analyses.
Proof.
  intros H. unfold returns. repeat split.
  - destruct (findRecurringDefects_returns analyses H) as (r & Hr & _). now exists r.
  - now apply analyzeTrends_returns.
  - now apply identifyNovelIssues_returns.
  - now apply calculateCompliance_returns.
  - destruct (generateRecommendations_returns analyses H) as (r & p & _ & _ & Hg).
    eexists. exact Hg.
  - apply Forall_forall. intros a _. apply withoutFindings_extract.
Qed.

Lemma engine_total_on_shaped_histories_witness :
  returns (findRecurringDefects looseHistory) /\
  returns (analyzeTrends looseHistory) /\
  returns (identifyNovelIssues looseHistory) /\
  returns (calculateCompliance looseHistory) /\
  returns (generateRecommendations looseHistory) /\
  Forall (fun a => withoutFindings a -> extractFindings a = Ok []) looseHistory.
Proof.
  apply (engine_total_on_shaped_histories looseHistory).
  unfold looseHistory, shapedRecord, shapedPresets, shapedPreset, shapedFindings,
    shapedDefect.
  repeat constructor; simpl; try reflexivity; try discriminate;
    intros; repeat constructor.
Defined.

(* ================================================================== *)
(** * Recommendations *)
(* ================================================================== *)

Lemma byPriority_before (a b : Recommendation) :
  before byPriority a b <-> ranked a b.
Proof.
  unfold before, byPriority, ranked.
  destruct (Z.eqb_spec (rec_priority a - rec_priority b) 0) as [Hd|Hd].
  - split; intros H.
    + right. split; lia.
    + destruct H as [H|[_ H]]; lia.
  - split; intros H.
    + left. lia.
    + destruct H as [H|[H _]]; lia.
Qed.

Lemma byPriority_sorted (l : list Recommendation) :
  StronglySorted ranked (sort byPriority l).
Proof.
  apply (StronglySorted_weaken (before byPriority)).
  - intros a b. apply byPriority_before.
  - apply sort_sorted.
    + intros a b. unfold byPriority.
      destruct (Z.eqb_spec (rec_priority a - rec_priority b) 0);
        destruct (Z.eqb_spec (rec_priority b - rec_priority a) 0); lia.
    + intros a b c Hab Hbc.
      apply byPriority_before in Hab, Hbc. apply byPriority_before.
      unfold ranked in *. destruct Hab as [Hab|[Hab Hab']], Hbc as [Hbc|[Hbc Hbc']].
      * left; lia.
      * left; lia.
      * left; lia.
      * right; split; lia.
Qed.

Lemma byPriority_stable (p : Z) (f : nat) (l : list Recommendation) :
  filter (sameRank p f) (sort byPriority l) = filter (sameRank p f) l.
Proof.
  apply sort_stable. intros a b Ha Hb.
  unfold sameRank in Ha, Hb.
  apply andb_true_iff in Ha, Hb. destruct Ha as [Hpa Hfa], Hb as [Hpb Hfb].
  apply Z.eqb_eq in Hpa, Hpb. apply Nat.eqb_eq in Hfa, Hfb.
  unfold byPriority. replace (rec_priority a - rec_priority b)%Z with 0%Z by lia.
  simpl. lia.
Qed.

Lemma recommend_nothing (recs : list Recommendation) (g : DefectCount) :
  (dc_count g < 5)%nat ->
  typeMentions (dc_type g) "55d" "directions" = Ok false ->
  typeMentions (dc_type g) "49" "reason to believe" = Ok false ->
  typeMentions (dc_type g) "464" "caution" = Ok false ->
  recommend recs g = Ok recs.
Proof.
  intros Hc H1 H2 H3. unfold recommend. rewrite H1, H2, H3. cbn [bind pushIf].
  replace (5 <=? dc_count g)%nat with false
    by (symmetry; apply Nat.leb_gt; exact Hc).
  rewrite andb_false_r. reflexivity.
Qed.

Lemma generateRecommendations_inv (analyses : list JsVal) (r : list Recommendation) :
  generateRecommendations analyses = Ok r ->
  exists recurring pushed,
    findRecurringDefects analyses = Ok recurring /\
    forEach recommend recurring [] = Ok pushed /\
    r = sort byPriority pushed.
Proof.
  intros H. unfold generateRecommendations in H.
  destruct (findRecurringDefects analyses) as [recurring|e] eqn:Hrec;
    cbn [bind] in H; [|discriminate].
  destruct (forEach recommend recurring []) as [pushed|e] eqn:Hpushed;
    cbn [bind] in H; [|discriminate].
  exists recurring, pushed. repeat split; try assumption.
  injection H; intros <-. reflexivity.
Qed.

(** C8: whenever [generateRecommendations] returns (and on a shaped
    history it does), its list is the stable sort of the recommendations
    pushed for the recurring groups: it is in ascending order of priority
    and, within a priority, in descending order of frequency, and entries
    of equal priority and frequency keep the order in which they were
    pushed.  A recurring group with a count in [3,5) that matches no
    specialized rule has nothing pushed for it. *)
Theorem recommendations_ordered :
  (forall analyses : list JsVal,
      (Forall shapedRecord analyses -> returns (generateRecommendations analyses)) /\
      forall r,
        generateRecommendations analyses = Ok r ->
        StronglySorted ranked r /\
        exists recurring pushed,
          findRecurringDefects analyses = Ok recurring /\
          forEach recommend recurring [] = Ok pushed /\
          Permutation pushed r /\
          forall p f, filter (sameRank p f) r = filter (sameRank p f) pushed) /\
  (forall (g : DefectCount) (recs : list Recommendation),
      (3 <= dc_count g < 5)%nat ->
      typeMentions (dc_type g) "55d" "directions" = Ok false ->
      typeMentions (dc_type g) "49" "reason to believe" = Ok false ->
      typeMentions (dc_type g) "464" "caution" = Ok false ->
      recommend recs g = Ok recs).
Proof.
  split.
  - intros analyses. split.
    + intros H.
      destruct (generateRecommendations_returns analyses H) as (rc & p & _ & _ & Hg).
      eexists. exact Hg.
    + intros r Hr.
      destruct (generateRecommendations_inv analyses r Hr)
        as (recurring & pushed & Hrec & Hpushed & ->).
      split; [apply byPriority_sorted|].
      exists recurring, pushed. repeat split; try assumption.
      * apply sort_perm.
      * intros p f. apply byPriority_stable.
  - intros g recs [_ Hc]. now apply recommend_nothing.
Qed.

Lemma recommendations_ordered_witness :
  (returns (generateRecommendations recurringHistory) /\
   forall r,
     generateRecommendations recurringHistory = Ok r ->
     StronglySorted ranked r /\
     exists recurring pushed,
       findRecurringDefects recurringHistory = Ok recurring /\
       forEach recommend recurring [] = Ok pushed /\
       Permutation pushed r /\
       forall p f, filter (sameRank p f) r = filter (sameRank p f) pushed) /\
  recommend []
    {| dc_type := JStr "Unsigned statement"; dc_statute := JUndefined;
       dc_severity := JStr "LOW"; dc_count := 3;
       dc_firstSeen := JStr "2024-02-01T00:00:00.000Z";
       dc_lastSeen := JStr "2024-02-01T00:00:00.000Z";
       dc_descriptions := [JUndefined; JUndefined; JUndefined];
       dc_analysisIds := [JNum 0; JNum 1; JNum 2] |} = Ok [].
Proof.
  split.
  - destruct (proj1 recommendations_ordered recurringHistory) as [Hreturns Hsorted].
    split; [|exact Hsorted].
    apply Hreturns.
    unfold recurringHistory, shapedRecord, shapedFindings, shapedDefect.
    repeat constructor; simpl; try reflexivity; try discriminate;
      intros; repeat constructor.
  - apply (proj2 recommendations_ordered); [cbn [dc_count]; lia|reflexivity..].
Defined.

(* ================================================================== *)
(** * Rounding *)
(* ================================================================== *)

Section Rounding.

Local Open Scope Q_scope.

Lemma two_neq_0 : ~ (2 == 0).
Proof. discriminate. Qed.

Lemma pow2_pos (e : Z) : 0 < 2 ^ e.
Proof. apply Qpower_0_lt. reflexivity. Qed.

Lemma pow2_succ (e : Z) : 2 ^ (e + 1) == 2 ^ e * 2.
Proof. rewrite Qpower_plus by exact two_neq_0. reflexivity. Qed.

Lemma Zlog2_bounds_Q (a : Z) :
  (0 < a)%Z -> 2 ^ Z.log2 a <= inject_Z a /\ inject_Z a < 2 ^ (Z.log2 a + 1).
Proof.
  intros Ha. destruct (Z.log2_spec a Ha) as [Hlo Hhi].
  pose proof (Z.log2_nonneg a) as Hnn.
  split.
  - rewrite <- (Zpower_Qpower 2) by assumption. rewrite <- Zle_Qle. exact Hlo.
  - rewrite <- (Zpower_Qpower 2) by lia. rewrite <- Zlt_Qlt.
    replace (Z.log2 a + 1)%Z with (Z.succ (Z.log2 a)) by lia. exact Hhi.
Qed.

Lemma ilog2_spec (x : Q) :
  0 < x -> 2 ^ ilog2 x <= x /\ x < 2 ^ (ilog2 x + 1).
Proof.
  intros Hx. destruct x as [a b].
  assert (Ha : (0 < a)%Z).
  { unfold Qlt in Hx; simpl in Hx. lia. }
  destruct (Zlog2_bounds_Q a Ha) as [Halo Hahi].
  destruct (Zlog2_bounds_Q (Zpos b) eq_refl) as [Hblo Hbhi].
  set (la := Z.log2 a) in *. set (lb := Z.log2 (Zpos b)) in *.
  assert (HB : 0 < inject_Z (Zpos b)) by reflexivity.
  assert (HxB : (a # b) * inject_Z (Zpos b) == inject_Z a).
  { unfold Qeq, Qmult, inject_Z; simpl. lia. }
  assert (Hup : a # b < 2 ^ (la - lb + 1)).
  { apply (Qmult_lt_r _ _ (inject_Z (Zpos b))); [exact HB|].
    rewrite HxB.
    apply Qlt_le_trans with (2 ^ (la + 1)); [exact Hahi|].
    replace (la + 1)%Z with ((la - lb + 1) + lb)%Z by lia.
    rewrite Qpower_plus by exact two_neq_0.
    apply Qmult_le_l; [apply pow2_pos|exact Hblo]. }
  assert (Hlow : 2 ^ (la - lb - 1) < a # b).
  { apply (Qmult_lt_r _ _ (inject_Z (Zpos b))); [exact HB|].
    rewrite HxB.
    apply Qlt_le_trans with (2 ^ la); [|exact Halo].
    replace la with ((la - lb - 1) + (lb + 1))%Z at 2 by lia.
    rewrite Qpower_plus by exact two_neq_0.
    apply Qmult_lt_l; [apply pow2_pos|exact Hbhi]. }
  unfold ilog2. cbn [Qnum Qden]. fold la lb.
  destruct (Qle_bool (2 ^ (la - lb)) (a # b)) eqn:Hle.
  - apply Qle_bool_iff in Hle. split; assumption.
  - split.
    + apply Qlt_le_weak. exact Hlow.
    + replace (la - lb - 1 + 1)%Z with (la - lb)%Z by lia.
      apply Qnot_le_lt. intros H. apply Qle_bool_iff in H. congruence.
Qed.

Lemma rne_ge_floor (y : Q) : (Qfloor y <= rne y)%Z.
Proof.
  unfold rne. destruct (Qcompare _ _); [destruct (Z.even _)| |]; lia.
Qed.

Lemma rne_ge_int (N : Z) (y : Q) : inject_Z N <= y -> (N <= rne y)%Z.
Proof.
  intros H. apply Qfloor_resp_le in H. rewrite Qfloor_Z in H.
  pose proof (rne_ge_floor y). lia.
Qed.

Lemma div_pow2_ge (N : Z) (x : Q) (e : Z) :
  inject_Z N * 2 ^ e <= x -> inject_Z N <= x / 2 ^ e.
Proof.
  intros H. apply Qle_shift_div_l; [apply pow2_pos|exact H].
Qed.

(** Rounding does not go below a multiple of the last place that the
    value has reached. *)
Lemma rnd_lower (N : Z) (x : Q) :
  inject_Z N * 2 ^ ulp_exp x <= x -> inject_Z N * 2 ^ ulp_exp x <= rnd x.
Proof.
  intros H. unfold rnd.
  apply Qmult_le_compat_r; [|apply Qlt_le_weak, pow2_pos].
  rewrite <- Zle_Qle. apply rne_ge_int, div_pow2_ge, H.
Qed.

Lemma ulp_exp_normal (x : Q) :
  (-1074 <= ilog2 x - 52)%Z -> ulp_exp x = (ilog2 x - 52)%Z.
Proof. unfold ulp_exp. lia. Qed.

(** In the normal range the significand has 53 bits. *)
Lemma rnd_normal_lower (x : Q) :
  0 < x -> (-1074 <= ilog2 x - 52)%Z ->
  2 ^ ilog2 x <= rnd x.
Proof.
  intros Hx Hn. pose proof (ulp_exp_normal x Hn) as He.
  destruct (ilog2_spec x Hx) as [Hlo _].
  assert (Hk : 2 ^ ilog2 x == inject_Z (2 ^ 52) * 2 ^ ulp_exp x).
  { rewrite He. rewrite (Zpower_Qpower 2) by lia.
    rewrite <- Qpower_plus by exact two_neq_0.
    replace (52 + (ilog2 x - 52))%Z with (ilog2 x) by lia. reflexivity. }
  rewrite Hk. apply rnd_lower. rewrite <- Hk. exact Hlo.
Qed.

(** Rounding never takes a value below an integer that binary64 holds. *)
Lemma rnd_ge_int (n : Z) (x : Q) :
  (0 < n <= 2 ^ 53)%Z -> inject_Z n <= x -> inject_Z n <= rnd x.
Proof.
  intros [Hn0 Hn] Hx.
  assert (Hxpos : 0 < x).
  { apply Qlt_le_trans with (inject_Z n); [|exact Hx].
    change 0 with (inject_Z 0). rewrite <- Zlt_Qlt. exact Hn0. }
  destruct (Z_le_gt_dec (ulp_exp x) 0) as [He|He].
  - assert (Hk : inject_Z n == inject_Z (n * 2 ^ (- ulp_exp x)) * 2 ^ ulp_exp x).
    { rewrite inject_Z_mult. rewrite (Zpower_Qpower 2) by lia.
      rewrite <- Qmult_assoc. rewrite <- Qpower_plus by exact two_neq_0.
      replace (- ulp_exp x + ulp_exp x)%Z with 0%Z by lia.
      simpl. ring. }
    rewrite Hk at 1. apply rnd_lower. rewrite <- Hk. exact Hx.
  - assert (Hnorm : (-1074 <= ilog2 x - 52)%Z) by (unfold ulp_exp in He; lia).
    apply Qle_trans with (2 ^ ilog2 x); [|now apply rnd_normal_lower].
    apply Qle_trans with (2 ^ 53).
    + rewrite <- (Zpower_Qpower 2) by lia. rewrite <- Zle_Qle. exact Hn.
    + apply Qpower_le_compat_l; [|discriminate].
      rewrite (ulp_exp_normal x Hnorm) in He. lia.
Qed.

Lemma rne_nonneg (y : Q) : 0 <= y -> (0 <= rne y)%Z.
Proof. intros H. apply (rne_ge_int 0). exact H. Qed.

Lemma rnd_nonneg (x : Q) : 0 <= x -> 0 <= rnd x.
Proof.
  intros Hx. unfold rnd. apply Qmult_le_0_compat.
  - change 0 with (inject_Z 0). rewrite <- Zle_Qle. apply rne_nonneg.
    apply Qle_shift_div_l; [apply pow2_pos|]. rewrite Qmult_0_l. exact Hx.
  - apply Qlt_le_weak, pow2_pos.
Qed.

Lemma fl_pos_nonneg (x : Q) : 0 <= x -> leb (Fin 0) (fl_pos x false) = true.
Proof.
  intros Hx. unfold fl_pos. destruct (Qle_bool (2 ^ 1024) (rnd x)); [reflexivity|].
  unfold leb. apply Qle_bool_iff. rewrite Qred_correct. now apply rnd_nonneg.
Qed.

Lemma fl_pos_nonpos (x : Q) : 0 <= x -> leb (fl_pos x true) (Fin 0) = true.
Proof.
  intros Hx. unfold fl_pos. destruct (Qle_bool (2 ^ 1024) (rnd x)); [reflexivity|].
  unfold leb. apply Qle_bool_iff. rewrite Qred_correct.
  pose proof (rnd_nonneg x Hx) as H. lra.
Qed.

Lemma fl_nonneg (x : Q) : 0 <= x -> leb (Fin 0) (fl x) = true.
Proof.
  intros Hx. unfold fl. destruct (Qcompare_spec x 0) as [H|H|H].
  - reflexivity.
  - lra.
  - now apply fl_pos_nonneg.
Qed.

Lemma fl_nonpos (x : Q) : x <= 0 -> leb (fl x) (Fin 0) = true.
Proof.
  intros Hx. unfold fl. destruct (Qcompare_spec x 0) as [H|H|H].
  - reflexivity.
  - apply fl_pos_nonpos. lra.
  - lra.
Qed.

(** The value of a result that is at least an integer binary64 holds is
    at least that integer. *)
Lemma fl_ge_int (n : Z) (x : Q) :
  (0 < n <= 2 ^ 53)%Z -> inject_Z n <= x -> leb (Fin (inject_Z n)) (fl x) = true.
Proof.
  intros Hn Hx.
  assert (Hpos : 0 < x).
  { apply Qlt_le_trans with (inject_Z n); [|exact Hx].
    change 0 with (inject_Z 0). rewrite <- Zlt_Qlt. lia. }
  unfold fl. destruct (Qcompare_spec x 0) as [H|H|H]; try lra.
  unfold fl_pos. destruct (Qle_bool (2 ^ 1024) (rnd x)); [reflexivity|].
  unfold leb. apply Qle_bool_iff. rewrite Qred_correct. now apply rnd_ge_int.
Qed.

(** A result of the normal range does not round to zero. *)
Lemma fl_positive (x : Q) :
  2 ^ (-1022) <= x -> gtb (fl x) (Fin 0) = true.
Proof.
  intros Hx.
  assert (Hpos : 0 < x).
  { apply Qlt_le_trans with (2 ^ (-1022)); [apply pow2_pos|exact Hx]. }
  destruct (ilog2_spec x Hpos) as [Hlo Hhi].
  assert (Hk : (-1022 <= ilog2 x)%Z).
  { destruct (Z_le_gt_dec (-1022) (ilog2 x)) as [H|H]; [exact H|exfalso].
    assert (2 ^ (ilog2 x + 1) <= 2 ^ (-1022))
      by (apply Qpower_le_compat_l; [lia|discriminate]).
    lra. }
  unfold fl. destruct (Qcompare_spec x 0) as [H|H|H]; try lra.
  unfold fl_pos. destruct (Qle_bool (2 ^ 1024) (rnd x)); [reflexivity|].
  unfold gtb, ltb. apply negb_true_iff.
  destruct (Qle_bool (Qred (rnd x)) 0) eqn:Hle; [|reflexivity].
  apply Qle_bool_iff in Hle. rewrite Qred_correct in Hle.
  assert (2 ^ ilog2 x <= rnd x) by (apply rnd_normal_lower; [exact Hpos|lia]).
  pose proof (pow2_pos (ilog2 x)). lra.
Qed.

End Rounding.

(* ================================================================== *)
(** * Trends *)
(* ================================================================== *)

(** C3, as stated, fails: with a first-half mean of 0 and a second-half
    mean of 10 the classification is WORSENING, not STABLE, and its
    message carries the quotient by the zero mean. *)
Lemma worsening_from_zero_average :
  mapM severityCount (lastFive zeroThenTen) = Ok [0; 0; 10; 10]%nat /\
  average [0; 0]%nat = Fin 0 /\
  exists t,
    analyzeTrends zeroThenTen = Ok (TrendReport t) /\
    tr_direction t = "WORSENING" /\
    tr_direction t <> "STABLE" /\
    tr_message t = "⚠️ High-severity issues increased Infinity% in recent analyses" /\
    tr_firstAvg t = "0.0" /\
    tr_secondAvg t = "10.0".
Proof.
  split; [vm_compute; reflexivity|]. split; [vm_compute; reflexivity|].
  exists (classifyTrend (average [0; 0]%nat) (average [10; 10]%nat)).
  split; [vm_compute; reflexivity|].
  repeat split; try (vm_compute; reflexivity).
  vm_compute. discriminate.
Qed.

Lemma classifyTrend_zero (secondAvg : JsNum) :
  tr_direction (classifyTrend (Fin 0) secondAvg) =
  if gtb secondAvg (Fin 0) then "WORSENING" else "STABLE".
Proof.
  unfold classifyTrend.
  replace (mul (Fin 0) lit_1_2) with (Fin 0) by (vm_compute; reflexivity).
  destruct (gtb secondAvg (Fin 0)); [reflexivity|].
  replace (gtb (Fin 0) (Fin 0)) with false by reflexivity.
  rewrite andb_false_r. reflexivity.
Qed.

Lemma fold_add_from (l : list nat) (a : nat) :
  fold_left Nat.add l a = (a + fold_left Nat.add l 0)%nat.
Proof.
  revert a. induction l as [|x l IH]; intros a; simpl; [lia|].
  rewrite (IH (a + x)%nat), (IH x). lia.
Qed.

(** The mean of counts is zero when they are all zero and positive
    otherwise (for a window of the size [analyzeTrends] uses). *)
Lemma average_sign (l : list nat) :
  (0 < List.length l <= 5)%nat ->
  (total l = 0%nat -> average l = Fin 0) /\
  (0 < total l -> gtb (average l) (Fin 0) = true)%nat.
Proof.
  intros [Hlen0 Hlen5]. unfold average. fold (total l).
  assert (Hn : Qeq_bool (inject_Z (Z.of_nat (List.length l))) 0 = false).
  { destruct (Qeq_bool _ 0) eqn:H; [|reflexivity].
    apply Qeq_bool_iff in H. unfold Qeq in H; simpl in H. lia. }
  split; intros Ht; unfold div, ofNat; rewrite Hn.
  - rewrite Ht. unfold fl.
    replace (Qcompare (inject_Z (Z.of_nat 0) / inject_Z (Z.of_nat (List.length l))) 0)
      with Eq; [reflexivity|].
    symmetry. apply Qeq_alt. unfold Qdiv. simpl. ring.
  - apply fl_positive.
    apply Qle_trans with (1 # 5); [discriminate|].
    apply Qle_shift_div_l.
    + change 0%Q with (inject_Z 0). rewrite <- Zlt_Qlt. lia.
    + apply Qle_trans with 1%Q.
      * unfold Qle, Qmult, inject_Z; cbn [Qnum Qden]. lia.
      * change 1%Q with (inject_Z 1). rewrite <- Zle_Qle. lia.
Qed.

Lemma mapM_length {A B : Type} (f : A -> Res B) (l : list A) : forall ys,
  mapM f l = Ok ys -> List.length ys = List.length l.
Proof.
  induction l as [|x l IH]; simpl; intros ys.
  - intros H; injection H; intros <-. reflexivity.
  - destruct (f x); cbn [bind]; [|discriminate].
    destruct (mapM f l); cbn [bind]; [|discriminate].
    intros H; injection H; intros <-. simpl. now rewrite IH.
Qed.

(** C3, amended: for a history of at least 3 records whose first-half
    mean of high/critical counts is zero, [analyzeTrends] returns STABLE
    when the second-half mean is zero as well and WORSENING when it is
    positive (it is positive exactly when some later count is), never
    IMPROVING. *)
Theorem zero_first_average (analyses : list JsVal) (counts : list nat) :
  (3 <= List.length analyses)%nat ->
  mapM severityCount (lastFive analyses) = Ok counts ->
  average (firstn (List.length counts / 2) counts) = Fin 0 ->
  exists t,
    analyzeTrends analyses = Ok (TrendReport t) /\
    tr_direction t =
      (if gtb (average (skipn (List.length counts / 2) counts)) (Fin 0)
       then "WORSENING" else "STABLE") /\
    (gtb (average (skipn (List.length counts / 2) counts)) (Fin 0) = true <->
     (0 < total (skipn (List.length counts / 2) counts))%nat).
Proof.
  intros Hlen Hcounts Hfirst.
  eexists. split; [|split].
  - unfold analyzeTrends.
    replace (List.length analyses <? 3)%nat with false
      by (symmetry; apply Nat.ltb_ge; exact Hlen).
    rewrite Hcounts. cbn [bind]. rewrite Hfirst. reflexivity.
  - apply classifyTrend_zero.
  - pose proof (mapM_length _ _ _ Hcounts) as Hl.
    unfold lastFive in Hl. rewrite length_skipn in Hl.
    assert (Hsecond : (0 < List.length (skipn (List.length counts / 2) counts) <= 5)%nat).
    { rewrite length_skipn.
      pose proof (Nat.div_lt (List.length counts) 2).
      lia. }
    destruct (average_sign _ Hsecond) as [Hzero Hpos].
    split; [|exact Hpos].
    intros Hgt. destruct (total (skipn (List.length counts / 2) counts)) eqn:Ht; [|lia].
    rewrite (Hzero eq_refl) in Hgt. discriminate.
Qed.

Lemma zero_first_average_witness :
  (exists t,
     analyzeTrends quietHistory = Ok (TrendReport t) /\
     tr_direction t = "STABLE" /\
     (gtb (average [0; 0]%nat) (Fin 0) = true <-> (0 < total [0; 0]%nat)%nat)) /\
  (exists t,
     analyzeTrends zeroThenTen = Ok (TrendReport t) /\
     tr_direction t = "WORSENING" /\
     (gtb (average [10; 10]%nat) (Fin 0) = true <-> (0 < total [10; 10]%nat)%nat)).
Proof.
  split.
  - apply (zero_first_average quietHistory [0; 0; 0]%nat).
    + simpl. lia.
    + reflexivity.
    + reflexivity.
  - apply (zero_first_average zeroThenTen [0; 0; 10; 10]%nat).
    + simpl. lia.
    + reflexivity.
    + reflexivity.
Defined.

(* ================================================================== *)
(** * Compliance *)
(* ================================================================== *)

Lemma fl_not_NaN (x : Q) : isNaN (fl x) = false.
Proof.
  unfold fl, fl_pos.
  destruct (Qcompare x 0); try reflexivity;
    destruct (Qle_bool _ _); reflexivity.
Qed.

Lemma toNumber_toFixed1_not_NaN (a : JsNum) :
  isNaN a = false -> isNaN (toNumber (toFixed1 a)) = false.
Proof.
  destruct a as [|neg|x]; simpl; [discriminate|reflexivity|].
  intros _. destruct (Qsign_neg x); apply fl_not_NaN.
Qed.

Lemma times_five_not_NaN (a : JsNum) : isNaN a = false -> isNaN (mul a (Fin 5)) = false.
Proof.
  destruct a as [|neg|x]; simpl; [discriminate|reflexivity|].
  intros _. apply fl_not_NaN.
Qed.

Lemma hundred_minus_not_NaN (b : JsNum) :
  isNaN b = false -> isNaN (sub (Fin 100) b) = false.
Proof.
  destruct b as [|neg|x]; simpl; [discriminate|reflexivity|].
  intros _. apply fl_not_NaN.
Qed.

(** The rate written from a score that is a number is not negative. *)
Lemma rate_nonneg (y : JsNum) :
  isNaN y = false -> geb (toNumber (toFixed1 (max (Fin 0) y))) (Fin 0) = true.
Proof.
  unfold geb. destruct y as [|neg|x]; [discriminate| |]; intros _.
  - destruct neg; vm_compute; reflexivity.
  - unfold max, ltb. destruct (Qle_bool x 0) eqn:Hx; cbn [negb].
    + vm_compute. reflexivity.
    + assert (Hpos : (0 < x)%Q).
      { apply Qnot_le_lt. intros H. apply Qle_bool_iff in H. congruence. }
      unfold toFixed1, Qsign_neg.
      replace (Qle_bool 0 x) with true
        by (symmetry; apply Qle_bool_iff; apply Qlt_le_weak; exact Hpos).
      cbn [negb toNumber]. apply fl_nonneg.
      assert (Hd : (0 <= Qfloor (x * 10 + (1 # 2)))%Z).
      { change 0%Z with (Qfloor 0). apply Qfloor_resp_le. lra. }
      unfold Qle; cbn [Qnum Qden]. lia.
Qed.

(** A score of at most zero is written as the rate 0. *)
Lemma rate_floor (y : JsNum) :
  leb y (Fin 0) = true -> toNumber (toFixed1 (max (Fin 0) y)) = Fin 0.
Proof.
  destruct y as [|neg|x]; [discriminate| |]; unfold leb.
  - intros ->. vm_compute. reflexivity.
  - intros Hx. unfold max, ltb. rewrite Hx. vm_compute. reflexivity.
Qed.

(** From an average of 20 on, the score is at most zero. *)
Lemma score_floor (avg : JsNum) :
  geb avg (Fin 20) = true ->
  leb (sub (Fin 100) (mul avg (Fin 5))) (Fin 0) = true.
Proof.
  unfold geb. destruct avg as [|neg|a]; [discriminate| |].
  - destruct neg; [discriminate|]. intros _. vm_compute. reflexivity.
  - unfold leb at 1. intros Ha. apply Qle_bool_iff in Ha.
    unfold mul.
    pose proof (fl_ge_int 100 (a * 5)) as Hge.
    destruct (fl (a * 5)) as [|neg|b] eqn:Hb.
    + pose proof (fl_not_NaN (a * 5)) as Hn. rewrite Hb in Hn. discriminate.
    + destruct neg; [|vm_compute; reflexivity].
      assert (leb (Fin (inject_Z 100)) (Inf true) = true) as Hc.
      { apply Hge; [lia|]. change (inject_Z 100) with 100%Q. lra. }
      discriminate Hc.
    + assert (Hle : leb (Fin (inject_Z 100)) (Fin b) = true).
      { apply Hge; [lia|]. change (inject_Z 100) with 100%Q. lra. }
      unfold leb in Hle. apply Qle_bool_iff in Hle.
      change (inject_Z 100) with 100%Q in Hle.
      unfold sub, opp, add. apply fl_nonpos.
      rewrite Qred_correct. lra.
Qed.

Lemma average_not_NaN (issues count : nat) :
  (0 < count)%nat -> isNaN (div (ofNat issues) (ofNat count)) = false.
Proof.
  intros Hc. unfold div, ofNat.
  replace (Qeq_bool (inject_Z (Z.of_nat count)) 0) with false.
  - apply fl_not_NaN.
  - symmetry. destruct (Qeq_bool _ 0) eqn:H; [|reflexivity].
    apply Qeq_bool_iff in H. unfold Qeq in H; simpl in H. lia.
Qed.

Lemma calculateCompliance_inv (analyses : list JsVal) (m : ComplianceMetrics) :
  calculateCompliance analyses = Ok m ->
  (analyses = [] /\ m = noAnalyses) \/
  (analyses <> [] /\ exists t, m = metricsOf (List.length analyses) t).
Proof.
  destruct analyses as [|a rest].
  - intros H. left. split; [reflexivity|]. injection H; intros <-. reflexivity.
  - unfold calculateCompliance. intros H. right. split; [discriminate|].
    destruct (forEach tallyAnalysis (a :: rest) _) as [t|e]; cbn [bind] in H;
      [|discriminate].
    exists t. injection H; intros <-. reflexivity.
Qed.

(* ================================================================== *)
(** * Outcome counters over a whole ledger *)
(* ================================================================== *)

Lemma strictEq_sym (a b : JsVal) : strictEq a b = strictEq b a.
Proof.
  destruct a, b; simpl; try reflexivity.
  - now destruct b, b0.
  - apply Z.eqb_sym.
  - apply String.eqb_sym.
Qed.

Lemma mapGet_mapUpdate (k t : JsVal) (f : DefectSuccessStats -> DefectSuccessStats)
    (m : SuccessRates) :
  mapGet k (mapUpdate t f m) =
  if strictEq t k then option_map f (mapGet k m) else mapGet k m.
Proof.
  induction m as [|[k' v] rest IH]; simpl.
  - now destruct (strictEq t k).
  - destruct (strictEq k' t) eqn:Ht; simpl.
    + apply strictEq_eq in Ht. subst k'.
      now destruct (strictEq t k).
    + destruct (strictEq k' k) eqn:Hk; [|exact IH].
      apply strictEq_eq in Hk. subst k'.
      rewrite strictEq_sym, Ht. reflexivity.
Qed.

Lemma mapGet_app (k : JsVal) (m m' : SuccessRates) :
  mapGet k (m ++ m')%list =
  match mapGet k m with
  | Some v => Some v
  | None => mapGet k m'
  end.
Proof.
  induction m as [|[k' v] rest IH]; simpl; [reflexivity|].
  now destruct (strictEq k' k).
Qed.

Section Counters.

(** A counter that every recorded outcome raises by [inc entry]. *)
Variable sel : DefectSuccessStats -> nat.
Variable inc : OutcomeEntry -> nat.
Hypothesis sel_fresh : forall t, sel (freshStats t) = 0%nat.
Hypothesis sel_record :
  forall e s, sel (recordOutcome e s) = (sel s + inc e)%nat.

Lemma counter_raiseDefect (e : OutcomeEntry) (m : SuccessRates) (t k : JsVal) :
  counter sel k {| successRates := raiseDefect e m t |} =
  (counter sel k {| successRates := m |} +
   if strictEq t k then inc e else 0)%nat.
Proof.
  unfold counter, raiseDefect. cbn [successRates].
  destruct (mapGet t m) as [s|] eqn:Hs.
  - rewrite mapGet_mapUpdate.
    destruct (strictEq t k) eqn:Htk; [|lia].
    apply strictEq_eq in Htk. subst k. rewrite Hs. simpl.
    apply sel_record.
  - rewrite mapGet_app.
    destruct (mapGet k m) as [s|] eqn:Hk.
    + destruct (strictEq t k) eqn:Htk; [|lia].
      apply strictEq_eq in Htk. subst k. congruence.
    + simpl. destruct (strictEq t k); [|reflexivity].
      rewrite sel_record, sel_fresh. reflexivity.
Qed.

Lemma counter_raise_all (e : OutcomeEntry) (k : JsVal) (items : list JsVal) :
  forall m,
    counter sel k {| successRates := fold_left (raiseDefect e) items m |} =
    (counter sel k {| successRates := m |} +
     inc e * List.length (filter (fun t => strictEq t k) items))%nat.
Proof.
  induction items as [|t rest IH]; intros m; cbn [fold_left filter].
  - simpl. lia.
  - rewrite IH, counter_raiseDefect.
    destruct (strictEq t k); simpl; lia.
Qed.

Lemma counter_learnFromOutcome (d d' : Detector) (analysisId outcome k : JsVal) :
  learnFromOutcome d analysisId outcome = Ok d' ->
  counter sel k d' =
  (counter sel k d +
   inc (entryOf outcome) *
   List.length (filter (fun t => strictEq t k) (raisedBy outcome)))%nat.
Proof.
  unfold learnFromOutcome, raisedBy.
  destruct (get outcome "defectsRaised") as [dr|] eqn:Hdr; cbn [bind];
    [|discriminate].
  destruct (get_returns_inv _ _ _ Hdr) as [Hnn ->].
  rewrite !(get_prop outcome) by exact Hnn. cbn [bind].
  destruct (prop outcome "defectsRaised");
    try (intros H; injection H; intros <-; simpl; lia).
  intros H; injection H; intros <-.
  destruct d as [m]. apply counter_raise_all.
Qed.

End Counters.

Lemma learnFromOutcome_returns (d : Detector) (analysisId outcome : JsVal) :
  nullish outcome = false -> exists d', learnFromOutcome d analysisId outcome = Ok d'.
Proof.
  intros Hnn. unfold learnFromOutcome.
  rewrite !(get_prop outcome) by exact Hnn. cbn [bind].
  destruct (prop outcome "defectsRaised"); eexists; reflexivity.
Qed.

Lemma replayOutcomes_cons (d : Detector) (o : JsVal) (rest : list JsVal) :
  replayOutcomes d (o :: rest) =
  (d' <- learnFromOutcome d (prop o "analysisId") o ;; replayOutcomes d' rest).
Proof.
  unfold replayOutcomes. cbn [forEach].
  destruct o; try reflexivity.
  cbn [get prop]. now destruct (own "analysisId" props).
Qed.

Lemma replayOutcomes_returns (outcomes : list JsVal) :
  Forall (fun o => nullish o = false) outcomes ->
  forall d, exists d', replayOutcomes d outcomes = Ok d'.
Proof.
  induction 1 as [|o rest Ho _ IH]; intros d.
  - now exists d.
  - rewrite replayOutcomes_cons.
    destruct (learnFromOutcome_returns d (prop o "analysisId") o Ho) as [d1 ->].
    cbn [bind]. apply IH.
Qed.

Lemma replayOutcomes_not_nullish (outcomes : list JsVal) :
  forall d d', replayOutcomes d outcomes = Ok d' ->
  Forall (fun o => nullish o = false) outcomes.
Proof.
  induction outcomes as [|o rest IH]; intros d d' H; [constructor|].
  rewrite replayOutcomes_cons in H.
  destruct (learnFromOutcome d (prop o "analysisId") o) as [d1|] eqn:H1;
    cbn [bind] in H; [|discriminate].
  constructor; [|now apply (IH d1 d')].
  unfold learnFromOutcome in H1.
  destruct (get o "defectsRaised") eqn:Hg; [|discriminate].
  now destruct (get_returns_inv _ _ _ Hg).
Qed.

Lemma total_record (e : OutcomeEntry) (s : DefectSuccessStats) :
  st_totalRaised (recordOutcome e s) = (st_totalRaised s + 1)%nat.
Proof. simpl. lia. Qed.

Lemma successful_record (e : OutcomeEntry) (s : DefectSuccessStats) :
  st_successful (recordOutcome e s) =
  (st_successful s + if isSuccessful (oe_outcome e) then 1 else 0)%nat.
Proof. simpl. destruct (isSuccessful (oe_outcome e)); lia. Qed.

Lemma unsuccessful_record (e : OutcomeEntry) (s : DefectSuccessStats) :
  st_unsuccessful (recordOutcome e s) =
  (st_unsuccessful s + if isSuccessful (oe_outcome e) then 0 else 1)%nat.
Proof. simpl. destruct (isSuccessful (oe_outcome e)); lia. Qed.

(** The counters after a replay, for any start: a type's [totalRaised]
    has grown by the number of times the ledger raises it, [successful]
    by the number of times a successful outcome does, [unsuccessful] by
    the rest. *)
Lemma replayOutcomes_counters (outcomes : list JsVal) (k : JsVal) :
  forall d d',
    replayOutcomes d outcomes = Ok d' ->
    counter st_totalRaised k d' =
      (counter st_totalRaised k d + timesRaised k outcomes)%nat /\
    counter st_successful k d' =
      (counter st_successful k d + timesRaised k (filter succeeded outcomes))%nat /\
    counter st_unsuccessful k d' =
      (counter st_unsuccessful k d + timesRaised k (filter failed outcomes))%nat.
Proof.
  unfold timesRaised.
  induction outcomes as [|o rest IH]; intros d d' H.
  - injection H; intros <-. simpl. lia.
  - rewrite replayOutcomes_cons in H.
    destruct (learnFromOutcome d (prop o "analysisId") o) as [d1|] eqn:H1;
      cbn [bind] in H; [|discriminate].
    destruct (IH d1 d' H) as (Ht & Hs & Hu).
    pose proof (counter_learnFromOutcome st_totalRaised (fun _ => 1%nat)
                  (fun _ => eq_refl) total_record d d1 _ o k H1) as Et.
    pose proof (counter_learnFromOutcome st_successful _
                  (fun _ => eq_refl) successful_record d d1 _ o k H1) as Es.
    pose proof (counter_learnFromOutcome st_unsuccessful _
                  (fun _ => eq_refl) unsuccessful_record d d1 _ o k H1) as Eu.
    cbn [oe_outcome entryOf] in Es, Eu.
    rewrite Ht, Hs, Hu, Et, Es, Eu. clear.
    cbn [filter flat_map].
    assert (Fo : failed o = negb (succeeded o)) by reflexivity.
    rewrite Fo. clear Fo.
    destruct (succeeded o) eqn:So; unfold succeeded in So; rewrite So;
      cbn [negb flat_map]; rewrite ?filter_app, ?length_app; lia.
Qed.

Lemma filter_perm {A : Type} (p : A -> bool) (l l' : list A) :
  Permutation l l' -> Permutation (filter p l) (filter p l').
Proof.
  induction 1 as [|x l l' _ IH|x y l|l l' l'' _ IH1 _ IH2]; cbn [filter].
  - constructor.
  - destruct (p x); [now constructor|exact IH].
  - destruct (p x), (p y); try apply Permutation_refl. apply perm_swap.
  - now apply perm_trans with (filter p l').
Qed.

Lemma timesRaised_perm (k : JsVal) (l l' : list JsVal) :
  Permutation l l' -> timesRaised k l = timesRaised k l'.
Proof.
  intros H. unfold timesRaised. apply Permutation_length, filter_perm.
  now apply Permutation_flat_map.
Qed.

Lemma counter_cleared (sel : DefectSuccessStats -> nat) (k : JsVal) (d0 : Detector) :
  counter sel k (reset d0) = 0%nat.
Proof. reflexivity. Qed.

(** X1: replaying a ledger of outcomes into a detector that
    was just reset returns as soon as no outcome is [undefined] or
    [null], and afterwards the counters of every defect type are the
    numbers of times the ledger raises it: [totalRaised] over all
    outcomes, [successful] over the successful ones, [unsuccessful] over
    the others.  A type listed twice by one outcome counts twice. *)
Theorem replay_counts_every_raise (d0 : Detector) (outcomes : list JsVal) :
  Forall (fun o => nullish o = false) outcomes ->
  exists d,
    replayOutcomes (reset d0) outcomes = Ok d /\
    forall k,
      counter st_totalRaised k d = timesRaised k outcomes /\
      counter st_successful k d = timesRaised k (filter succeeded outcomes) /\
      counter st_unsuccessful k d = timesRaised k (filter failed outcomes).
Proof.
  intros Hnn.
  destruct (replayOutcomes_returns outcomes Hnn (reset d0)) as [d Hd].
  exists d. split; [exact Hd|]. intros k.
  destruct (replayOutcomes_counters outcomes k _ _ Hd) as (Ht & Hs & Hu).
  rewrite counter_cleared in Ht, Hs, Hu. now repeat split.
Qed.

Lemma replay_counts_every_raise_witness :
  exists d,
    replayOutcomes (reset cleared) smallLedger = Ok d /\
    forall k,
      counter st_totalRaised k d = timesRaised k smallLedger /\
      counter st_successful k d = timesRaised k (filter succeeded smallLedger) /\
      counter st_unsuccessful k d = timesRaised k (filter failed smallLedger).
Proof.
  apply (replay_counts_every_raise cleared smallLedger).
  repeat constructor.
Defined.

(** X2: a replay does not remember what it has already
    counted.  Replaying the same ledger a second time, without a reset
    in between, returns and doubles every counter of every defect type. *)
Theorem replay_twice_doubles (d0 d1 : Detector) (outcomes : list JsVal) :
  replayOutcomes (reset d0) outcomes = Ok d1 ->
  exists d2,
    replayOutcomes d1 outcomes = Ok d2 /\
    forall k,
      counter st_totalRaised k d2 = (2 * counter st_totalRaised k d1)%nat /\
      counter st_successful k d2 = (2 * counter st_successful k d1)%nat /\
      counter st_unsuccessful k d2 = (2 * counter st_unsuccessful k d1)%nat.
Proof.
  intros H1.
  pose proof (replayOutcomes_not_nullish outcomes _ _ H1) as Hnn.
  destruct (replayOutcomes_returns outcomes Hnn d1) as [d2 H2].
  exists d2. split; [exact H2|]. intros k.
  destruct (replayOutcomes_counters outcomes k _ _ H1) as (Ht1 & Hs1 & Hu1).
  destruct (replayOutcomes_counters outcomes k _ _ H2) as (Ht2 & Hs2 & Hu2).
  rewrite counter_cleared in Ht1, Hs1, Hu1. lia.
Qed.

Lemma replay_twice_doubles_witness :
  exists d1 d2,
    replayOutcomes (reset cleared) smallLedger = Ok d1 /\
    replayOutcomes d1 smallLedger = Ok d2 /\
    counter st_totalRaised (JStr "Y") d1 = 3%nat /\
    counter st_totalRaised (JStr "Y") d2 = 6%nat.
Proof.
  assert (H : exists d1, replayOutcomes (reset cleared) smallLedger = Ok d1)
    by (eexists; vm_compute; reflexivity).
  destruct H as [d1 H1].
  destruct (replay_twice_doubles cleared d1 smallLedger H1) as (d2 & H2 & Hk).
  exists d1, d2. split; [exact H1|]. split; [exact H2|].
  destruct (Hk (JStr "Y")) as (Ht & _).
  assert (E : counter st_totalRaised (JStr "Y") d1 = 3%nat).
  { vm_compute in H1. injection H1; intros <-. reflexivity. }
  split; [exact E|]. rewrite Ht, E. reflexivity.
Defined.

(** X3: the counters do not depend on the order in which
    the outcomes are replayed: two ledgers that hold the same outcomes in
    different orders leave every defect type with the same counters. *)
Theorem replay_order_irrelevant (d d1 : Detector) (l l' : list JsVal) :
  Permutation l l' ->
  replayOutcomes d l = Ok d1 ->
  exists d2,
    replayOutcomes d l' = Ok d2 /\
    forall k,
      counter st_totalRaised k d2 = counter st_totalRaised k d1 /\
      counter st_successful k d2 = counter st_successful k d1 /\
      counter st_unsuccessful k d2 = counter st_unsuccessful k d1.
Proof.
  intros Hp H1.
  pose proof (replayOutcomes_not_nullish l _ _ H1) as Hnn.
  apply (Permutation_Forall Hp) in Hnn.
  destruct (replayOutcomes_returns l' Hnn d) as [d2 H2].
  exists d2. split; [exact H2|]. intros k.
  destruct (replayOutcomes_counters l k _ _ H1) as (Ht1 & Hs1 & Hu1).
  destruct (replayOutcomes_counters l' k _ _ H2) as (Ht2 & Hs2 & Hu2).
  rewrite Ht1, Hs1, Hu1, Ht2, Hs2, Hu2.
  rewrite (timesRaised_perm k l l' Hp).
  rewrite (timesRaised_perm k _ _ (filter_perm succeeded l l' Hp)).
  rewrite (timesRaised_perm k _ _ (filter_perm failed l l' Hp)).
  now repeat split.
Qed.

Lemma replay_order_irrelevant_witness :
  exists d1 d2,
    replayOutcomes cleared smallLedger = Ok d1 /\
    replayOutcomes cleared (List.rev smallLedger) = Ok d2 /\
    forall k,
      counter st_totalRaised k d2 = counter st_totalRaised k d1 /\
      counter st_successful k d2 = counter st_successful k d1 /\
      counter st_unsuccessful k d2 = counter st_unsuccessful k d1.
Proof.
  assert (H : exists d1, replayOutcomes cleared smallLedger = Ok d1)
    by (eexists; vm_compute; reflexivity).
  destruct H as [d1 H1].
  destruct (replay_order_irrelevant cleared d1 smallLedger (List.rev smallLedger)
              (Permutation_rev smallLedger) H1) as (d2 & H2 & Hk).
  exists d1, d2. split; [exact H1|]. split; [exact H2|exact Hk].
Defined.

(* ================================================================== *)
(** * Rounding: upper bounds and the sign of a difference *)
(* ================================================================== *)

Section RoundingAbove.

Local Open Scope Q_scope.

Lemma rne_le_int (M : Z) (y : Q) : y <= inject_Z M -> (rne y <= M)%Z.
Proof.
  intros H. unfold rne.
  pose proof (Qfloor_le y) as Hf.
  assert (Hle : (Qfloor y <= M)%Z).
  { rewrite Zle_Qle. lra. }
  assert (Hlt : inject_Z (Qfloor y) < y -> (Qfloor y + 1 <= M)%Z).
  { intros Hy. assert (Hq : inject_Z (Qfloor y) < inject_Z M) by lra.
    rewrite <- Zlt_Qlt in Hq. lia. }
  destruct (Qcompare_spec (y - inject_Z (Qfloor y)) (1 # 2)) as [E|E|E].
  - destruct (Z.even (Qfloor y)); [exact Hle|]. apply Hlt. lra.
  - exact Hle.
  - apply Hlt. lra.
Qed.

(** Rounding does not go above a multiple of the last place that the
    value has not passed. *)
Lemma rnd_upper (N : Z) (x : Q) :
  x <= inject_Z N * 2 ^ ulp_exp x -> rnd x <= inject_Z N * 2 ^ ulp_exp x.
Proof.
  intros H. unfold rnd.
  apply Qmult_le_compat_r; [|apply Qlt_le_weak, pow2_pos].
  rewrite <- Zle_Qle. apply rne_le_int.
  apply Qle_shift_div_r; [apply pow2_pos|exact H].
Qed.

Lemma ilog2_below (x : Q) (k : Z) : 0 < x -> x < 2 ^ k -> (ilog2 x < k)%Z.
Proof.
  intros Hx Hk. destruct (ilog2_spec x Hx) as [Hlo _].
  destruct (Z_lt_ge_dec (ilog2 x) k) as [H|H]; [exact H|exfalso].
  assert (2 ^ k <= 2 ^ ilog2 x)
    by (apply Qpower_le_compat_l; [lia|discriminate]).
  lra.
Qed.

(** Rounding never takes a value above an integer that binary64 holds. *)
Lemma rnd_le_int (n : Z) (x : Q) :
  (n < 2 ^ 53)%Z -> 0 < x -> x <= inject_Z n -> rnd x <= inject_Z n.
Proof.
  intros Hn Hx Hxn.
  assert (Hlog : (ilog2 x < 53)%Z).
  { apply ilog2_below; [exact Hx|].
    apply Qle_lt_trans with (inject_Z n); [exact Hxn|].
    rewrite <- (Zpower_Qpower 2) by lia. rewrite <- Zlt_Qlt. exact Hn. }
  assert (He : (ulp_exp x <= 0)%Z) by (unfold ulp_exp; lia).
  assert (Hk : inject_Z n == inject_Z (n * 2 ^ (- ulp_exp x)) * 2 ^ ulp_exp x).
  { rewrite inject_Z_mult. rewrite (Zpower_Qpower 2) by lia.
    rewrite <- Qmult_assoc. rewrite <- Qpower_plus by exact two_neq_0.
    replace (- ulp_exp x + ulp_exp x)%Z with 0%Z by lia.
    simpl. ring. }
  rewrite Hk. apply rnd_upper. rewrite <- Hk. exact Hxn.
Qed.

Lemma fl_le_int (n : Z) (x : Q) :
  (0 <= n < 2 ^ 53)%Z -> x <= inject_Z n -> leb (fl x) (Fin (inject_Z n)) = true.
Proof.
  intros [Hn0 Hn] Hx.
  assert (Hn0' : 0 <= inject_Z n).
  { change 0 with (inject_Z 0). rewrite <- Zle_Qle. exact Hn0. }
  unfold fl. destruct (Qcompare_spec x 0) as [H|H|H].
  - unfold leb. apply Qle_bool_iff. exact Hn0'.
  - unfold fl_pos.
    destruct (Qle_bool (2 ^ 1024) (rnd (- x))); [reflexivity|].
    unfold leb. apply Qle_bool_iff. rewrite Qred_correct.
    assert (0 <= rnd (- x)) by (apply rnd_nonneg; lra). lra.
  - pose proof (rnd_le_int n x Hn H Hx) as Hr.
    unfold fl_pos.
    destruct (Qle_bool (2 ^ 1024) (rnd x)) eqn:Hbig.
    + exfalso. apply Qle_bool_iff in Hbig.
      assert (inject_Z n < 2 ^ 1024).
      { apply Qlt_le_trans with (2 ^ 53).
        - rewrite <- (Zpower_Qpower 2) by lia. rewrite <- Zlt_Qlt. exact Hn.
        - apply Qpower_le_compat_l; [lia|discriminate]. }
      lra.
    + unfold leb. apply Qle_bool_iff. rewrite Qred_correct. exact Hr.
Qed.

Lemma rnd_onGrid (x : Q) : onGrid (rnd x).
Proof.
  unfold rnd. set (e := ulp_exp x).
  assert (He : (-1074 <= e)%Z) by (unfold e, ulp_exp; lia).
  exists (rne (x / 2 ^ e) * 2 ^ (e + 1074))%Z.
  rewrite inject_Z_mult. rewrite (Zpower_Qpower 2) by lia.
  rewrite <- Qmult_assoc. rewrite <- Qpower_plus by exact two_neq_0.
  replace (e + 1074 + -1074)%Z with e by lia. reflexivity.
Qed.

Lemma onGrid_eq (p q : Q) : p == q -> onGrid p -> onGrid q.
Proof. intros E [N H]. exists N. now rewrite <- E. Qed.

Lemma onGrid_opp (q : Q) : onGrid q -> onGrid (- q).
Proof.
  intros [N H]. exists (- N)%Z. rewrite H, inject_Z_opp. ring.
Qed.

Lemma onGrid_plus (p q : Q) : onGrid p -> onGrid q -> onGrid (p + q).
Proof.
  intros [M Hp] [N Hq]. exists (M + N)%Z. rewrite Hp, Hq, inject_Z_plus. ring.
Qed.

Lemma onGrid_0 : onGrid 0.
Proof. exists 0%Z. reflexivity. Qed.

Lemma fl_pos_onGrid (x q : Q) (neg : bool) : fl_pos x neg = Fin q -> onGrid q.
Proof.
  unfold fl_pos. destruct (Qle_bool (2 ^ 1024) (rnd x)); [discriminate|].
  intros H; injection H; intros <-.
  apply (onGrid_eq (if neg then - rnd x else rnd x)).
  - now rewrite Qred_correct.
  - destruct neg; [apply onGrid_opp|]; apply rnd_onGrid.
Qed.

Lemma fl_onGrid (x q : Q) : fl x = Fin q -> onGrid q.
Proof.
  unfold fl. destruct (Qcompare x 0).
  - intros H; injection H; intros <-. apply onGrid_0.
  - apply fl_pos_onGrid.
  - apply fl_pos_onGrid.
Qed.

(** A positive value on the grid is at least 2^-1074, and its rounding
    is positive. *)
Lemma onGrid_pos (z : Q) : onGrid z -> 0 < z -> 2 ^ (-1074) <= z.
Proof.
  intros [N H] Hz. rewrite H in *.
  pose proof (pow2_pos (-1074)) as Hp.
  assert (HN : (1 <= N)%Z).
  { destruct (Z_lt_ge_dec 0 N) as [L|L]; [lia|exfalso].
    assert (inject_Z N <= 0).
    { change 0 with (inject_Z 0). rewrite <- Zle_Qle. lia. }
    assert (inject_Z N * 2 ^ (-1074) <= 0 * 2 ^ (-1074))
      by (apply Qmult_le_compat_r; lra).
    lra. }
  assert (1 <= inject_Z N).
  { change 1 with (inject_Z 1). rewrite <- Zle_Qle. exact HN. }
  assert (1 * 2 ^ (-1074) <= inject_Z N * 2 ^ (-1074))
    by (apply Qmult_le_compat_r; lra).
  lra.
Qed.

Lemma rnd_pos (x : Q) : 2 ^ (-1074) <= x -> 0 < rnd x.
Proof.
  intros Hx.
  assert (Hpos : 0 < x).
  { apply Qlt_le_trans with (2 ^ (-1074)); [apply pow2_pos|exact Hx]. }
  destruct (ilog2_spec x Hpos) as [Hlo _].
  assert (Hone : inject_Z 1 * 2 ^ ulp_exp x <= x).
  { rewrite Qmult_1_l. unfold ulp_exp.
    destruct (Z.max_spec (ilog2 x - 52) (-1074)) as [[_ ->]|[_ ->]].
    - exact Hx.
    - apply Qle_trans with (2 ^ ilog2 x); [|exact Hlo].
      apply Qpower_le_compat_l; [lia|discriminate]. }
  apply rnd_lower in Hone. rewrite Qmult_1_l in Hone.
  pose proof (pow2_pos (ulp_exp x)). lra.
Qed.

(** Rounding keeps the sign of a value on the grid: a difference of two
    binary64 values that is not zero does not round to zero. *)
Lemma sign_fl_onGrid (z : Q) : onGrid z -> sign (fl z) = sign (Fin z).
Proof.
  intros Hz. unfold fl. cbn [sign].
  destruct (Qcompare_spec z 0) as [E|E|E]; [reflexivity| |].
  - assert (Hr : 0 < rnd (- z)).
    { apply rnd_pos, onGrid_pos; [now apply onGrid_opp|lra]. }
    unfold fl_pos. destruct (Qle_bool (2 ^ 1024) (rnd (- z))); [reflexivity|].
    cbn [sign].
    destruct (Qcompare_spec (Qred (- rnd (- z))) 0) as [F|F|F];
      rewrite Qred_correct in F; try reflexivity; lra.
  - assert (Hr : 0 < rnd z) by (apply rnd_pos, onGrid_pos; assumption).
    unfold fl_pos. destruct (Qle_bool (2 ^ 1024) (rnd z)); [reflexivity|].
    cbn [sign].
    destruct (Qcompare_spec (Qred (rnd z)) 0) as [F|F|F];
      rewrite Qred_correct in F; try reflexivity; lra.
Qed.

End RoundingAbove.

(* ================================================================== *)
(** * The order and the range of the success rates *)
(* ================================================================== *)

Section SortOn.

(** The sort, for a comparator that is consistent on the values that
    satisfy [P]. *)
Context {A : Type} (cmp : A -> A -> Z) (P : A -> Prop).

Hypothesis cmp_total_on :
  forall a b, P a -> P b -> (0 < cmp a b)%Z -> (cmp b a <= 0)%Z.
Hypothesis cmp_trans_on :
  forall a b c, P a -> P b -> P c ->
    (cmp a b <= 0)%Z -> (cmp b c <= 0)%Z -> (cmp a c <= 0)%Z.

Lemma insert_sorted_on (x : A) (l : list A) :
  P x -> Forall P l ->
  StronglySorted (before cmp) l -> StronglySorted (before cmp) (insert cmp x l).
Proof.
  intros Px Pl. induction 1 as [|y t Ht IH Hy]; simpl.
  - constructor; constructor.
  - inversion Pl as [|? ? Py Pt]; subst.
    destruct (cmp x y <=? 0)%Z eqn:Hxy.
    + apply Z.leb_le in Hxy. constructor; [now constructor|].
      constructor; [exact Hxy|].
      rewrite Forall_forall in *. intros z Hz.
      apply (cmp_trans_on x y z); auto. now apply Hy.
    + apply Z.leb_gt in Hxy. constructor; [now apply IH|].
      apply (Permutation_Forall (insert_perm cmp x t)).
      constructor; [now apply cmp_total_on|exact Hy].
Qed.

Lemma sort_sorted_on (l : list A) :
  Forall P l -> StronglySorted (before cmp) (sort cmp l).
Proof.
  induction 1 as [|x t Px Pt IH]; simpl; [constructor|].
  apply insert_sorted_on; [exact Px| |exact IH].
  apply (Permutation_Forall (sort_perm cmp t)). exact Pt.
Qed.

End SortOn.

Section RateOrder.

Local Open Scope Q_scope.

Lemma fl_nonnegNum (x : Q) : 0 <= x -> nonnegNum (fl x).
Proof.
  intros Hx. unfold fl. destruct (Qcompare_spec x 0) as [E|E|E].
  - right. exists 0. split; [reflexivity|]. split; [lra|apply onGrid_0].
  - lra.
  - unfold fl_pos. destruct (Qle_bool (2 ^ 1024) (rnd x)); [now left|].
    right. exists (Qred (rnd x)). split; [reflexivity|]. split.
    + rewrite Qred_correct. apply rnd_nonneg. lra.
    + apply (onGrid_eq (rnd x)); [now rewrite Qred_correct|apply rnd_onGrid].
Qed.

(** On numbers that are not negative, the comparator [b - a] of a
    descending sort says "not after" exactly when [a >= b]. *)
Lemma sign_sub_geb (a b : JsNum) :
  nonnegNum a -> nonnegNum b ->
  ((sign (sub b a) <= 0)%Z <-> geb a b = true).
Proof.
  intros [->|(x & -> & Hx & Gx)] [->|(y & -> & Hy & Gy)];
    unfold sub, geb; cbn [opp add leb sign negb orb Bool.eqb].
  - split; [reflexivity|lia].
  - split; [reflexivity|lia].
  - split; [lia|discriminate].
  - assert (G : onGrid (y + Qred (- x))).
    { apply onGrid_plus; [exact Gy|].
      apply (onGrid_eq (- x)); [now rewrite Qred_correct|now apply onGrid_opp]. }
    rewrite (sign_fl_onGrid _ G). cbn [sign].
    destruct (Qcompare_spec (y + Qred (- x)) 0) as [E|E|E];
      rewrite Qred_correct in E.
    + split; [intros _; apply Qle_bool_iff; lra|lia].
    + split; [intros _; apply Qle_bool_iff; lra|lia].
    + split; [lia|]. intros H. apply Qle_bool_iff in H. lra.
Qed.

Lemma geb_total (a b : JsNum) :
  nonnegNum a -> nonnegNum b -> geb a b = false -> geb b a = true.
Proof.
  intros [->|(x & -> & Hx & Gx)] [->|(y & -> & Hy & Gy)]; cbn;
    try reflexivity; try discriminate.
  intros H. apply Qle_bool_iff.
  destruct (Qlt_le_dec y x) as [L|L]; [exfalso|exact L].
  assert (Qle_bool y x = true) by (apply Qle_bool_iff; lra). congruence.
Qed.

Lemma geb_trans (a b c : JsNum) :
  nonnegNum a -> nonnegNum b -> nonnegNum c ->
  geb a b = true -> geb b c = true -> geb a c = true.
Proof.
  intros [->|(x & -> & Hx & Gx)] [->|(y & -> & Hy & Gy)] [->|(z & -> & Hz & Gz)];
    cbn; try reflexivity; try discriminate; try (intros; assumption).
  intros H1 H2. apply Qle_bool_iff in H1, H2. apply Qle_bool_iff. lra.
Qed.

Lemma mul_100_nonnegNum (a : JsNum) : nonnegNum a -> nonnegNum (mul a (Fin 100)).
Proof.
  intros [->|(x & -> & Hx & _)]; [now left|].
  cbn [mul]. apply fl_nonnegNum.
  apply Qmult_le_0_compat; [exact Hx|discriminate].
Qed.

Lemma ofNat_nonneg (n : nat) : 0 <= inject_Z (Z.of_nat n).
Proof. change 0 with (inject_Z 0). rewrite <- Zle_Qle. lia. Qed.

Lemma ofNat_pos (n : nat) : (0 < n)%nat -> 0 < inject_Z (Z.of_nat n).
Proof. intros H. change 0 with (inject_Z 0). rewrite <- Zlt_Qlt. lia. Qed.

Lemma div_counts_nonnegNum (s t : nat) :
  (0 < t)%nat -> nonnegNum (div (ofNat s) (ofNat t)).
Proof.
  intros Ht. pose proof (ofNat_pos t Ht) as Hq. pose proof (ofNat_nonneg s) as Hs.
  unfold div, ofNat.
  destruct (Qeq_bool (inject_Z (Z.of_nat t)) 0) eqn:E.
  - apply Qeq_bool_iff in E. lra.
  - apply fl_nonnegNum. apply Qle_shift_div_l; [exact Hq|]. lra.
Qed.

Lemma toNumber_toFixed1_nonnegNum (a : JsNum) :
  nonnegNum a -> nonnegNum (toNumber (toFixed1 a)).
Proof.
  intros [->|(x & -> & Hx & _)]; [now left|].
  cbn [toFixed1]. unfold Qsign_neg.
  assert (E : Qle_bool 0 x = true) by (now apply Qle_bool_iff).
  rewrite E. cbn [negb toNumber]. apply fl_nonnegNum.
  assert (Hd : (0 <= Qfloor (x * 10 + (1 # 2)))%Z).
  { change 0%Z with (Qfloor 0). apply Qfloor_resp_le. lra. }
  unfold Qle. cbn [Qnum Qden]. lia.
Qed.

Lemma rateOf_nonnegNum (stats : DefectSuccessStats) :
  nonnegNum
    (rateNumber
       (if (0 <? st_totalRaised stats)%nat
        then RateText (percentage (st_successful stats) (st_totalRaised stats))
        else RateZero)).
Proof.
  destruct (0 <? st_totalRaised stats)%nat eqn:Ht.
  - apply Nat.ltb_lt in Ht. cbn [rateNumber]. unfold percentage.
    apply toNumber_toFixed1_nonnegNum, mul_100_nonnegNum.
    now apply div_counts_nonnegNum.
  - right. exists 0. split; [reflexivity|]. split; [lra|apply onGrid_0].
Qed.

End RateOrder.

Lemma StronglySorted_weaken_on {A : Type} (P : A -> Prop) (R S : A -> A -> Prop)
    (l : list A) :
  (forall a b, P a -> P b -> R a b -> S a b) ->
  Forall P l -> StronglySorted R l -> StronglySorted S l.
Proof.
  intros HRS Pl. induction 1 as [|x t _ IH Hx]; [constructor|].
  inversion Pl as [|? ? Px Pt]; subst.
  constructor; [now apply IH|].
  rewrite Forall_forall in *. intros b Hb. apply HRS; auto.
Qed.

Lemma byRateDesc_before (a b : SuccessRateEntry) :
  nonnegNum (rateOf a) -> nonnegNum (rateOf b) ->
  (before byRateDesc a b <-> geb (rateOf a) (rateOf b) = true).
Proof. intros Ha Hb. unfold before, byRateDesc. now apply sign_sub_geb. Qed.

Lemma byRateDesc_sorted (l : list SuccessRateEntry) :
  Forall (fun e => nonnegNum (rateOf e)) l ->
  StronglySorted (fun a b => geb (rateOf a) (rateOf b) = true) (sort byRateDesc l).
Proof.
  intros Pl.
  apply (StronglySorted_weaken_on (fun e => nonnegNum (rateOf e)) (before byRateDesc)).
  - intros a b Ha Hb. now apply byRateDesc_before.
  - apply (Permutation_Forall (sort_perm byRateDesc l)). exact Pl.
  - apply (sort_sorted_on byRateDesc (fun e => nonnegNum (rateOf e))).
    + intros a b Ha Hb Hab.
      apply (byRateDesc_before b a Hb Ha). apply geb_total; [exact Ha|exact Hb|].
      destruct (geb (rateOf a) (rateOf b)) eqn:E; [|reflexivity].
      apply (byRateDesc_before a b Ha Hb) in E. unfold before in E. lia.
    + intros a b c Ha Hb Hc Hab Hbc.
      apply (byRateDesc_before a c Ha Hc).
      apply (geb_trans _ (rateOf b)); try assumption.
      * now apply (byRateDesc_before a b Ha Hb).
      * now apply (byRateDesc_before b c Hb Hc).
    + exact Pl.
Qed.

(** X4: getSuccessRates lists every stored defect type
    once, and in descending order of the success rate taken as a number:
    the subtraction in the comparator reads the one-decimal texts back as
    numbers, so a rate of 100.0 stands before 87.5, and 9.5 after 10.0. *)
Theorem getSuccessRates_descending (d : Detector) :
  StronglySorted (fun a b => geb (rateOf a) (rateOf b) = true) (getSuccessRates d) /\
  Permutation (map sr_stats (getSuccessRates d)) (map snd (successRates d)).
Proof.
  unfold getSuccessRates.
  split.
  - apply byRateDesc_sorted. apply Forall_forall. intros e He.
    apply in_map_iff in He. destruct He as (stats & <- & _).
    apply rateOf_nonnegNum.
  - apply perm_trans with
      (map sr_stats
         (map (fun stats =>
                 {| sr_stats := stats;
                    sr_successRate :=
                      if (0 <? st_totalRaised stats)%nat
                      then RateText (percentage (st_successful stats)
                                       (st_totalRaised stats))
                      else RateZero |})
              (map snd (successRates d)))).
    + apply Permutation_map, Permutation_sym, sort_perm.
    + rewrite map_map. cbn [sr_stats]. rewrite map_id. apply Permutation_refl.
Qed.

Lemma reachable_consistent (d : Detector) :
  Reachable d -> Forall (fun kv => consistent (snd kv)) (successRates d).
Proof.
  induction 1 as [d|d d' analysisId outcome _ IH Hl]; [constructor|].
  exact (learnFromOutcome_consistent d d' analysisId outcome IH Hl).
Qed.

Section RateRange.

Local Open Scope Q_scope.

(** A result between 0 and an integer binary64 holds stays there. *)
Lemma fl_between (n : Z) (x : Q) :
  (0 <= n < 2 ^ 53)%Z -> 0 <= x -> x <= inject_Z n ->
  exists q, fl x = Fin q /\ 0 <= q /\ q <= inject_Z n.
Proof.
  intros Hn H0 Hx.
  pose proof (fl_le_int n x Hn Hx) as Hle.
  destruct (fl_nonnegNum x H0) as [E|(q & E & Hq & _)]; rewrite E in *.
  - discriminate Hle.
  - exists q. repeat split; try assumption.
    unfold leb in Hle. now apply Qle_bool_iff in Hle.
Qed.

Lemma tenths_range (p : Q) (n : Z) :
  (0 <= n)%Z -> 0 <= p -> p <= inject_Z n ->
  toFixed1 (Fin p) = TDec false (Qfloor (p * 10 + (1 # 2))) /\
  (0 <= Qfloor (p * 10 + (1 # 2)) <= n * 10)%Z.
Proof.
  intros Hn H0 Hp. split.
  - cbn [toFixed1]. unfold Qsign_neg.
    assert (E : Qle_bool 0 p = true) by (now apply Qle_bool_iff).
    now rewrite E.
  - split.
    + change 0%Z with (Qfloor 0). apply Qfloor_resp_le. lra.
    + pose proof (Qfloor_le (p * 10 + (1 # 2))) as Hf.
      assert (Hlt : inject_Z (Qfloor (p * 10 + (1 # 2))) < inject_Z (n * 10 + 1)).
      { rewrite inject_Z_plus, inject_Z_mult.
        change (inject_Z 10) with 10. change (inject_Z 1) with 1. lra. }
      rewrite <- Zlt_Qlt in Hlt. lia.
Qed.

Lemma ratio_le_1 (s t : nat) :
  (s <= t)%nat -> (0 < t)%nat ->
  0 <= inject_Z (Z.of_nat s) / inject_Z (Z.of_nat t) /\
  inject_Z (Z.of_nat s) / inject_Z (Z.of_nat t) <= inject_Z 1.
Proof.
  intros Hst Ht. pose proof (ofNat_pos t Ht) as Hq.
  pose proof (ofNat_nonneg s) as Hs.
  assert (Hle : inject_Z (Z.of_nat s) <= inject_Z (Z.of_nat t))
    by (rewrite <- Zle_Qle; lia).
  split.
  - apply Qle_shift_div_l; [exact Hq|]. lra.
  - apply Qle_shift_div_r; [exact Hq|]. change (inject_Z 1) with 1. lra.
Qed.

(** The text of a rate of [s] successes in [t] outcomes. *)
Lemma percentage_range (s t : nat) :
  (s <= t)%nat -> (0 < t)%nat ->
  exists n, percentage s t = TDec false n /\ (0 <= n <= 1000)%Z.
Proof.
  intros Hst Ht. destruct (ratio_le_1 s t Hst Ht) as [R0 R1].
  pose proof (ofNat_pos t Ht) as Hq.
  unfold percentage, div, ofNat.
  destruct (Qeq_bool (inject_Z (Z.of_nat t)) 0) eqn:E.
  { apply Qeq_bool_iff in E. lra. }
  destruct (fl_between 1 _ ltac:(lia) R0 R1) as (q & -> & Hq0 & Hq1).
  change (inject_Z 1) with 1 in Hq1.
  cbn [mul].
  destruct (fl_between 100 (q * 100) ltac:(lia)) as (p & -> & Hp0 & Hp1).
  { lra. }
  { change (inject_Z 100) with 100. lra. }
  destruct (tenths_range p 100 ltac:(lia) Hp0 Hp1) as [-> Hn].
  eexists. split; [reflexivity|lia].
Qed.

Lemma tenths_number_le (n m : Z) :
  (0 <= m < 2 ^ 53)%Z -> (n <= m * 10)%Z ->
  leb (toNumber (TDec false n)) (Fin (inject_Z m)) = true.
Proof.
  intros Hm Hn. cbn [toNumber]. apply fl_le_int; [exact Hm|].
  unfold Qle. cbn [Qnum Qden inject_Z]. lia.
Qed.

End RateRange.

(** X5: in every state a detector reaches (a reset, then
    calls of learnFromOutcome), each entry of getSuccessRates carries its
    rate as a one-decimal text between 0.0 and 100.0; the fallback number
    0 of an entry never raised does not occur, since a stored type has
    been raised at least once. *)
Theorem success_rates_are_percentages (d : Detector) :
  Reachable d ->
  Forall (fun e =>
            exists n,
              sr_successRate e = RateText (TDec false n) /\
              (0 <= n <= 1000)%Z /\
              leb (rateOf e) (Fin 100) = true)
         (getSuccessRates d).
Proof.
  intros Hr. pose proof (reachable_consistent d Hr) as Hc.
  apply Forall_forall. intros e He.
  apply sort_In, in_map_iff in He. destruct He as (stats & <- & Hin).
  apply in_map_iff in Hin. destruct Hin as ([k s] & Hs & Hin).
  cbn [snd] in Hs. subst s.
  rewrite Forall_forall in Hc. destruct (Hc _ Hin) as (Hsum & _ & Hpos).
  cbn [snd] in Hsum, Hpos.
  assert (Ht : (0 <? st_totalRaised stats)%nat = true) by (apply Nat.ltb_lt; lia).
  cbn [sr_successRate]. rewrite Ht.
  destruct (percentage_range (st_successful stats) (st_totalRaised stats))
    as (n & Hn & Hrange); try lia.
  exists n. split; [now rewrite Hn|]. split; [exact Hrange|].
  unfold rateOf. cbn [sr_successRate]. rewrite Hn. cbn [rateNumber].
  apply (tenths_number_le n 100); lia.
Qed.

Lemma success_rates_are_percentages_witness :
  Forall (fun e =>
            exists n,
              sr_successRate e = RateText (TDec false n) /\
              (0 <= n <= 1000)%Z /\
              leb (rateOf e) (Fin 100) = true)
         (getSuccessRates twoOutcomesLearned).
Proof.
  apply success_rates_are_percentages.
  apply (reach_learn
           {| successRates :=
                fold_left
                  (raiseDefect {| oe_date := JStr "2024-05-01T00:00:00.000Z";
                                  oe_outcome := JStr "evidence excluded";
                                  oe_courtResponse := JStr "";
                                  oe_effectiveArguments := JArr [] |})
                  [JStr "X"; JStr "Y"] [] |}
           twoOutcomesLearned JUndefined (mkOutcome "case proceeded" ["X"])).
  - apply (reach_learn (reset cleared) _ JUndefined
             (mkOutcome "evidence excluded" ["X"; "Y"])).
    + apply reach_reset.
    + reflexivity.
  - reflexivity.
Defined.

(* ================================================================== *)
(** * Compliance: what is counted, and the rate of a history *)
(* ================================================================== *)

Lemma tallyFinding_inv (t t' : Tally) (f : JsVal) :
  tallyFinding t f = Ok t' ->
  totalIssues t' = totalIssues t /\
  criticalCount t' = (criticalCount t + if isCritical f then 1 else 0)%nat /\
  highCount t' = (highCount t + if isHigh f then 1 else 0)%nat.
Proof.
  unfold tallyFinding, isCritical, isHigh.
  destruct (get f "severity") as [sev|] eqn:Hs; cbn [bind]; [|discriminate].
  destruct (get_returns_inv _ _ _ Hs) as [Hnn ->].
  rewrite (get_prop f "type" Hnn). cbn [bind].
  destruct (toString (prop f "type")); cbn [bind]; [|discriminate].
  intros H; injection H; intros <-.
  cbn [totalIssues criticalCount highCount].
  repeat split;
    [destruct (strictEq (prop f "severity") (JStr "CRITICAL"))
    |destruct (strictEq (prop f "severity") (JStr "HIGH"))]; lia.
Qed.

Lemma forEach_tallyFinding (fs : list JsVal) : forall t t',
  forEach tallyFinding fs t = Ok t' ->
  totalIssues t' = totalIssues t /\
  criticalCount t' = (criticalCount t + List.length (filter isCritical fs))%nat /\
  highCount t' = (highCount t + List.length (filter isHigh fs))%nat.
Proof.
  induction fs as [|f rest IH]; intros t t' H; cbn [forEach] in H.
  - injection H; intros <-. cbn. lia.
  - destruct (tallyFinding t f) as [t1|] eqn:H1; cbn [bind] in H; [|discriminate].
    destruct (tallyFinding_inv _ _ _ H1) as (E1 & E2 & E3).
    destruct (IH _ _ H) as (F1 & F2 & F3).
    cbn [filter]. destruct (isCritical f), (isHigh f); cbn [List.length]; lia.
Qed.

(** What the tally of a history has counted: the occurrences of all its
    records. *)
Lemma forEach_tallyAnalysis (analyses : list JsVal) : forall t t',
  forEach tallyAnalysis analyses t = Ok t' ->
  exists fs,
    occurrences analyses = Ok fs /\
    totalIssues t' = (totalIssues t + List.length fs)%nat /\
    criticalCount t' = (criticalCount t + List.length (filter isCritical fs))%nat /\
    highCount t' = (highCount t + List.length (filter isHigh fs))%nat.
Proof.
  unfold occurrences.
  induction analyses as [|a rest IH]; intros t t' H; cbn [forEach] in H.
  - injection H; intros <-. exists []. cbn. repeat split; lia.
  - destruct (tallyAnalysis t a) as [t1|] eqn:H1; cbn [bind] in H; [|discriminate].
    unfold tallyAnalysis in H1.
    destruct (extractFindings a) as [fs|] eqn:Hfs; cbn [bind] in H1; [|discriminate].
    destruct (forEach_tallyFinding _ _ _ H1) as (E1 & E2 & E3).
    cbn [totalIssues criticalCount highCount] in E1, E2, E3.
    destruct (IH _ _ H) as (fs' & Hocc & F1 & F2 & F3).
    destruct (mapM extractFindings rest) as [fss|] eqn:Hfss; cbn [bind] in Hocc;
      [|discriminate].
    injection Hocc; intros <-.
    exists (fs ++ List.concat fss)%list. cbn [mapM]. rewrite Hfs, Hfss. cbn [bind].
    split; [reflexivity|].
    rewrite !filter_app, !length_app. lia.
Qed.

(** The metrics of a history that is not empty are those of the tally of
    its occurrences. *)
Lemma calculateCompliance_tally (analyses : list JsVal) (m : ComplianceMetrics) :
  analyses <> [] ->
  calculateCompliance analyses = Ok m ->
  exists t fs,
    m = metricsOf (List.length analyses) t /\
    occurrences analyses = Ok fs /\
    totalIssues t = List.length fs /\
    criticalCount t = List.length (filter isCritical fs) /\
    highCount t = List.length (filter isHigh fs).
Proof.
  intros Hne H. destruct analyses as [|a rest]; [contradiction|].
  unfold calculateCompliance in H.
  destruct (forEach tallyAnalysis (a :: rest) _) as [t|] eqn:Ht; cbn [bind] in H;
    [|discriminate].
  injection H; intros <-.
  destruct (forEach_tallyAnalysis _ _ _ Ht) as (fs & Hocc & E1 & E2 & E3).
  cbn [totalIssues criticalCount highCount] in E1, E2, E3.
  exists t, fs. repeat split; assumption.
Qed.

Section ComplianceRange.

Local Open Scope Q_scope.

Lemma nonnegNum_geb_0 (a : JsNum) : nonnegNum a -> geb a (Fin 0) = true.
Proof.
  intros [->|(q & -> & Hq & _)]; [reflexivity|].
  unfold geb, leb. now apply Qle_bool_iff.
Qed.

Lemma max_0_range (y : JsNum) :
  leb y (Fin 100) = true ->
  exists r, max (Fin 0) y = Fin r /\ 0 <= r /\ r <= 100.
Proof.
  destruct y as [|neg|r]; cbn [leb]; intros H; [discriminate| |].
  - subst neg. exists 0. split; [reflexivity|lra].
  - apply Qle_bool_iff in H. unfold max, ltb.
    destruct (Qle_bool r 0) eqn:E; cbn [negb].
    + exists 0. split; [reflexivity|lra].
    + exists r. split; [reflexivity|]. split; [|exact H].
      destruct (Qlt_le_dec 0 r) as [L|L]; [lra|].
      apply Qle_bool_iff in L. congruence.
Qed.

(** [100 - avg * 5] for an average that is not negative. *)
Lemma score_le_100 (avg : JsNum) :
  nonnegNum avg -> leb (sub (Fin 100) (mul avg (Fin 5))) (Fin 100) = true.
Proof.
  intros Havg.
  assert (Hm : nonnegNum (mul avg (Fin 5))).
  { destruct Havg as [->|(q & -> & Hq & _)]; [now left|].
    cbn [mul]. apply fl_nonnegNum. lra. }
  destruct Hm as [->|(p & -> & Hp & _)]; [reflexivity|].
  unfold sub. cbn [opp add].
  apply (fl_le_int 100); [lia|]. rewrite Qred_correct.
  change (inject_Z 100) with 100. lra.
Qed.

Lemma complianceScore_range (avgIssues : NumText) :
  nonnegNum (toNumber avgIssues) ->
  exists r, complianceScore avgIssues = Fin r /\ 0 <= r /\ r <= 100.
Proof.
  intros H. unfold complianceScore. apply max_0_range. now apply score_le_100.
Qed.

(** The rate of a tally is at most 100. *)
Lemma rate_at_most_100 (issues records : nat) :
  (0 < records)%nat ->
  leb (toNumber
         (toFixed1
            (complianceScore (toFixed1 (div (ofNat issues) (ofNat records))))))
      (Fin 100) = true.
Proof.
  intros Hr.
  assert (Havg : nonnegNum
            (toNumber (toFixed1 (div (ofNat issues) (ofNat records))))).
  { apply toNumber_toFixed1_nonnegNum. now apply div_counts_nonnegNum. }
  destruct (complianceScore_range _ Havg) as (r & -> & Hr0 & Hr1).
  destruct (tenths_range r 100 ltac:(lia) Hr0 Hr1) as [-> Hn].
  apply (tenths_number_le _ 100); lia.
Qed.

(** With 20 issues or more for each record, the average reported is at
    least 20. *)
Lemma average_at_least_20 (issues records : nat) :
  (0 < records)%nat -> (20 * records <= issues)%nat ->
  geb (toNumber (toFixed1 (div (ofNat issues) (ofNat records)))) (Fin 20) = true.
Proof.
  intros Hr Hk. pose proof (ofNat_pos records Hr) as Hq.
  assert (Hratio : inject_Z 20 <= inject_Z (Z.of_nat issues) / inject_Z (Z.of_nat records)).
  { apply Qle_shift_div_l; [exact Hq|].
    rewrite <- inject_Z_mult, <- Zle_Qle. lia. }
  unfold geb, div, ofNat.
  destruct (Qeq_bool (inject_Z (Z.of_nat records)) 0) eqn:E.
  { apply Qeq_bool_iff in E. lra. }
  pose proof (fl_ge_int 20 _ ltac:(lia) Hratio) as Hfl.
  destruct (fl (inject_Z (Z.of_nat issues) / inject_Z (Z.of_nat records)))
    as [|neg|q]; cbn [leb] in Hfl; [discriminate| |].
  - apply negb_true_iff in Hfl. subst neg. reflexivity.
  - apply Qle_bool_iff in Hfl. change (inject_Z 20) with 20 in Hfl.
    cbn [toFixed1]. unfold Qsign_neg.
    assert (E0 : Qle_bool 0 q = true) by (apply Qle_bool_iff; lra).
    rewrite E0. cbn [negb toNumber].
    apply (fl_ge_int 20); [lia|].
    assert (Hd : (200 <= Qfloor (q * 10 + (1 # 2)))%Z).
    { change 200%Z with (Qfloor (inject_Z 200)). apply Qfloor_resp_le.
      change (inject_Z 200) with 200. lra. }
    unfold Qle. cbn [Qnum Qden inject_Z]. lia.
Qed.

(** Without any issue, the average reported is 0. *)
Lemma average_of_none (records : nat) :
  toNumber (toFixed1 (div (ofNat 0) (ofNat (S records)))) = Fin 0.
Proof.
  unfold div, ofNat.
  destruct (Qeq_bool (inject_Z (Z.of_nat (S records))) 0) eqn:E.
  { apply Qeq_bool_iff in E. pose proof (ofNat_pos (S records) ltac:(lia)). lra. }
  assert (Ez : fl (inject_Z (Z.of_nat 0) / inject_Z (Z.of_nat (S records))) = Fin 0).
  { unfold fl.
    destruct (Qcompare_spec (inject_Z (Z.of_nat 0) / inject_Z (Z.of_nat (S records))) 0)
      as [H|H|H]; [reflexivity| |];
      exfalso; cbn [Z.of_nat inject_Z] in H; unfold Qdiv in H;
      rewrite Qmult_0_l in H; lra. }
  rewrite Ez. reflexivity.
Qed.

(** The rates of the averages 0.0, 0.1, ... 19.9, one by one: none is 0. *)
Lemma rates_below_20 :
  forallb
    (fun d => negb (leb (toNumber (toFixed1 (complianceScore (TDec false (Z.of_nat d)))))
                        (Fin 0)))
    (seq 0 200) = true.
Proof. vm_compute. reflexivity. Qed.

(** A rate of 0 is the rate of an average of 20 or more. *)
Lemma zero_rate_from_20 (a : JsNum) :
  nonnegNum a ->
  leb (toNumber (toFixed1 (complianceScore (toFixed1 a)))) (Fin 0) = true ->
  geb (toNumber (toFixed1 a)) (Fin 20) = true.
Proof.
  intros [->|(q & -> & Hq & _)] Hzero; [reflexivity|].
  cbn [toFixed1] in *. unfold Qsign_neg in *.
  assert (E0 : Qle_bool 0 q = true) by (now apply Qle_bool_iff).
  rewrite E0 in *. cbn [negb] in *.
  set (d := Qfloor (q * 10 + (1 # 2))) in *.
  assert (Hd : (0 <= d)%Z).
  { change 0%Z with (Qfloor (inject_Z 0)). apply Qfloor_resp_le.
    change (inject_Z 0) with 0. lra. }
  destruct (Z_lt_le_dec d 200) as [L|L].
  - exfalso. pose proof rates_below_20 as T.
    rewrite forallb_forall in T.
    specialize (T (Z.to_nat d)). rewrite Z2Nat.id in T by exact Hd.
    rewrite Hzero in T. cbn [negb] in T.
    assert (In (Z.to_nat d) (seq 0 200)) by (apply in_seq; lia).
    specialize (T H). discriminate T.
  - cbn [toNumber]. unfold geb. apply (fl_ge_int 20); [lia|].
    unfold Qle. cbn [Qnum Qden inject_Z]. lia.
Qed.

End ComplianceRange.

(** C6: whenever [calculateCompliance] returns (and on a shaped history
    it does), its metrics are those of the history: totalAnalyses is the
    number of records, totalIssues the number of defect occurrences of
    all records, and averageIssuesPerDoc their quotient written with one
    decimal.  The complianceRate is max(0, 100 - averageIssuesPerDoc * 5)
    written with one decimal; it lies between 0 and 100; it is 0 when
    averageIssuesPerDoc is at least 20, hence for every history with 20
    occurrences or more per record, and only then; and it is 100 for a
    history without any occurrence.  For the empty history the result is the object of
    defaults: rate 100, average 0, totalAnalyses 0, mostCommonIssue
    None, and no other metric. *)
Theorem compliance_rate (analyses : list JsVal) :
  (Forall shapedRecord analyses -> returns (calculateCompliance analyses)) /\
  forall m,
    calculateCompliance analyses = Ok m ->
    (exists fs,
       occurrences analyses = Ok fs /\
       cm_totalAnalyses m = List.length analyses /\
       cm_averageIssuesPerDoc m =
         averagePerDoc (List.length fs) (List.length analyses) /\
       (analyses <> [] -> cm_totalIssues m = Some (List.length fs)) /\
       (analyses <> [] ->
        (20 * List.length analyses <= List.length fs)%nat ->
        cm_complianceRate m = Fin 0) /\
       (fs = [] -> cm_complianceRate m = Fin 100)) /\
    cm_complianceRate m =
      toNumber (toFixed1
        (max (Fin 0) (sub (Fin 100) (mul (cm_averageIssuesPerDoc m) (Fin 5))))) /\
    geb (cm_complianceRate m) (Fin 0) = true /\
    leb (cm_complianceRate m) (Fin 100) = true /\
    (geb (cm_averageIssuesPerDoc m) (Fin 20) = true -> cm_complianceRate m = Fin 0) /\
    (leb (cm_complianceRate m) (Fin 0) = true ->
     geb (cm_averageIssuesPerDoc m) (Fin 20) = true) /\
    (analyses = [] ->
     cm_complianceRate m = Fin 100 /\ cm_averageIssuesPerDoc m = Fin 0 /\
     cm_totalAnalyses m = 0%nat /\ cm_mostCommonIssue m = Known "None" /\
     cm_totalIssues m = None /\ cm_criticalIssues m = None /\
     cm_highIssues m = None /\ cm_mostCommonIssueCount m = None /\
     m = noAnalyses).
Proof.
  split; [apply calculateCompliance_returns|].
  intros m Hm.
  destruct analyses as [|a rest].
  - injection Hm; intros <-.
    split.
    { exists []. repeat split; try reflexivity; intros H; congruence. }
    split; [vm_compute; reflexivity|].
    split; [vm_compute; reflexivity|].
    split; [vm_compute; reflexivity|].
    split; [intros Hc; vm_compute in Hc; discriminate Hc|].
    split; [intros Hc; vm_compute in Hc; discriminate Hc|].
    intros _. repeat split.
  - destruct (calculateCompliance_tally (a :: rest) m ltac:(discriminate) Hm)
      as (t & fs & -> & Hocc & Etot & _ & _).
    set (n := List.length (a :: rest)).
    assert (Hn : (0 < n)%nat) by (unfold n; cbn; lia).
    assert (Hnum : isNaN (sub (Fin 100)
                     (mul (cm_averageIssuesPerDoc (metricsOf n t)) (Fin 5))) = false).
    { apply hundred_minus_not_NaN, times_five_not_NaN.
      cbn [metricsOf cm_averageIssuesPerDoc].
      now apply toNumber_toFixed1_not_NaN, average_not_NaN. }
    assert (Hfloor : geb (cm_averageIssuesPerDoc (metricsOf n t)) (Fin 20) = true ->
                     cm_complianceRate (metricsOf n t) = Fin 0).
    { intros Havg. apply rate_floor, score_floor. exact Havg. }
    split.
    { exists fs. split; [exact Hocc|]. split; [reflexivity|].
      cbn [metricsOf cm_averageIssuesPerDoc cm_totalIssues]. rewrite Etot.
      split; [reflexivity|]. split; [reflexivity|]. split.
      - intros _ H20. apply Hfloor.
        cbn [metricsOf cm_averageIssuesPerDoc]. rewrite Etot.
        now apply average_at_least_20.
      - intros ->. cbn [metricsOf cm_complianceRate].
        rewrite Etot. cbn [List.length]. unfold n. cbn [List.length].
        unfold complianceScore. rewrite average_of_none.
        vm_compute. reflexivity. }
    split; [reflexivity|].
    split; [apply rate_nonneg; exact Hnum|].
    split; [cbn [metricsOf cm_complianceRate]; now apply rate_at_most_100|].
    split; [exact Hfloor|].
    split.
    { cbn [metricsOf cm_complianceRate cm_averageIssuesPerDoc].
      apply zero_rate_from_20. now apply div_counts_nonnegNum. }
    intros Hnil. discriminate Hnil.
Qed.

Lemma compliance_rate_witness :
  (exists m,
     calculateCompliance crowdedHistory = Ok m /\
     cm_totalAnalyses m = 2%nat /\
     cm_totalIssues m = Some 43%nat /\
     cm_averageIssuesPerDoc m = Fin (43 # 2) /\
     cm_complianceRate m = Fin 0) /\
  (exists m,
     calculateCompliance quietHistory = Ok m /\
     cm_totalAnalyses m = 3%nat /\
     cm_totalIssues m = Some 2%nat /\
     render (toFixed1 (cm_averageIssuesPerDoc m)) = "0.7" /\
     cm_complianceRate m = Fin (193 # 2)) /\
  (exists m,
     calculateCompliance [] = Ok m /\
     cm_complianceRate m = Fin 100 /\
     cm_mostCommonIssue m = Known "None").
Proof.
  split; [|split].
  - destruct (compliance_rate crowdedHistory) as [Hreturns Hrate].
    destruct Hreturns as [m Hm].
    { unfold crowdedHistory, mkAnalysis, mkPhased, shapedRecord, shapedFindings,
        shapedPresets, shapedPreset, shapedDefect, highDefect.
      repeat constructor; simpl; try reflexivity; try discriminate;
        intros; repeat constructor. }
    exists m. split; [exact Hm|].
    destruct (Hrate m Hm) as ((fs & Hocc & Hn & Havg & Htot & H20 & _) & _).
    vm_compute in Hocc. injection Hocc; intros <-.
    split; [exact Hn|].
    split; [apply Htot; discriminate|].
    split; [rewrite Havg; vm_compute; reflexivity|].
    apply H20; [discriminate|]. vm_compute. lia.
  - destruct (compliance_rate quietHistory) as [Hreturns Hrate].
    destruct Hreturns as [m Hm].
    { unfold quietHistory, mkAnalysis, shapedRecord, shapedFindings,
        shapedPresets, shapedPreset, shapedDefect.
      repeat constructor; simpl; try reflexivity; try discriminate;
        intros; repeat constructor. }
    exists m. split; [exact Hm|].
    destruct (Hrate m Hm) as ((fs & Hocc & Hn & Havg & Htot & _) & Hrate' & _).
    vm_compute in Hocc. injection Hocc; intros <-.
    split; [exact Hn|].
    split; [apply Htot; discriminate|].
    split; [rewrite Havg; vm_compute; reflexivity|].
    rewrite Hrate', Havg. vm_compute. reflexivity.
  - destruct (compliance_rate []) as [_ Hrate].
    exists noAnalyses. split; [reflexivity|].
    destruct (Hrate noAnalyses eq_refl) as (_ & _ & _ & _ & _ & _ & Hempty).
    destruct (Hempty eq_refl) as (H100 & _ & _ & Hnone & _).
    split; assumption.
Defined.

(** X6: for a history that is not empty,
    calculateCompliance reports as criticalIssues and highIssues the
    numbers of defect occurrences, over all records, whose severity is
    exactly CRITICAL and exactly HIGH; the two together never exceed
    totalIssues, the number of all occurrences. *)
Theorem compliance_counts_occurrences (analyses : list JsVal) (m : ComplianceMetrics) :
  analyses <> [] ->
  calculateCompliance analyses = Ok m ->
  exists fs critical high,
    occurrences analyses = Ok fs /\
    cm_totalIssues m = Some (List.length fs) /\
    cm_criticalIssues m = Some critical /\
    cm_highIssues m = Some high /\
    critical = List.length (filter isCritical fs) /\
    high = List.length (filter isHigh fs) /\
    (critical + high <= List.length fs)%nat.
Proof.
  intros Hne H.
  destruct (calculateCompliance_tally analyses m Hne H)
    as (t & fs & -> & Hocc & E1 & E2 & E3).
  exists fs, (criticalCount t), (highCount t).
  cbn [metricsOf cm_totalIssues cm_criticalIssues cm_highIssues].
  rewrite E1. repeat split; try assumption.
  rewrite E2, E3.
  clear. induction fs as [|f fs IH]; cbn [filter List.length]; [lia|].
  unfold isCritical, isHigh in *.
  destruct (prop f "severity") as [| | | |s| |]; cbn [strictEq List.length];
    try lia.
  destruct (String.eqb_spec s "CRITICAL") as [->|_]; cbn [List.length];
    [cbn; lia|].
  destruct (s =? "HIGH"); cbn [List.length]; lia.
Qed.

Lemma compliance_counts_occurrences_witness :
  exists m fs critical high,
    calculateCompliance crowdedHistory = Ok m /\
    occurrences crowdedHistory = Ok fs /\
    cm_totalIssues m = Some 43%nat /\
    cm_criticalIssues m = Some critical /\
    cm_highIssues m = Some high /\
    critical = 0%nat /\
    high = 43%nat.
Proof.
  assert (H : exists m, calculateCompliance crowdedHistory = Ok m)
    by (eexists; vm_compute; reflexivity).
  destruct H as [m Hm].
  destruct (compliance_counts_occurrences crowdedHistory m ltac:(discriminate) Hm)
    as (fs & critical & high & Hocc & Ht & Hc & Hh & Ec & Eh & _).
  exists m, fs, critical, high.
  assert (Efs : Ok fs = occurrences crowdedHistory) by (now rewrite Hocc).
  vm_compute in Efs. injection Efs; intros ->.
  repeat split; assumption.
Defined.

(* ================================================================== *)
(** * Compliance: the most common issue *)
(* ================================================================== *)
















(* ================================================================== *)
(** * Recurring groups, and the recommendations made for them *)
(* ================================================================== *)

Lemma countDefect_record_not_nullish (analysis : JsVal) (dc dc' : DefectCounts)
    (f : JsVal) :
  countDefect analysis dc f = Ok dc' -> nullish analysis = false.
Proof.
  intros H. unfold countDefect in H.
  destruct (defectKey f) as [key|e] eqn:Hkey; [|discriminate].
  pose proof (defectKey_not_nullish f key Hkey) as Hf.
  cbn [bind] in H. rewrite !(get_prop f) in H by assumption. cbn [bind] in H.
  destruct (get analysis "timestamp") as [t|e] eqn:Ht; [|discriminate].
  now destruct (get_returns_inv _ _ _ Ht).
Qed.

Lemma countDefect_keyed (analysis : JsVal) (dc dc' : DefectCounts) (f : JsVal) :
  keyed dc -> countDefect analysis dc f = Ok dc' -> keyed dc'.
Proof.
  intros Hk H.
  pose proof (countDefect_record_not_nullish _ _ _ _ H) as Ha.
  destruct (countDefect_inv _ _ _ _ H) as (key & Hkey & _).
  destruct (countDefect_step analysis dc f key Ha Hkey Hk) as (dc'' & H' & Hk' & _).
  rewrite H in H'. injection H'; intros <-. exact Hk'.
Qed.

Lemma countDefect_wellCounted (analysis : JsVal) (dc dc' : DefectCounts) (f : JsVal) :
  Forall (fun kg => wellCounted (snd kg)) dc ->
  countDefect analysis dc f = Ok dc' ->
  Forall (fun kg => wellCounted (snd kg)) dc'.
Proof.
  intros Hw H. destruct (countDefect_inv _ _ _ _ H) as (key & _ & ->).
  apply (update_Forall (fun kg => wellCounted (snd kg))).
  - intros v [H1 H2]. cbn [snd] in *.
    split; cbn [bump dc_descriptions dc_analysisIds dc_count];
      rewrite length_app; cbn [List.length]; lia.
  - destruct (lookup key dc); [exact Hw|].
    apply Forall_app. split; [exact Hw|].
    constructor; [|constructor]. split; reflexivity.
Qed.

Lemma countAnalysis_keeps (I : DefectCounts -> Prop) :
  (forall analysis dc dc' f, I dc -> countDefect analysis dc f = Ok dc' -> I dc') ->
  forall analyses dc dc',
    I dc -> forEach countAnalysis analyses dc = Ok dc' -> I dc'.
Proof.
  intros Hstep analyses.
  apply (forEach_invariant countAnalysis (fun _ => True) I).
  - intros dc a dc' _ Hdc H. unfold countAnalysis in H.
    destruct (extractFindings a) as [fs|]; cbn [bind] in H; [|discriminate].
    revert H. apply (forEach_invariant (countDefect a) (fun _ => True) I).
    + intros s x s' _. apply Hstep.
    + apply Forall_forall. trivial.
    + exact Hdc.
  - apply Forall_forall. trivial.
Qed.

(** Dropping groups keeps the keys of the others distinct. *)
Lemma kept_keys_distinct {G K : Type} (keyOf : G -> K) (keep : G -> bool)
    (groups : list G) (Hdistinct : NoDup (map keyOf groups)) :
  NoDup (map keyOf (filter keep groups)).
Proof.
  induction groups as [|g rest IH]; cbn [map filter]; [constructor|].
  inversion Hdistinct as [|? ? Hfresh Hrest]; subst.
  destruct (keep g); [|now apply IH].
  cbn [map]. constructor; [|now apply IH].
  intros Hin. apply Hfresh. apply in_map_iff in Hin.
  destruct Hin as (g' & Hkey & Hin). apply filter_In in Hin.
  apply in_map_iff. exists g'. tauto.
Qed.

Lemma keyed_keys (dc : DefectCounts) :
  keyed dc -> NoDup (map keyOfGroup (map snd dc)).
Proof.
  intros [Hnd Hk].
  assert (E : map keyOfGroup (map snd dc) = map (@Ok string) (map fst dc)).
  { rewrite !map_map. apply map_ext_in. intros kg Hin.
    rewrite Forall_forall in Hk. now apply Hk. }
  rewrite E. clear E Hk. induction Hnd as [|k ks Hk _ IH]; cbn [map].
  - constructor.
  - constructor; [|exact IH]. intros Hin. apply Hk.
    apply in_map_iff in Hin. destruct Hin as (k' & E & Hin).
    injection E; intros <-. exact Hin.
Qed.

(** X7: whenever findRecurringDefects returns, every
    group of the result counts at least 3 occurrences and lists exactly
    one description and one record id per occurrence counted, and no two
    groups have the same grouping key. *)
Theorem recurring_groups_well_formed (analyses : list JsVal) (r : list DefectCount) :
  findRecurringDefects analyses = Ok r ->
  Forall (fun g => (3 <= dc_count g)%nat /\ wellCounted g) r /\
  NoDup (map keyOfGroup r).
Proof.
  unfold findRecurringDefects.
  destruct (forEach countAnalysis analyses []) as [dc|] eqn:Hdc; cbn [bind];
    [|discriminate].
  intros H; injection H; intros <-.
  assert (Hk : keyed dc).
  { apply (countAnalysis_keeps keyed) with (3 := Hdc).
    - intros a s s' f. apply countDefect_keyed.
    - split; constructor. }
  assert (Hw : Forall (fun kg => wellCounted (snd kg)) dc).
  { apply (countAnalysis_keeps (Forall (fun kg => wellCounted (snd kg))))
      with (3 := Hdc).
    - intros a s s' f. apply countDefect_wellCounted.
    - constructor. }
  split.
  - apply Forall_forall. intros g Hg.
    apply sort_In, filter_In in Hg. destruct Hg as [Hin H3].
    change ((3 <=? dc_count g)%nat = true) in H3.
    apply Nat.leb_le in H3. split; [exact H3|].
    apply in_map_iff in Hin. destruct Hin as (kg & <- & Hin).
    rewrite Forall_forall in Hw. now apply Hw.
  - apply (Permutation_NoDup
             (Permutation_map keyOfGroup (sort_perm byCountDesc _))).
    apply kept_keys_distinct, keyed_keys, Hk.
Qed.

Lemma recurring_groups_well_formed_witness :
  exists r,
    findRecurringDefects thresholdHistory = Ok r /\
    Forall (fun g => (3 <= dc_count g)%nat /\ wellCounted g) r /\
    NoDup (map keyOfGroup r).
Proof.
  assert (H : exists r, findRecurringDefects thresholdHistory = Ok r)
    by (eexists; vm_compute; reflexivity).
  destruct H as [r Hr]. exists r. split; [exact Hr|].
  exact (recurring_groups_well_formed thresholdHistory r Hr).
Defined.

Lemma pushIf_Forall {A : Type} (Q : A -> Prop) (cond : bool) (r : A) (l : list A) :
  Q r -> Forall Q l -> Forall Q (pushIf cond r l).
Proof.
  intros Hr Hl. unfold pushIf. destruct cond; [|exact Hl].
  apply Forall_app. split; [exact Hl|]. now constructor.
Qed.

(** What [recommend] pushes for a group is made for that group. *)
Lemma recommend_madeFor (Q : Recommendation -> Prop) (recs recs' : list Recommendation)
    (g : DefectCount) :
  (forall r, madeFor g r -> Q r) ->
  Forall Q recs -> recommend recs g = Ok recs' -> Forall Q recs'.
Proof.
  intros HQ Hrecs. unfold recommend.
  destruct (typeMentions (dc_type g) "55d" "directions") as [m1|]; cbn [bind];
    [|discriminate].
  destruct (typeMentions (dc_type g) "49" "reason to believe") as [m2|];
    cbn [bind]; [|discriminate].
  destruct (typeMentions (dc_type g) "464" "caution") as [m3|]; cbn [bind];
    [|discriminate].
  assert (H3 : Forall Q
                 (pushIf m3 (cautionAdvice g)
                    (pushIf m2 (beliefAdvice g)
                       (pushIf m1 (directionsAdvice g) recs)))).
  { repeat apply pushIf_Forall; try exact Hrecs;
      apply HQ; repeat split; left; reflexivity. }
  destruct (negb _ && (5 <=? dc_count g)%nat) eqn:Hc.
  - apply andb_true_iff in Hc. destruct Hc as [_ H5]. apply Nat.leb_le in H5.
    unfold genericAdvice.
    destruct (toString (dc_type g)); cbn [bind]; [|discriminate].
    destruct (toString (or_else (dc_statute g) (JStr "this requirement")));
      cbn [bind]; [|discriminate].
    intros H; injection H; intros <-.
    apply Forall_app. split; [exact H3|]. constructor; [|constructor].
    apply HQ. repeat split. right. repeat split. exact H5.
  - intros H; injection H; intros <-. exact H3.
Qed.

Lemma recommendations_madeFor (recurring : list DefectCount)
    (pushed : list Recommendation) :
  forEach recommend recurring [] = Ok pushed ->
  Forall (fun r => exists g, In g recurring /\ madeFor g r) pushed.
Proof.
  apply (forEach_invariant recommend (fun g => In g recurring)
           (Forall (fun r => exists g, In g recurring /\ madeFor g r))).
  - intros recs g recs' Hg Hrecs H.
    apply (recommend_madeFor _ recs recs' g); try assumption.
    intros r Hr. now exists g.
  - apply Forall_forall. trivial.
  - constructor.
Qed.

Lemma recurring_at_least_3 (analyses : list JsVal) (r : list DefectCount) :
  findRecurringDefects analyses = Ok r -> Forall (fun g => (3 <= dc_count g)%nat) r.
Proof.
  unfold findRecurringDefects.
  destruct (forEach countAnalysis analyses []) as [dc|]; cbn [bind]; [|discriminate].
  intros H; injection H; intros <-.
  apply Forall_forall. intros g Hg.
  apply sort_In, filter_In in Hg. destruct Hg as [_ H3].
  change ((3 <=? dc_count g)%nat = true) in H3. now apply Nat.leb_le.
Qed.

Lemma generateRecommendations_madeFor (analyses : list JsVal)
    (recs : list Recommendation) :
  generateRecommendations analyses = Ok recs ->
  exists recurring,
    findRecurringDefects analyses = Ok recurring /\
    Forall (fun r => exists g,
              In g recurring /\ madeFor g r /\ (3 <= rec_frequency r)%nat) recs.
Proof.
  intros H.
  destruct (generateRecommendations_inv analyses recs H)
    as (recurring & pushed & Hrec & Hpushed & ->).
  exists recurring. split; [exact Hrec|].
  pose proof (recommendations_madeFor recurring pushed Hpushed) as Hm.
  pose proof (recurring_at_least_3 analyses recurring Hrec) as H3.
  rewrite Forall_forall in *. intros r Hr. apply sort_In in Hr.
  destruct (Hm r Hr) as (g & Hg & Hmade). exists g.
  repeat split; try assumption; try apply Hmade.
  destruct Hmade as (_ & -> & _). now apply H3.
Qed.

(** X8: every recommendation that
    generateRecommendations returns is made for a group that
    findRecurringDefects reports for the same history: it carries the
    group's type and count (3 or more), and it has priority 1 (a
    specialised rule) or priority 2 with the group's severity, the latter
    only for a group counting 5 occurrences or more. *)
Theorem recommendations_come_from_recurring_groups (analyses : list JsVal)
    (recs : list Recommendation) :
  generateRecommendations analyses = Ok recs ->
  exists recurring,
    findRecurringDefects analyses = Ok recurring /\
    Forall (fun r => exists g,
              In g recurring /\ madeFor g r /\ (3 <= rec_frequency r)%nat) recs.
Proof. apply generateRecommendations_madeFor. Qed.

Lemma recommendations_come_from_recurring_groups_witness :
  exists recs recurring,
    generateRecommendations recurringHistory = Ok recs /\
    findRecurringDefects recurringHistory = Ok recurring /\
    Forall (fun r => exists g,
              In g recurring /\ madeFor g r /\ (3 <= rec_frequency r)%nat) recs.
Proof.
  assert (H : exists recs, generateRecommendations recurringHistory = Ok recs)
    by (eexists; vm_compute; reflexivity).
  destruct H as [recs Hrecs].
  destruct (recommendations_come_from_recurring_groups recurringHistory recs Hrecs)
    as (recurring & Hrec & Hall).
  exists recs, recurring. repeat split; assumption.
Defined.

(** X9: analyzePatterns returns on every history of
    well-shaped records; and whenever it returns, its five parts are the
    results of the five operations on the same history, so that every
    recommendation in it is made for one of the recurring groups in it
    and its totalAnalyses is the number of records. *)
Theorem analyzePatterns_bundles_the_operations (analyses : list JsVal) :
  (Forall shapedRecord analyses -> returns (analyzePatterns analyses)) /\
  forall i,
    analyzePatterns analyses = Ok i ->
    findRecurringDefects analyses = Ok (ins_recurring i) /\
    analyzeTrends analyses = Ok (ins_trends i) /\
    generateRecommendations analyses = Ok (ins_recommendations i) /\
    identifyNovelIssues analyses = Ok (ins_novelIssues i) /\
    calculateCompliance analyses = Ok (ins_complianceMetrics i) /\
    Forall (fun r => exists g, In g (ins_recurring i) /\ madeFor g r)
           (ins_recommendations i) /\
    cm_totalAnalyses (ins_complianceMetrics i) = List.length analyses.
Proof.
  unfold analyzePatterns. split.
  - intros Hs.
    destruct (findRecurringDefects_returns analyses Hs) as (r & -> & _).
    destruct (analyzeTrends_returns analyses Hs) as (t & ->).
    destruct (generateRecommendations_returns analyses Hs) as (? & ? & _ & _ & ->).
    destruct (identifyNovelIssues_returns analyses Hs) as (n & ->).
    destruct (calculateCompliance_returns analyses Hs) as (m & ->).
    cbn [bind]. eexists. reflexivity.
  - intros i.
    destruct (findRecurringDefects analyses) as [r|] eqn:Hr; cbn [bind];
      [|discriminate].
    destruct (analyzeTrends analyses) as [t|]; cbn [bind]; [|discriminate].
    destruct (generateRecommendations analyses) as [recs|] eqn:Hrecs; cbn [bind];
      [|discriminate].
    destruct (identifyNovelIssues analyses) as [n|]; cbn [bind]; [|discriminate].
    destruct (calculateCompliance analyses) as [m|] eqn:Hm; cbn [bind];
      [|discriminate].
    intros H; injection H; intros <-. cbn.
    repeat split; try reflexivity.
    + destruct (generateRecommendations_madeFor analyses recs Hrecs)
        as (recurring & Hrec & Hall).
      rewrite Hr in Hrec. injection Hrec; intros <-.
      eapply Forall_impl; [|exact Hall].
      intros a (g & Hg & Hmade & _). now exists g.
    + destruct (calculateCompliance_inv analyses m Hm)
        as [[-> ->]|(_ & t' & ->)]; reflexivity.
Qed.

(* ================================================================== *)
(** * The trend window, and histories without novel issues *)
(* ================================================================== *)

Lemma lastFive_app (older recent : list JsVal) :
  List.length recent = 5%nat -> lastFive (older ++ recent)%list = recent.
Proof.
  intros H. unfold lastFive. rewrite length_app, H.
  replace (List.length older + 5 - 5)%nat with (List.length older + 0)%nat by lia.
  rewrite skipn_app, Nat.add_0_r, skipn_all.
  replace (List.length older - List.length older)%nat with 0%nat by lia.
  reflexivity.
Qed.

(** X10: analyzeTrends reads the five most recent records
    only.  Whatever stands before them in the history, even a record
    that would make the other operations throw, changes nothing; and the
    trend compares the average of the first two of the five counts with
    the average of the last three. *)
Theorem analyzeTrends_reads_last_five (older recent : list JsVal) :
  List.length recent = 5%nat ->
  analyzeTrends (older ++ recent)%list = analyzeTrends recent /\
  forall counts,
    mapM severityCount recent = Ok counts ->
    analyzeTrends (older ++ recent)%list =
    Ok (TrendReport (classifyTrend (average (firstn 2 counts))
                                   (average (skipn 2 counts)))).
Proof.
  intros H.
  assert (E : analyzeTrends (older ++ recent)%list =
              (severityCounts <- mapM severityCount recent ;;
               Ok (TrendReport
                     (classifyTrend
                        (average (firstn (List.length severityCounts / 2)
                                    severityCounts))
                        (average (skipn (List.length severityCounts / 2)
                                    severityCounts)))))).
  { unfold analyzeTrends. rewrite (lastFive_app older recent H).
    rewrite length_app, H.
    assert (L : (List.length older + 5 <? 3)%nat = false) by (apply Nat.ltb_ge; lia).
    now rewrite L. }
  split.
  - rewrite E. unfold analyzeTrends. rewrite H. cbn [Nat.ltb Nat.leb].
    unfold lastFive. rewrite H. reflexivity.
  - intros counts Hc. rewrite E, Hc. cbn [bind].
    rewrite (mapM_length _ _ _ Hc), H. reflexivity.
Qed.

Lemma analyzeTrends_reads_last_five_witness :
  analyzeTrends ([objectForFindings; nullFinding] ++ recurringHistory)%list =
    analyzeTrends recurringHistory /\
  analyzeTrends ([objectForFindings; nullFinding] ++ recurringHistory)%list =
    Ok (TrendReport (classifyTrend (average [1; 1]%nat) (average [1; 0; 0]%nat))).
Proof.
  destruct (analyzeTrends_reads_last_five [objectForFindings; nullFinding]
              recurringHistory eq_refl) as [H1 H2].
  split; [exact H1|]. apply (H2 [1; 1; 1; 0; 0]%nat). reflexivity.
Defined.

Lemma novelOccurrences_none (seen fs : list JsVal) :
  Forall (fun f => existsb (strictEq (prop f "type")) seen = true) fs ->
  novelOccurrences seen fs = [].
Proof.
  induction 1 as [|f rest Hf _ IH]; [reflexivity|].
  unfold novelOccurrences in *. cbn [filter]. now rewrite Hf.
Qed.

(** X11: when every defect type of the latest record already
    occurs in an earlier record, identifyNovelIssues returns the empty
    list; in particular the analysis of a document whose record repeats
    the one before it reports nothing as new. *)
Theorem no_novel_issue_among_seen_types (earlier : list JsVal) (latest : JsVal)
    (tss : list (list JsVal)) (fs : list JsVal) :
  mapM typesOf earlier = Ok tss ->
  extractFindings latest = Ok fs ->
  Forall (fun f => nullish f = false /\
                   existsb (strictEq (prop f "type")) (List.concat tss) = true) fs ->
  identifyNovelIssues (earlier ++ [latest])%list = Ok [].
Proof.
  intros Htss Hfs Hall.
  rewrite (identifyNovelIssues_eq earlier latest tss fs Htss Hfs).
  - rewrite novelOccurrences_none; [reflexivity|].
    eapply Forall_impl; [|exact Hall]. now intros f [_ H].
  - eapply Forall_impl; [|exact Hall]. now intros f [H _].
Qed.

Lemma no_novel_issue_among_seen_types_witness :
  identifyNovelIssues ((novelHistory ++ [novelLatest]) ++ [novelLatest])%list = Ok [].
Proof.
  apply (no_novel_issue_among_seen_types (novelHistory ++ [novelLatest])%list
           novelLatest
           [[JStr "A"]; [JStr "B"]; [JStr "C"; JStr "A"; JStr "C"]]
           [mkBareDefect "C" "HIGH"; mkBareDefect "A" "LOW"; mkBareDefect "C" "HIGH"]).
  - reflexivity.
  - reflexivity.
  - repeat constructor.
Defined.

(* ================================================================== *)
(** * Prioritized defects: which entries have historical data *)
(* ================================================================== *)

Lemma mapM_Forall2 {A B : Type} (f : A -> Res B) (l : list A) : forall ys,
  mapM f l = Ok ys -> Forall2 (fun x y => f x = Ok y) l ys.
Proof.
  induction l as [|x t IH]; intros ys H; cbn [mapM] in H.
  - injection H; intros <-. constructor.
  - destruct (f x) as [y|] eqn:Hy; cbn [bind] in H; [|discriminate].
    destruct (mapM f t) as [ys'|]; cbn [bind] in H; [|discriminate].
    injection H; intros <-. constructor; [exact Hy|now apply IH].
Qed.

(** The entry that [prioritize] makes for a defect. *)
Lemma prioritize_inv (d : Detector) (defect : JsVal) (e : Prioritized) :
  prioritize d defect = Ok e ->
  nullish defect = false /\
  pr_defect e = defect /\
  if (3 <=? timesRecorded d defect)%nat
  then pr_hasHistoricalData e = true /\
       pr_timesRaised e = Some (timesRecorded d defect) /\
       exists text, pr_successRate e = Some text
  else e = noDataEntry defect.
Proof.
  unfold prioritize, timesRecorded, counter.
  destruct (get defect "type") as [type|] eqn:Ht; cbn [bind]; [|discriminate].
  destruct (get_returns_inv _ _ _ Ht) as [Hnn ->].
  destruct (mapGet (prop defect "type") (successRates d)) as [s|].
  - destruct (3 <=? st_totalRaised s)%nat; intros H; injection H; intros <-;
      cbn; repeat split; try reflexivity; try assumption.
    eexists. reflexivity.
  - intros H; injection H; intros <-. cbn. repeat split; assumption.
Qed.

Lemma prioritize_entries (d : Detector) (defects : list JsVal) : forall entries,
  mapM (prioritize d) defects = Ok entries ->
  map pr_defect entries = defects /\
  Forall (fun e =>
            if (3 <=? timesRecorded d (pr_defect e))%nat
            then pr_hasHistoricalData e = true /\
                 pr_timesRaised e = Some (timesRecorded d (pr_defect e)) /\
                 exists text, pr_successRate e = Some text
            else e = noDataEntry (pr_defect e)) entries.
Proof.
  intros entries H. apply mapM_Forall2 in H.
  induction H as [|f e fs es He _ [IH1 IH2]]; [split; constructor|].
  destruct (prioritize_inv d f e He) as (_ & Hd & Hrest).
  cbn [map]. rewrite Hd, IH1. split; [reflexivity|].
  constructor; [|exact IH2]. rewrite Hd. exact Hrest.
Qed.

(** X12: prioritizeDefects returns one entry for each
    defect it is given, none lost and none added, whatever order the
    sort leaves them in; an entry has
    historical data exactly when the detector has recorded 3 outcomes or
    more for the type of its defect, and it then carries that number and
    a success rate; any other entry is the plain no-data entry. *)
Theorem prioritizeDefects_keeps_every_defect (d : Detector) (defects : list JsVal)
    (r : Arranged Prioritized) :
  prioritizeDefects d defects = Ok r ->
  Permutation (map pr_defect (members r)) defects /\
  Forall (fun e =>
            if (3 <=? timesRecorded d (pr_defect e))%nat
            then pr_hasHistoricalData e = true /\
                 pr_timesRaised e = Some (timesRecorded d (pr_defect e)) /\
                 exists text, pr_successRate e = Some text
            else e = noDataEntry (pr_defect e)) (members r).
Proof.
  unfold prioritizeDefects.
  destruct (mapM (prioritize d) defects) as [entries|] eqn:He; cbn [bind];
    [|discriminate].
  intros H; injection H; intros <-.
  destruct (prioritize_entries d defects entries He) as [Hd Hall].
  assert (Hp : Permutation entries (members (arrange byHistoricalRate entries))).
  { unfold arrange. destruct (consistentOn byHistoricalRate entries); cbn [members].
    - apply sort_perm.
    - apply Permutation_refl. }
  split.
  - rewrite <- Hd. apply Permutation_map, Permutation_sym, Hp.
  - apply (Permutation_Forall Hp). exact Hall.
Qed.

Lemma prioritizeDefects_keeps_every_defect_witness :
  exists r,
    prioritizeDefects (learned smallLedger)
      [mkBareDefect "X" "LOW"; mkBareDefect "Y" "HIGH"; mkBareDefect "Z" "LOW"]
      = Ok r /\
    Permutation (map pr_defect (members r))
      [mkBareDefect "X" "LOW"; mkBareDefect "Y" "HIGH"; mkBareDefect "Z" "LOW"] /\
    Forall (fun e =>
              if (3 <=? timesRecorded (learned smallLedger) (pr_defect e))%nat
              then pr_hasHistoricalData e = true /\
                   pr_timesRaised e =
                     Some (timesRecorded (learned smallLedger) (pr_defect e)) /\
                   exists text, pr_successRate e = Some text
              else e = noDataEntry (pr_defect e)) (members r).
Proof.
  assert (H : exists r,
             prioritizeDefects (learned smallLedger)
               [mkBareDefect "X" "LOW"; mkBareDefect "Y" "HIGH"; mkBareDefect "Z" "LOW"]
             = Ok r) by (eexists; vm_compute; reflexivity).
  destruct H as [r Hr]. exists r. split; [exact Hr|].
  exact (prioritizeDefects_keeps_every_defect _ _ r Hr).
Defined.

Lemma sort_tied {A : Type} (cmp : A -> A -> Z) (l : list A) :
  (forall a b, In a l -> In b l -> (cmp a b <= 0)%Z) -> sort cmp l = l.
Proof.
  induction l as [|x t IH]; intros H; [reflexivity|].
  cbn [sort]. rewrite IH by (intros a b Ha Hb; apply H; now right).
  destruct t as [|y t']; [reflexivity|]. cbn [insert].
  assert (E : (cmp x y <=? 0)%Z = true).
  { apply Z.leb_le, H; [now left|right; now left]. }
  now rewrite E.
Qed.

Lemma consistentOn_tied {A : Type} (cmp : A -> A -> Z) (l : list A) :
  (forall a b, In a l -> In b l -> cmp a b = 0%Z) -> consistentOn cmp l = true.
Proof.
  intros H. unfold consistentOn.
  apply forallb_forall. intros a Ha.
  apply forallb_forall. intros b Hb.
  apply andb_true_iff. split.
  - unfold opposite. now rewrite (H a b Ha Hb), (H b a Hb Ha).
  - apply forallb_forall. intros c Hc. unfold chained.
    rewrite (H a c Ha Hc). now destruct (_ && _).
Qed.

(** X13: when the detector has recorded fewer than 3
    outcomes for the type of every defect given, as it has right after a
    reset, prioritizeDefects returns the plain no-data entries of the
    defects in the order in which they were given: the comparator ties
    them all, and the sort is stable. *)
Theorem prioritizeDefects_without_history (d : Detector) (defects : list JsVal) :
  Forall (fun f => nullish f = false /\ (timesRecorded d f < 3)%nat) defects ->
  prioritizeDefects d defects = Ok (InOrder (map noDataEntry defects)).
Proof.
  intros Hall. unfold prioritizeDefects.
  assert (E : mapM (prioritize d) defects = Ok (map noDataEntry defects)).
  { induction Hall as [|f rest [Hnn Hlt] _ IH]; [reflexivity|].
    cbn [mapM map]. rewrite IH.
    assert (Ef : prioritize d f = Ok (noDataEntry f)).
    { unfold prioritize. rewrite (get_prop f "type" Hnn). cbn [bind].
      unfold timesRecorded, counter in Hlt.
      destruct (mapGet (prop f "type") (successRates d)) as [s|]; [|reflexivity].
      assert (L : (3 <=? st_totalRaised s)%nat = false) by (apply Nat.leb_gt; lia).
      now rewrite L. }
    now rewrite Ef. }
  rewrite E. cbn [bind].
  assert (T : forall a b,
             In a (map noDataEntry defects) -> In b (map noDataEntry defects) ->
             byHistoricalRate a b = 0%Z).
  { intros a b Ha Hb. apply in_map_iff in Ha. destruct Ha as (f & <- & _).
    reflexivity. }
  unfold arrange. rewrite (consistentOn_tied _ _ T).
  do 2 f_equal. apply sort_tied.
  intros a b Ha Hb. rewrite (T a b Ha Hb). lia.
Qed.

Lemma prioritizeDefects_without_history_witness :
  prioritizeDefects (reset (learned smallLedger))
    [mkBareDefect "Y" "LOW"; mkBareDefect "X" "HIGH"] =
  Ok (InOrder [noDataEntry (mkBareDefect "Y" "LOW");
               noDataEntry (mkBareDefect "X" "HIGH")]).
Proof.
  apply (prioritizeDefects_without_history (reset (learned smallLedger))
           [mkBareDefect "Y" "LOW"; mkBareDefect "X" "HIGH"]).
  repeat constructor.
Defined.

(* ================================================================== *)
(** * Document-level patterns: what detectPatterns reports *)
(* ================================================================== *)

(** X14: assessSignificance is monotone: a higher
    frequency never gets a lower level of significance (LOW below 5,
    MEDIUM from 5, HIGH from 7, CRITICAL from 10). *)
Theorem assessSignificance_monotone (f1 f2 : nat) :
  (f1 <= f2)%nat ->
  (significanceRank (assessSignificance f1) <=
   significanceRank (assessSignificance f2))%nat.
Proof.
  intros H. unfold assessSignificance.
  destruct (Nat.leb_spec 10 f1), (Nat.leb_spec 10 f2),
           (Nat.leb_spec 7 f1), (Nat.leb_spec 7 f2),
           (Nat.leb_spec 5 f1), (Nat.leb_spec 5 f2);
    cbn; lia.
Qed.

Lemma assessSignificance_monotone_witness :
  (significanceRank (assessSignificance 4) <=
   significanceRank (assessSignificance 7))%nat.
Proof. apply (assessSignificance_monotone 4 7). lia. Defined.

(** The entries of the map stored under a key, after one more finding. *)
Lemma addToGroup_filter (type f k : JsVal) (m : FindingsByType) :
  filter (fun kg => strictEq (fst kg) k) (addToGroup type f m) =
  if strictEq type k then
    match filter (fun kg => strictEq (fst kg) k) m with
    | [] => [(type, [f])]
    | (k', g) :: rest => (k', (g ++ [f])%list) :: rest
    end
  else filter (fun kg => strictEq (fst kg) k) m.
Proof.
  induction m as [|[k' g] rest IH]; cbn [addToGroup filter fst].
  - destruct (strictEq type k); reflexivity.
  - destruct (strictEq k' type) eqn:Ht; cbn [filter fst].
    + apply strictEq_eq in Ht. subst k'.
      destruct (strictEq type k); reflexivity.
    + rewrite IH. destruct (strictEq k' k) eqn:Hk; [|reflexivity].
      apply strictEq_eq in Hk. subst k'.
      rewrite strictEq_sym, Ht. reflexivity.
Qed.

Lemma findingsOfType_snoc (k f : JsVal) (fs : list JsVal) :
  findingsOfType k (fs ++ [f])%list =
  (findingsOfType k fs ++ if strictEq (groupType f) k then [f] else [])%list.
Proof.
  unfold findingsOfType. rewrite filter_app. cbn [filter].
  now destruct (strictEq (groupType f) k).
Qed.

Lemma groupFinding_inv (m m' : FindingsByType) (f : JsVal) :
  groupFinding m f = Ok m' ->
  nullish f = false /\ m' = addToGroup (groupType f) f m.
Proof.
  unfold groupFinding, groupType.
  destruct (get f "type") as [t|] eqn:Ht; cbn [bind]; [|discriminate].
  destruct (get_returns_inv _ _ _ Ht) as [Hnn ->].
  intros H; injection H; intros <-. now split.
Qed.

Lemma groupFinding_grouped (m m' : FindingsByType) (done : list JsVal) (f : JsVal) :
  grouped m done -> groupFinding m f = Ok m' -> grouped m' (done ++ [f])%list.
Proof.
  intros Hg H. destruct (groupFinding_inv _ _ _ H) as [_ ->].
  intros k. rewrite addToGroup_filter, findingsOfType_snoc, (Hg k).
  destruct (strictEq (groupType f) k) eqn:E.
  - apply strictEq_eq in E. subst k.
    destruct (findingsOfType (groupType f) done); reflexivity.
  - now rewrite app_nil_r.
Qed.

Lemma forEach_groupFinding (fs : list JsVal) : forall m m' done,
  grouped m done -> forEach groupFinding fs m = Ok m' ->
  grouped m' (done ++ fs)%list.
Proof.
  induction fs as [|f rest IH]; intros m m' done Hg H; cbn [forEach] in H.
  - injection H; intros <-. now rewrite app_nil_r.
  - destruct (groupFinding m f) as [m1|] eqn:H1; cbn [bind] in H; [|discriminate].
    replace (done ++ f :: rest)%list with ((done ++ [f]) ++ rest)%list
      by (now rewrite <- app_assoc).
    apply (IH m1); [|exact H]. now apply (groupFinding_grouped m).
Qed.

(** The recurring-issue pattern of a group, when its key is the text [t]. *)
Lemma recurringIssue_for (t : string) (k : JsVal) (g : list JsVal) (p : Pattern) :
  recurringIssue k g = Ok p ->
  pt_type p = "Recurring Issue" /\
  pt_frequency p = List.length g /\
  recurringFor t p = strictEq k (JStr t) /\
  (strictEq k (JStr t) = true -> p = recurringPattern t g).
Proof.
  unfold recurringIssue.
  destruct (toString k) as [text|] eqn:Hk; cbn [bind]; [|discriminate].
  intros H; injection H; intros <-. repeat split.
  intros E. apply strictEq_eq in E. subst k.
  injection Hk; intros <-. reflexivity.
Qed.

Lemma filter_snoc {A : Type} (p : A -> bool) (l : list A) (x : A) :
  filter p (l ++ [x]) = (filter p l ++ if p x then [x] else [])%list.
Proof. rewrite filter_app. cbn [filter]. now destruct (p x). Qed.

Lemma forEach_reportGroup (t : string) (m : FindingsByType) : forall acc ps,
  forEach reportGroup m acc = Ok ps ->
  filter (recurringFor t) ps =
  (filter (recurringFor t) acc ++
   flat_map (fun kg => if (3 <=? List.length (snd kg))%nat
                       then [recurringPattern t (snd kg)] else [])
            (filter (fun kg => strictEq (fst kg) (JStr t)) m))%list.
Proof.
  induction m as [|[k g] rest IH]; intros acc ps H; cbn [forEach] in H.
  - injection H; intros <-. cbn. now rewrite app_nil_r.
  - destruct (reportGroup acc (k, g)) as [acc1|] eqn:H1; cbn [bind] in H;
      [|discriminate].
    rewrite (IH _ _ H). clear IH H.
    unfold reportGroup, threshold in H1. cbn [fst snd] in H1.
    cbn [filter fst].
    destruct (3 <=? List.length g)%nat eqn:H3.
    + destruct (recurringIssue k g) as [p|] eqn:Hp; cbn [bind] in H1;
        [|discriminate].
      injection H1; intros <-.
      destruct (recurringIssue_for t k g p Hp) as (_ & _ & Hfor & Heq).
      rewrite filter_snoc, Hfor.
      destruct (strictEq k (JStr t)) eqn:E.
      * cbn [flat_map snd]. rewrite H3, (Heq eq_refl), <- app_assoc. reflexivity.
      * now rewrite app_nil_r.
    + injection H1; intros <-.
      destruct (strictEq k (JStr t)); [|reflexivity].
      cbn [flat_map snd]. now rewrite H3.
Qed.

Lemma detectTemporalPatterns_inv (findings : JsVal) (ps : list Pattern) :
  detectTemporalPatterns findings = Ok ps ->
  ps = [] \/ exists n, (6 <= n)%nat /\ ps = [temporalPattern n].
Proof.
  unfold detectTemporalPatterns.
  destruct (asArray findings); cbn [bind]; [|discriminate].
  destruct (filterM isTemporal a) as [l|]; cbn [bind]; [|discriminate].
  destruct (Nat.ltb_spec 5 (List.length l)) as [L|L]; intros H; injection H;
    intros <-.
  - right. eexists. split; [|reflexivity]. lia.
  - now left.
Qed.

Lemma detectSeverityPatterns_inv (findings : JsVal) (ps : list Pattern) :
  detectSeverityPatterns findings = Ok ps ->
  ps = [] \/ exists n, (4 <= n)%nat /\ ps = [severityPattern n].
Proof.
  unfold detectSeverityPatterns.
  destruct (asArray findings); cbn [bind]; [|discriminate].
  destruct (forEach countSeverity a _) as [c|]; cbn [bind]; [|discriminate].
  destruct (Nat.ltb_spec 3 (sc_CRITICAL c)) as [L|L]; intros H; injection H;
    intros <-.
  - right. eexists. split; [|reflexivity]. lia.
  - now left.
Qed.

Lemma detectPatterns_inv (fs : list JsVal) (ps : list Pattern) :
  detectPatterns (JArr fs) = Ok ps ->
  exists m recurring temporal severity,
    forEach groupFinding fs [] = Ok m /\
    forEach reportGroup m [] = Ok recurring /\
    detectTemporalPatterns (JArr fs) = Ok temporal /\
    detectSeverityPatterns (JArr fs) = Ok severity /\
    ps = (recurring ++ temporal ++ severity)%list.
Proof.
  unfold detectPatterns. cbn [asArray bind].
  destruct (forEach groupFinding fs []) as [m|] eqn:Hm; cbn [bind];
    [|discriminate].
  destruct (forEach reportGroup m []) as [r|] eqn:Hr; cbn [bind]; [|discriminate].
  destruct (detectTemporalPatterns (JArr fs)) as [t|] eqn:Ht; cbn [bind];
    [|discriminate].
  destruct (detectSeverityPatterns (JArr fs)) as [s|] eqn:Hs; cbn [bind];
    [|discriminate].
  intros H; injection H; intros <-. exists m, r, t, s. repeat split; assumption.
Qed.

(** X15: detectPatterns groups the findings of a
    document by type, a finding without a type (any falsy type) going
    with those of type Unknown.  For every text [t] the result holds
    exactly one recurring-issue pattern of category [t] when 3 findings
    or more are grouped under [t], and none otherwise; the pattern
    carries the number of these findings as its frequency, the
    significance of that number, and the first three of them as
    examples. *)
Theorem detectPatterns_recurring_issues (fs : list JsVal) (ps : list Pattern)
    (t : string) :
  detectPatterns (JArr fs) = Ok ps ->
  filter (recurringFor t) ps =
  if (3 <=? List.length (findingsOfType (JStr t) fs))%nat
  then [recurringPattern t (findingsOfType (JStr t) fs)]
  else [].
Proof.
  intros H.
  destruct (detectPatterns_inv fs ps H) as (m & r & tp & sv & Hm & Hr & Ht & Hs & ->).
  assert (Hg : grouped m fs).
  { apply (forEach_groupFinding fs [] m [] (fun k => eq_refl) Hm). }
  rewrite !filter_app.
  assert (Et : filter (recurringFor t) tp = []).
  { destruct (detectTemporalPatterns_inv _ _ Ht) as [->|(n & _ & ->)]; reflexivity. }
  assert (Es : filter (recurringFor t) sv = []).
  { destruct (detectSeverityPatterns_inv _ _ Hs) as [->|(n & _ & ->)]; reflexivity. }
  rewrite Et, Es, !app_nil_r.
  rewrite (forEach_reportGroup t m [] r Hr), (Hg (JStr t)). cbn [filter app].
  destruct (findingsOfType (JStr t) fs) as [|x xs]; [reflexivity|].
  cbn [flat_map snd]. now rewrite app_nil_r.
Qed.

Lemma detectPatterns_recurring_issues_witness :
  exists ps,
    detectPatterns (JArr mixedFindings) = Ok ps /\
    filter (recurringFor "Timeline gap") ps =
      [recurringPattern "Timeline gap"
         [mkBareDefect "Timeline gap" "critical"; mkBareDefect "Timeline gap" "CRITICAL";
          mkBareDefect "Timeline gap" "HIGH"; mkBareDefect "Timeline gap" "LOW"]] /\
    List.length (findingsOfType (JStr "Unknown") mixedFindings) = 3%nat /\
    filter (recurringFor "Unknown") ps =
      [recurringPattern "Unknown" (findingsOfType (JStr "Unknown") mixedFindings)] /\
    filter (recurringFor "Late disclosure") ps = [].
Proof.
  assert (H : exists ps, detectPatterns (JArr mixedFindings) = Ok ps)
    by (eexists; vm_compute; reflexivity).
  destruct H as [ps Hps]. exists ps. split; [exact Hps|].
  split; [exact (detectPatterns_recurring_issues mixedFindings ps "Timeline gap" Hps)|].
  split; [reflexivity|].
  split; [exact (detectPatterns_recurring_issues mixedFindings ps "Unknown" Hps)|].
  exact (detectPatterns_recurring_issues mixedFindings ps "Late disclosure" Hps).
Defined.

(* ================================================================== *)
(** * Severity patterns of a document *)
(* ================================================================== *)

Lemma forEach_countSeverity (fs : list JsVal) : forall c c',
  forEach countSeverity fs c = Ok c' ->
  exists severities,
    mapM severityName fs = Ok severities /\
    sc_CRITICAL c' = (sc_CRITICAL c + timesNamed "CRITICAL" severities)%nat.
Proof.
  induction fs as [|f rest IH]; intros c c' H; cbn [forEach] in H.
  - injection H; intros <-. exists []. split; [reflexivity|]. cbn. lia.
  - destruct (countSeverity c f) as [c1|] eqn:H1; cbn [bind] in H; [|discriminate].
    unfold countSeverity in H1.
    destruct (severityName f) as [s|] eqn:Hs; cbn [bind] in H1; [|discriminate].
    destruct (IH _ _ H) as (severities & Hsev & E).
    exists (s :: severities). cbn [mapM]. rewrite Hs, Hsev. cbn [bind].
    split; [reflexivity|]. rewrite E.
    unfold timesNamed. cbn [filter]. rewrite (String.eqb_sym "CRITICAL" s).
    injection H1; intros <-.
    destruct (s =? "CRITICAL") eqn:E1; [cbn [sc_CRITICAL List.length]; lia|].
    destruct (s =? "HIGH"); [cbn [sc_CRITICAL]; lia|].
    destruct (s =? "MEDIUM"); [cbn [sc_CRITICAL]; lia|].
    destruct (s =? "LOW"); cbn [sc_CRITICAL]; lia.
Qed.

(** X23: detectSeverityPatterns reads the severity of
    each finding in capital letters (LOW for a finding without one)
    and reports one pattern when more than 3 of them read CRITICAL, with
    their number as its frequency, and nothing otherwise.  Severities
    written in small letters count here, whereas calculateCompliance
    counts a severity only when it is written CRITICAL. *)
Theorem detectSeverityPatterns_counts_critical (fs : list JsVal)
    (ps : list Pattern) :
  detectSeverityPatterns (JArr fs) = Ok ps ->
  exists severities,
    mapM severityName fs = Ok severities /\
    ps = if (3 <? timesNamed "CRITICAL" severities)%nat
         then [severityPattern (timesNamed "CRITICAL" severities)]
         else [].
Proof.
  unfold detectSeverityPatterns. cbn [asArray bind].
  destruct (forEach countSeverity fs _) as [c|] eqn:Hc; cbn [bind]; [|discriminate].
  destruct (forEach_countSeverity _ _ _ Hc) as (severities & Hsev & E).
  cbn [sc_CRITICAL] in E. rewrite Nat.add_0_l in E.
  intros H; injection H; intros <-.
  exists severities. split; [exact Hsev|]. now rewrite E.
Qed.

Lemma detectSeverityPatterns_counts_critical_witness :
  detectSeverityPatterns (JArr smallLetters) = Ok [severityPattern 4] /\
  (exists m,
     calculateCompliance [mkAnalysis 1 "2024-05-01T00:00:00.000Z" smallLetters]
       = Ok m /\
     cm_criticalIssues m = Some 0%nat).
Proof.
  split.
  - assert (H : exists ps, detectSeverityPatterns (JArr smallLetters) = Ok ps)
      by (eexists; vm_compute; reflexivity).
    destruct H as [ps Hps]. rewrite Hps.
    destruct (detectSeverityPatterns_counts_critical smallLetters ps Hps)
      as (severities & Hsev & ->).
    vm_compute in Hsev. injection Hsev; intros <-.
    reflexivity.
  - eexists. split; vm_compute; reflexivity.
Defined.

(* ================================================================== *)
(** * Learned patterns *)
(* ================================================================== *)

Lemma recurringIssue_floor (k : JsVal) (g : list JsVal) (p : Pattern) :
  (3 <= List.length g)%nat ->
  recurringIssue k g = Ok p -> (frequencyFloor p <= pt_frequency p)%nat.
Proof.
  intros H3 H. unfold recurringIssue in H.
  destruct (toString k); cbn [bind] in H; [|discriminate].
  injection H; intros <-. exact H3.
Qed.

Lemma reportGroup_floor (m : FindingsByType) : forall acc ps,
  Forall (fun p => (frequencyFloor p <= pt_frequency p)%nat) acc ->
  forEach reportGroup m acc = Ok ps ->
  Forall (fun p => (frequencyFloor p <= pt_frequency p)%nat) ps.
Proof.
  apply (forEach_invariant reportGroup (fun _ => True)).
  - intros acc [k g] acc' _ Hacc H. unfold reportGroup, threshold in H.
    cbn [fst snd] in H.
    destruct (Nat.leb_spec 3 (List.length g)) as [L|L].
    + destruct (recurringIssue k g) as [p|] eqn:Hp; cbn [bind] in H;
        [|discriminate].
      injection H; intros <-. apply Forall_app. split; [exact Hacc|].
      constructor; [|constructor]. now apply (recurringIssue_floor k g).
    + injection H; intros <-. exact Hacc.
  - apply Forall_forall. trivial.
Qed.

(** No pattern is reported below the threshold of its kind. *)
Lemma detectPatterns_floor (findings : JsVal) (ps : list Pattern) :
  detectPatterns findings = Ok ps ->
  Forall (fun p => (frequencyFloor p <= pt_frequency p)%nat) ps.
Proof.
  destruct findings as [| | | | |fs|]; try discriminate.
  intros H.
  destruct (detectPatterns_inv fs ps H) as (m & r & tp & sv & _ & Hr & Ht & Hs & ->).
  apply Forall_app. split; [|apply Forall_app; split].
  - apply (reportGroup_floor m [] r); [constructor|exact Hr].
  - destruct (detectTemporalPatterns_inv _ _ Ht) as [->|(n & Hn & ->)];
      repeat constructor. exact Hn.
  - destruct (detectSeverityPatterns_inv _ _ Hs) as [->|(n & Hn & ->)];
      repeat constructor. exact Hn.
Qed.

Lemma frequencyFloor_at_least_3 (p : Pattern) : (3 <= frequencyFloor p)%nat.
Proof.
  unfold frequencyFloor.
  destruct (pt_type p =? "Temporal Pattern"); [lia|].
  destruct (pt_type p =? "Severity Pattern"); lia.
Qed.

Lemma storePattern_keeps (now : string) (patterns patterns' : Patterns)
    (pattern : Pattern) :
  (3 <= pt_frequency pattern)%nat ->
  Forall (fun kp => wellLearned (snd kp)) patterns /\ NoDup (map fst patterns) ->
  storePattern now patterns pattern = Ok patterns' ->
  Forall (fun kp => wellLearned (snd kp)) patterns' /\ NoDup (map fst patterns').
Proof.
  intros H3 [Hw Hnd]. unfold storePattern.
  destruct (toString (pt_category pattern)) as [category|]; cbn [bind];
    [|discriminate].
  set (key := pt_type pattern ++ ":" ++ category).
  destruct (lookup key patterns) eqn:Hlook; intros H; injection H; intros <-.
  - split; [|now rewrite update_fst].
    apply (update_Forall (fun kp => wellLearned (snd kp))); [|exact Hw].
    intros v [H1 H2]. cbn [snd] in *. split; cbn; lia.
  - split.
    + apply Forall_app. split; [exact Hw|].
      constructor; [|constructor]. split; cbn; lia.
    + rewrite map_app. cbn [map fst].
      apply NoDup_app; [exact Hnd|repeat constructor; simpl; tauto|].
      intros x Hx [<-|[]]. now apply (lookup_None_notin _ _ Hlook).
Qed.

Lemma learn_keeps (clock : nat -> string) (patterns patterns' : Patterns)
    (analysisResults : JsVal) :
  Forall (fun kp => wellLearned (snd kp)) patterns /\ NoDup (map fst patterns) ->
  learn clock patterns analysisResults = Ok patterns' ->
  Forall (fun kp => wellLearned (snd kp)) patterns' /\ NoDup (map fst patterns').
Proof.
  intros Hinv. unfold learn.
  destruct (get analysisResults "findings") as [findings|]; cbn [bind];
    [|discriminate].
  destruct (truthy findings); [|intros H; injection H; intros <-; exact Hinv].
  destruct (detectPatterns findings) as [detected|] eqn:Hd; cbn [bind];
    [|discriminate].
  pose proof (detectPatterns_floor findings detected Hd) as Hfloor.
  apply (forEach_invariant
           (fun ps ip => storePattern (clock (fst ip)) ps (snd ip))
           (fun ip => (3 <= pt_frequency (snd ip))%nat)
           (fun ps => Forall (fun kp => wellLearned (snd kp)) ps /\
                      NoDup (map fst ps))).
  - intros ps [i p] ps' Hp Hps H. cbn [fst snd] in *.
    now apply (storePattern_keeps (clock i) ps ps' p).
  - apply Forall_forall. intros [i p] Hin. cbn [snd].
    apply in_combine_r in Hin. rewrite Forall_forall in Hfloor.
    pose proof (Hfloor p Hin). pose proof (frequencyFloor_at_least_3 p). lia.
  - exact Hinv.
Qed.

(** X16: in every state that [this.patterns] reaches,
    from empty through calls of learn, each stored pattern has a count of
    at least 1 and a totalFrequency of at least 3 times its count (no
    pattern is ever detected with a frequency below 3), and no two
    patterns are stored under the same key. *)
Theorem learned_patterns_well_formed (patterns : Patterns) :
  Learned patterns ->
  Forall (fun kp => wellLearned (snd kp)) patterns /\ NoDup (map fst patterns).
Proof.
  induction 1 as [|clock ps ps' a _ IH Hl].
  - split; constructor.
  - exact (learn_keeps clock ps ps' a IH Hl).
Qed.

Lemma learned_patterns_well_formed_witness :
  exists ps1 ps2,
    learn noClock [] mixedDocument = Ok ps1 /\
    learn noClock ps1 mixedDocument = Ok ps2 /\
    map (fun kp => (fst kp, lp_count (snd kp), lp_totalFrequency (snd kp))) ps2 =
      [("Recurring Issue:Timeline gap", 2, 8); ("Recurring Issue:Unknown", 2, 6);
       ("Severity Pattern:Multiple Critical Issues", 2, 8)]%nat /\
    Forall (fun kp => wellLearned (snd kp)) ps2 /\ NoDup (map fst ps2).
Proof.
  assert (H1 : exists ps1, learn noClock [] mixedDocument = Ok ps1)
    by (eexists; vm_compute; reflexivity).
  destruct H1 as [ps1 H1].
  assert (H2 : exists ps2, learn noClock ps1 mixedDocument = Ok ps2).
  { vm_compute in H1. injection H1; intros <-. eexists. vm_compute. reflexivity. }
  destruct H2 as [ps2 H2].
  exists ps1, ps2. split; [exact H1|]. split; [exact H2|].
  split.
  - vm_compute in H1. injection H1; intros <-.
    vm_compute in H2. injection H2; intros <-. reflexivity.
  - apply learned_patterns_well_formed.
    apply (learned_more noClock ps1 ps2 mixedDocument); [|exact H2].
    apply (learned_more noClock [] ps1 mixedDocument); [constructor|exact H1].
Defined.

(** X17: getLearnedPatterns lists every stored pattern
    once, in descending order of count; patterns with the same count
    keep the order in which they were first stored. *)
Theorem getLearnedPatterns_descending (patterns : Patterns) :
  StronglySorted (fun a b => (lp_count b <= lp_count a)%nat)
    (getLearnedPatterns patterns) /\
  Permutation (getLearnedPatterns patterns) (map snd patterns) /\
  forall c,
    filter (sameCount c) (getLearnedPatterns patterns) =
    filter (sameCount c) (map snd patterns).
Proof.
  unfold getLearnedPatterns. split; [|split].
  - apply (StronglySorted_weaken (before byLearnedCount)).
    + unfold before, byLearnedCount. intros a b H. lia.
    + apply sort_sorted; unfold byLearnedCount; intros; lia.
  - apply Permutation_sym, sort_perm.
  - intros c. apply sort_stable. unfold sameCount, byLearnedCount.
    intros a b Ha Hb. apply Nat.eqb_eq in Ha, Hb. lia.
Qed.

(* ================================================================== *)
(** * The defects offered for outcome recording *)
(* ================================================================== *)

Lemma pushDefect_inv (defects defects' : list Defect) (f : JsVal) :
  pushDefect defects f = Ok defects' ->
  nullish f = false /\ defects' = (defects ++ [defectFor f])%list.
Proof.
  unfold pushDefect, defectOf.
  destruct (get f "type") as [t|] eqn:Ht; cbn [bind]; [|discriminate].
  destruct (get_returns_inv _ _ _ Ht) as [Hnn ->].
  rewrite !(get_prop f) by exact Hnn. cbn [bind].
  intros H; injection H; intros <-. now split.
Qed.

Lemma forEach_pushDefect (fs : list JsVal) : forall acc ds,
  forEach pushDefect fs acc = Ok ds -> ds = (acc ++ map defectFor fs)%list.
Proof.
  induction fs as [|f rest IH]; intros acc ds H; cbn [forEach] in H.
  - injection H; intros <-. now rewrite app_nil_r.
  - destruct (pushDefect acc f) as [acc1|] eqn:H1; cbn [bind] in H;
      [|discriminate H].
    destruct (pushDefect_inv _ _ _ H1) as [_ ->].
    rewrite (IH _ _ H), <- app_assoc. reflexivity.
Qed.

(** The presets of a record, read by both extractions. *)
Lemma forEach_pushPreset (presets : list JsVal) : forall acc ds fs,
  forEach pushPreset presets acc = Ok ds ->
  flatMap presetFindings presets = Ok fs ->
  ds = (acc ++ map defectFor fs)%list.
Proof.
  induction presets as [|p rest IH]; intros acc ds fs H F;
    cbn [forEach flatMap] in H, F.
  - injection H; intros <-. injection F; intros <-. now rewrite app_nil_r.
  - destruct (pushPreset acc p) as [acc1|] eqn:H1; cbn [bind] in H;
      [|discriminate H].
    unfold pushPreset in H1. unfold presetFindings at 1 in F.
    destruct (get p "findings") as [f|]; cbn [bind] in H1, F; [|discriminate H1].
    destruct (flatMap presetFindings rest) as [rs|] eqn:Hrs; cbn [bind] in F;
      [|discriminate F].
    injection F; intros <-.
    rewrite (IH acc1 ds rs H eq_refl).
    unfold or_else. destruct (truthy f) eqn:Tf.
    + destruct f as [| | | | |its|]; try discriminate H1.
      cbn [asArray bind] in H1.
      rewrite (forEach_pushDefect its acc acc1 H1), map_app, <- app_assoc.
      reflexivity.
    + injection H1; intros <-. reflexivity.
Qed.









(** X19: for a record without direct findings, the
    defects offered for outcome recording are the findings that the
    Pattern Engine analyses, one defect for each finding and in the same
    order, repeated types included. *)
Theorem extractDefects_agrees_on_nested (a : JsVal) (fs : list JsVal)
    (ds : list Defect) :
  truthy (prop a "findings") = false ->
  extractFindings a = Ok fs ->
  extractDefects a = Ok ds ->
  ds = map defectFor fs.
Proof.
  intros Hdirect Hfs Hds.
  pose proof (extractFindings_not_nullish a fs Hfs) as Hnn.
  unfold extractFindings, findingsOf in Hfs. unfold extractDefects in Hds.
  rewrite !(get_prop a) in Hfs, Hds by exact Hnn. cbn [bind] in Hfs, Hds.
  rewrite Hdirect in Hfs, Hds.
  destruct (get_opt (prop a "phases") "presetAnalysis") as [pa|];
    cbn [bind] in Hfs, Hds; [|discriminate Hfs].
  destruct (nullish pa) eqn:Npa.
  - assert (Tpa : truthy pa = false) by (destruct pa; try discriminate; reflexivity).
    rewrite Tpa in Hds. cbn [bind asArray] in Hfs, Hds.
    injection Hfs; intros <-. injection Hds; intros <-. reflexivity.
  - destruct (asArray pa) as [presets|] eqn:Hpa; cbn [bind] in Hfs;
      [|discriminate Hfs].
    destruct pa as [| | | | |ps|]; try discriminate Hpa.
    injection Hpa; intros <-. cbn [truthy asArray bind] in Hds.
    destruct (flatMap presetFindings ps) as [nested|] eqn:Hn; cbn [bind] in Hfs;
      [|discriminate Hfs].
    injection Hfs; intros <-.
    destruct (forEach pushPreset ps []) as [ds'|] eqn:Hp; cbn [bind] in Hds;
      [|discriminate Hds].
    injection Hds; intros <-.
    exact (forEach_pushPreset ps [] ds' nested Hp Hn).
Qed.

Lemma extractDefects_agrees_on_nested_witness :
  extractDefects novelLatest =
  Ok (map defectFor
        [mkBareDefect "C" "HIGH"; mkBareDefect "A" "LOW"; mkBareDefect "C" "HIGH"]).
Proof.
  assert (H : exists ds, extractDefects novelLatest = Ok ds)
    by (eexists; vm_compute; reflexivity).
  destruct H as [ds Hds]. rewrite Hds. f_equal.
  apply (extractDefects_agrees_on_nested novelLatest
           [mkBareDefect "C" "HIGH"; mkBareDefect "A" "LOW"; mkBareDefect "C" "HIGH"]
           ds); [reflexivity|reflexivity|exact Hds].
Defined.

Lemma strictEq_primitive_refl (v : JsVal) : primitive v = true -> strictEq v v = true.
Proof.
  destruct v; cbn; try reflexivity; try discriminate; intros _.
  - now destruct b.
  - apply Z.eqb_refl.
  - apply String.eqb_refl.
Qed.

Lemma offered_app (ds ds' : list Defect) (f : JsVal) :
  offered ds f = true -> offered (ds ++ ds') f = true.
Proof. unfold offered. rewrite existsb_app. now intros ->. Qed.

(** One direct finding: it is pushed unless a defect of its type is
    there already. *)
Lemma pushUnlessKnown_inv (defects defects' : list Defect) (f : JsVal) :
  pushUnlessKnown defects f = Ok defects' ->
  nullish f = false /\
  defects' = if offered defects f then defects else (defects ++ [defectFor f])%list.
Proof.
  unfold pushUnlessKnown, offered.
  destruct (get f "type") as [t|] eqn:Ht; cbn [bind]; [|discriminate].
  destruct (get_returns_inv _ _ _ Ht) as [Hnn ->].
  destruct (existsb _ defects).
  - intros H; injection H; intros <-. now split.
  - intros H. destruct (pushDefect_inv _ _ _ H) as [_ ->]. now split.
Qed.

Lemma forEach_pushUnlessKnown (fs : list JsVal) : forall acc ds,
  ForallOrdPairs differentTypes acc ->
  forEach pushUnlessKnown fs acc = Ok ds ->
  ForallOrdPairs differentTypes ds /\
  (forall f, offered acc f = true -> offered ds f = true) /\
  Forall (fun f => primitive (prop f "type") = true -> offered ds f = true) fs /\
  (List.length ds <= List.length acc + List.length fs)%nat.
Proof.
  induction fs as [|f rest IH]; intros acc ds Hacc H; cbn [forEach] in H.
  - injection H; intros <-.
    split; [exact Hacc|]. split; [tauto|]. split; [constructor|lia].
  - destruct (pushUnlessKnown acc f) as [acc1|] eqn:H1; cbn [bind] in H;
      [|discriminate H].
    destruct (pushUnlessKnown_inv _ _ _ H1) as [_ E1].
    assert (Hacc1 : ForallOrdPairs differentTypes acc1 /\
                    (forall g, offered acc g = true -> offered acc1 g = true) /\
                    (primitive (prop f "type") = true -> offered acc1 f = true) /\
                    (List.length acc1 <= List.length acc + 1)%nat).
    { destruct (offered acc f) eqn:Hof; subst acc1.
      - repeat split; try assumption; try tauto. lia.
      - split; [|split; [|split]].
        + clear -Hacc Hof. unfold offered in Hof.
          induction Hacc as [|d ds Hd _ IHd]; cbn [app].
          * constructor; constructor.
          * cbn [existsb] in Hof. apply orb_false_iff in Hof.
            destruct Hof as [Hd0 Hrest].
            constructor; [|now apply IHd].
            apply Forall_app. split; [exact Hd|].
            constructor; [|constructor]. exact Hd0.
        + intros g. apply offered_app.
        + intros Hp. unfold offered. rewrite existsb_app. cbn [existsb defectFor df_type].
          rewrite (strictEq_primitive_refl _ Hp). now rewrite orb_true_r.
        + rewrite length_app. cbn. lia. }
    destruct Hacc1 as (Hd1 & Hmono1 & Hf1 & Hlen1).
    destruct (IH acc1 ds Hd1 H) as (Hd & Hmono & Hall & Hlen).
    repeat split.
    + exact Hd.
    + intros g Hg. now apply Hmono, Hmono1.
    + constructor; [|exact Hall]. intros Hp. now apply Hmono, Hf1.
    + cbn [List.length]. lia.
Qed.

(** X20: for a record without a preset analysis and with
    an array of direct findings, extractDefects offers each type once: no
    two defects of the result have the same type, every finding whose
    type is a primitive value has its type among them, and there are
    never more defects than findings. *)
Theorem extractDefects_offers_each_type_once (a : JsVal) (fs : list JsVal)
    (ds : list Defect) :
  truthy (presetsOf a) = false ->
  get a "findings" = Ok (JArr fs) ->
  extractDefects a = Ok ds ->
  ForallOrdPairs differentTypes ds /\
  Forall (fun f => primitive (prop f "type") = true -> offered ds f = true) fs /\
  (List.length ds <= List.length fs)%nat.
Proof.
  intros Hpa Hfs Hds.
  destruct (get_returns_inv _ _ _ Hfs) as [Hnn Efs].
  unfold extractDefects in Hds.
  rewrite !(get_prop a) in Hds by exact Hnn. cbn [bind] in Hds.
  assert (Epa : get_opt (prop a "phases") "presetAnalysis" = Ok (presetsOf a)).
  { unfold get_opt, presetsOf. destruct (nullish (prop a "phases")) eqn:N;
      [reflexivity|]. now apply get_prop. }
  rewrite Epa in Hds. cbn [bind] in Hds. rewrite Hpa in Hds. cbn [bind] in Hds.
  rewrite <- Efs in Hds. cbn [truthy asArray bind] in Hds.
  destruct (forEach_pushUnlessKnown fs [] ds (FOP_nil _) Hds)
    as (Hd & _ & Hall & Hlen).
  repeat split; assumption.
Qed.

Lemma extractDefects_offers_each_type_once_witness :
  exists ds,
    extractDefects repeatedFindings = Ok ds /\
    map df_type ds = [JStr "A"; JStr "B"] /\
    ForallOrdPairs differentTypes ds /\
    (List.length ds <= 4)%nat.
Proof.
  assert (H : exists ds, extractDefects repeatedFindings = Ok ds)
    by (eexists; vm_compute; reflexivity).
  destruct H as [ds Hds]. exists ds. split; [exact Hds|].
  destruct (extractDefects_offers_each_type_once repeatedFindings
              [mkBareDefect "A" "HIGH"; mkDefect "B" "" "s.1" "first";
               mkBareDefect "A" "LOW"; mkBareDefect "B" "LOW"]
              ds eq_refl eq_refl Hds) as (Hd & _ & Hlen).
  vm_compute in Hds. injection Hds; intros <-.
  split; [reflexivity|]. split; [exact Hd|exact Hlen].
Defined.

(* ================================================================== *)
(** * The record stored for an outcome *)
(* ================================================================== *)

Lemma outcomeRecord_inv (now1 now2 : string) (analysisId outcome r : JsVal) :
  outcomeRecord now1 now2 analysisId outcome = Ok r ->
  nullish outcome = false /\
  nullish r = false /\
  prop r "analysisId" = analysisId /\
  prop r "outcome" = prop outcome "outcome" /\
  prop r "defectsRaised" = or_else (prop outcome "defectsRaised") (JArr []).
Proof.
  unfold outcomeRecord.
  destruct (get outcome "outcome") as [o|] eqn:Ho; cbn [bind]; [|discriminate].
  destruct (get_returns_inv _ _ _ Ho) as [Hnn ->].
  rewrite !(get_prop outcome) by exact Hnn. cbn [bind].
  intros H; injection H; intros <-.
  split; [exact Hnn|]. repeat split.
Qed.

Lemma raisedBy_or_else (v : JsVal) :
  match or_else v (JArr []) with JArr items => items | _ => [] end =
  match v with JArr items => items | _ => [] end.
Proof. unfold or_else. destruct v as [| |b|n|s| |]; try reflexivity.
  - now destruct b.
  - cbn. now destruct (n =? 0)%Z.
  - cbn. now destruct (s =? "").
Qed.

(** X21: the record that saveOutcome stores for the data
    of an outcome teaches the detector the same as the data themselves:
    from any state, learning from the data (as the recorder does) and
    replaying the stored record (as a reload of the ledger does) both
    return, and they leave every defect type with the same counters. *)
Theorem stored_outcome_teaches_the_same (now1 now2 : string)
    (analysisId outcome r : JsVal) (d : Detector) :
  outcomeRecord now1 now2 analysisId outcome = Ok r ->
  exists d1 d2,
    learnFromOutcome d analysisId outcome = Ok d1 /\
    replayOutcomes d [r] = Ok d2 /\
    forall k, counters k d2 = counters k d1.
Proof.
  intros Hr.
  destruct (outcomeRecord_inv _ _ _ _ _ Hr) as (Hnn & Hrn & Hid & Ho & Hdr).
  destruct (learnFromOutcome_returns d analysisId outcome Hnn) as [d1 H1].
  destruct (replayOutcomes_returns [r] ltac:(now repeat constructor) d) as [d2 H2].
  exists d1, d2. split; [exact H1|]. split; [exact H2|].
  intros k.
  destruct (replayOutcomes_counters [r] k d d2 H2) as (Et & Es & Eu).
  pose proof (counter_learnFromOutcome st_totalRaised (fun _ => 1%nat)
                (fun _ => eq_refl) total_record d d1 _ outcome k H1) as Ft.
  pose proof (counter_learnFromOutcome st_successful _
                (fun _ => eq_refl) successful_record d d1 _ outcome k H1) as Fs.
  pose proof (counter_learnFromOutcome st_unsuccessful _
                (fun _ => eq_refl) unsuccessful_record d d1 _ outcome k H1) as Fu.
  cbn [oe_outcome entryOf] in Fs, Fu.
  assert (Er : raisedBy r = raisedBy outcome).
  { unfold raisedBy. rewrite Hdr. apply raisedBy_or_else. }
  unfold counters. rewrite Et, Es, Eu, Ft, Fs, Fu. unfold timesRaised.
  cbn [filter flat_map]. unfold failed, succeeded. rewrite Ho.
  destruct (isSuccessful (prop outcome "outcome")); cbn [negb flat_map];
    rewrite ?app_nil_r, ?Er; cbn [filter List.length];
    repeat (f_equal; try lia).
Qed.

Lemma stored_outcome_teaches_the_same_witness :
  exists r d1 d2,
    outcomeRecord "2024-06-01T00:00:00.000Z" "2024-06-01T00:00:00.001Z"
      (JNum 7) recorderData = Ok r /\
    prop r "courtResponse" = JStr "" /\
    learnFromOutcome (learned smallLedger) (JNum 7) recorderData = Ok d1 /\
    replayOutcomes (learned smallLedger) [r] = Ok d2 /\
    forall k, counters k d2 = counters k d1.
Proof.
  assert (H : exists r,
             outcomeRecord "2024-06-01T00:00:00.000Z" "2024-06-01T00:00:00.001Z"
               (JNum 7) recorderData = Ok r)
    by (eexists; vm_compute; reflexivity).
  destruct H as [r Hr].
  destruct (stored_outcome_teaches_the_same _ _ _ _ r (learned smallLedger) Hr)
    as (d1 & d2 & H1 & H2 & Hk).
  exists r, d1, d2. split; [exact Hr|].
  split; [vm_compute in Hr; injection Hr; intros <-; reflexivity|].
  repeat split; assumption.
Defined.
